(** * Request orchestration and beam search of [vllm/entrypoints/llm.py]

    A shallow embedding of the batch submission pipeline
    ([LLM._validate_and_add_requests], [LLM._add_request],
    [LLM._add_guided_params]), of the engine drain loop with its output
    collation ([LLM._run_engine]) and of the beam search built on top of
    them ([LLM._get_beam_search_lora_requests], [LLM.beam_search]).

    Python objects that are mutated in place and shared with the caller
    (the sampling parameters) live in an explicit object store; the
    stepping engine, the tokenizer and the other collaborators that the
    file imports are interfaces.  Floating-point numbers (log-probabilities,
    scores, temperature) are idealised as exact rationals. *)

From Stdlib Require Import Strings.String Strings.Ascii.
From Stdlib Require Import DecimalString DecimalZ DecimalPos.
From stdpp Require Import gmap sorting.
From Stdlib Require Import List ZArith QArith Lia Permutation Sorted.
Import ListNotations.

Local Open Scope Z_scope.
Local Open Scope list_scope.

(** ** The Python runtime *)

Module Py.

(** The exceptions the modelled code raises or lets through. *)
Inductive exn : Type :=
| ValueError | TypeError | IndexError | KeyError | AssertionError
| EngineError.

(** The outcome of a call: a value, a raised exception, or a drain loop
    that was cut off by the step bound of the model ([OutOfFuel] is not a
    Python outcome: the [while] loop of the source has no bound). *)
Inductive result (A : Type) : Type :=
| Ok (a : A)
| Raise (e : exn)
| OutOfFuel.
Arguments Ok {A} a.
Arguments Raise {A} e.
Arguments OutOfFuel {A}.

(** Calls that read and write a state [S]; the state survives a raised
    exception, as the Python heap does. *)
Definition M (S A : Type) : Type := S -> S * result A.

Definition ret {S A} (a : A) : M S A := fun s => (s, Ok a).
Definition raise {S A} (e : exn) : M S A := fun s => (s, Raise e).
Definition bind {S A B} (c : M S A) (k : A -> M S B) : M S B :=
  fun s =>
    match c s with
    | (s', Ok a) => k a s'
    | (s', Raise e) => (s', Raise e)
    | (s', OutOfFuel) => (s', OutOfFuel)
    end.
Definition get {S} : M S S := fun s => (s, Ok s).
Definition put {S} (s : S) : M S unit := fun _ => (s, Ok tt).
Definition lift {S A} (r : result A) : M S A := fun s => (s, r).

(** Sequencing of outcomes that touch no state. *)
Definition rbind {A B} (r : result A) (k : A -> result B) : result B :=
  match r with
  | Ok a => k a
  | Raise e => Raise e
  | OutOfFuel => OutOfFuel
  end.

(** [[f(x) for x in xs]] where [f] may raise: the first exception wins. *)
Fixpoint map_result {A B} (f : A -> result B) (xs : list A)
    : result (list B) :=
  match xs with
  | [] => Ok []
  | x :: xs' =>
      rbind (f x) (fun y => rbind (map_result f xs') (fun ys => Ok (y :: ys)))
  end.

(** [list(range(n))] *)
Definition range (n : Z) : list Z := map Z.of_nat (seq 0 (Z.to_nat n)).

(** [list(range(a, b))] on positions. *)
Definition range_from (a b : nat) : list nat := seq a (b - a).

(** [for x in xs: body(x)] *)
Fixpoint for_each {S A} (xs : list A) (body : A -> M S unit) : M S unit :=
  match xs with
  | [] => ret tt
  | x :: xs' => bind (body x) (fun _ => for_each xs' body)
  end.

(** [xs[i]] for [0 <= i]: [IndexError] out of range. *)
Definition index {A} (xs : list A) (i : nat) : result A :=
  match nth_error xs i with
  | Some x => Ok x
  | None => Raise IndexError
  end.

(** [xs[:k]]: a negative [k] counts from the end. *)
Definition slice_to {A} (xs : list A) (k : Z) : list A :=
  if 0 <=? k then firstn (Z.to_nat k) xs
  else firstn (length xs - Z.to_nat (- k)) xs.

(** [list(enumerate(xs))] *)
Definition enumerate {A} (xs : list A) : list (nat * A) :=
  combine (seq 0 (length xs)) xs.

(** [list(itertools.accumulate(xs))]: the running sums. *)
Fixpoint accumulate_from (acc : nat) (xs : list nat) : list nat :=
  match xs with
  | [] => []
  | x :: xs' => (acc + x)%nat :: accumulate_from (acc + x)%nat xs'
  end.
Definition accumulate (xs : list nat) : list nat := accumulate_from 0%nat xs.

(** [str(n)] and [int(s)] on decimal numerals.  [int] also accepts a
    leading [+], surrounding blanks and [_] between digits; no identifier
    issued by [str] has them, and they are read as [ValueError] here. *)
Definition str (n : Z) : string := NilZero.string_of_int (Z.to_int n).
Definition int (s : string) : result Z :=
  match NilZero.int_of_string s with
  | Some d => Ok (Z.of_int d)
  | None => Raise ValueError
  end.

(** [sorted(xs, key=key, reverse=reverse)].  The sort is stable in both
    directions: elements with equal keys keep their order.  [insort]
    puts [x], which precedes every element of [l] in the input, before
    the first element that does not have to come strictly before it. *)
Fixpoint insort {A} (before : A -> A -> bool) (x : A) (l : list A) : list A :=
  match l with
  | [] => [x]
  | y :: l' => if before y x then y :: insort before x l' else x :: y :: l'
  end.

Definition sorted {A K} (ltb : K -> K -> bool) (key : A -> K)
    (reverse : bool) (xs : list A) : list A :=
  fold_right
    (insort (fun y x =>
               if reverse then ltb (key x) (key y) else ltb (key y) (key x)))
    [] xs.

(** The keys are computed once, in order, before anything is compared; a
    key that raises makes [sorted] raise. *)
Definition keyed {A K} (key : A -> result K) (xs : list A)
    : result (list (K * A)) :=
  map_result (fun x => rbind (key x) (fun k => Ok (k, x))) xs.

Definition sorted_raising {A K} (ltb : K -> K -> bool) (key : A -> result K)
    (xs : list A) : result (list A) :=
  rbind (keyed key xs) (fun kxs => Ok (map snd (sorted ltb fst false kxs))).

(** [x < y] on rationals. *)
Definition Qltb (x y : Q) : bool := negb (Qle_bool y x).

End Py.

Notation "'let?' x ':=' c 'in' k" := (Py.rbind c (fun x => k))
  (at level 10, x name, c at level 100, k at level 200,
   format "'[v' 'let?'  x  ':='  c  'in' '/' k ']'").
Notation "'let!' x ':=' c 'in' k" := (Py.bind c (fun x => k))
  (at level 10, x name, c at level 100, k at level 200,
   format "'[v' 'let!'  x  ':='  c  'in' '/' k ']'").

(** ** Data model *)

(** Token identifiers are Python integers. *)
Definition token : Type := Z.

(** Adapter handles and multimodal payloads are forwarded, never
    inspected: a name is all the model keeps of them. *)
Record LoRARequest : Type := { lora_name : string }.
Record PromptAdapterRequest : Type := { prompt_adapter_name : string }.
Record SteerVectorRequest : Type := { steer_vector_name : string }.
Definition MultiModalData : Type := string.
Definition MMProcessorKwargs : Type := string.
Definition TokenizationKwargs : Type := list (string * Z).

Inductive RequestOutputKind : Type := CUMULATIVE | DELTA | FINAL_ONLY.

Module GuidedDecodingRequest.
Record t : Type := {
  guided_json : option string;
  guided_regex : option string;
  guided_choice : option (list string);
  guided_grammar : option string;
  guided_decoding_backend : option string;
  guided_whitespace_pattern : option string;
  guided_json_object : option bool;
  structural_tag : option string }.
End GuidedDecodingRequest.

Module GuidedDecodingParams.
Record t : Type := {
  json : option string;
  regex : option string;
  choice : option (list string);
  grammar : option string;
  json_object : option bool;
  backend : option string;
  whitespace_pattern : option string;
  structural_tag : option string }.
End GuidedDecodingParams.

(** The fields of [SamplingParams] that the file reads or writes;
    [other_fields] stands for all the others (n, top_p, stop, ...). *)
Module SamplingParams.
Record t : Type := {
  logprobs : option Z;
  max_tokens : option Z;
  temperature : Q;
  truncate_prompt_tokens : option Z;
  guided_decoding : option GuidedDecodingParams.t;
  output_kind : RequestOutputKind;
  other_fields : list (string * Z) }.

(** [sp.output_kind = kind] *)
Definition set_output_kind (kind : RequestOutputKind) (sp : t) : t :=
  {| logprobs := logprobs sp; max_tokens := max_tokens sp;
     temperature := temperature sp;
     truncate_prompt_tokens := truncate_prompt_tokens sp;
     guided_decoding := guided_decoding sp;
     output_kind := kind;
     other_fields := other_fields sp |}.

(** [sp.guided_decoding = g] *)
Definition set_guided_decoding (g : option GuidedDecodingParams.t) (sp : t)
    : t :=
  {| logprobs := logprobs sp; max_tokens := max_tokens sp;
     temperature := temperature sp;
     truncate_prompt_tokens := truncate_prompt_tokens sp;
     guided_decoding := g;
     output_kind := output_kind sp;
     other_fields := other_fields sp |}.
End SamplingParams.

Record PoolingParams : Type := { pooling_fields : list (string * Z) }.

(** A parameter object is one or the other; [isinstance(sp,
    SamplingParams)] is a match on the constructor. *)
Inductive Params : Type :=
| Sampling (sp : SamplingParams.t)
| Pooling (pp : PoolingParams).

(** Parameter objects are Python objects: the caller and the submission
    pipeline hold references to the same object. *)
Definition ref : Type := nat.

(** A [TextPrompt] or [TokensPrompt] dictionary: an absent key is [None]. *)
Module PromptDict.
Record t : Type := {
  prompt : option string;
  prompt_token_ids : option (list token);
  multi_modal_data : option MultiModalData;
  mm_processor_kwargs : option MMProcessorKwargs }.
End PromptDict.

(** [PromptType]: a plain string or a prompt dictionary. *)
Inductive PromptType : Type :=
| PStr (s : string)
| PDict (d : PromptDict.t).

(** What [llm_engine.add_request] receives.  [params] is a reference to
    the parameter object, as in Python. *)
Module Request.
Record t : Type := {
  request_id : string;
  prompt : PromptType;
  params : ref;
  lora_request : option LoRARequest;
  tokenization_kwargs : option TokenizationKwargs;
  prompt_adapter_request : option PromptAdapterRequest;
  steer_vector_request : option SteerVectorRequest;
  priority : Z }.
End Request.

Record Logprob : Type := { logprob : Q; rank : option Z }.

(** A [dict[int, Logprob]]: iteration follows insertion order. *)
Definition LogprobDict : Type := list (token * Logprob).

Module CompletionOutput.
Record t : Type := {
  token_ids : list token;
  logprobs : option (list LogprobDict) }.
End CompletionOutput.

(** A [RequestOutput], or a [PoolingRequestOutput] when [pooling] is set
    (its [outputs] are then not a list of completions and stay empty). *)
Module RequestOutput.
Record t : Type := {
  request_id : string;
  finished : bool;
  pooling : bool;
  prompt_token_ids : option (list token);
  outputs : list CompletionOutput.t }.
End RequestOutput.

Module BeamSearchParams.
Record t : Type := {
  beam_width : Z;
  max_tokens : Z;
  ignore_eos : bool;
  temperature : Q;
  length_penalty : Q }.
End BeamSearchParams.

(** Modelled from the spec: the class [BeamSearchSequence] of
    [vllm/beam_search.py], which is not part of the sources at hand.  One
    candidate continuation holds the full token sequence so far (prompt
    and continuation), the log-probability distributions retained per
    step, the cumulative log-probability and the adapter handle it
    inherits; [text] and the multimodal fields are the keyword arguments
    and the attribute that [LLM.beam_search] uses. *)
Module BeamSearchSequence.
Record t : Type := {
  tokens : list token;
  logprobs : list LogprobDict;
  lora_request : option LoRARequest;
  cum_logprob : Q;
  text : option string;
  multi_modal_data : option MultiModalData;
  mm_processor_kwargs : option MMProcessorKwargs }.

(** [beam.text = s] *)
Definition set_text (s : option string) (beam : t) : t :=
  {| tokens := tokens beam; logprobs := logprobs beam;
     lora_request := lora_request beam; cum_logprob := cum_logprob beam;
     text := s;
     multi_modal_data := multi_modal_data beam;
     mm_processor_kwargs := mm_processor_kwargs beam |}.
End BeamSearchSequence.

(** Modelled from the spec: the class [BeamSearchInstance] of
    [vllm/beam_search.py].  One input prompt undergoing beam search holds
    the original prompt tokens, the ordered list of active beams, the list
    of completed beams and the adapter handle, fixed for its lifetime.  It
    is created with a single active beam, the prompt itself at cumulative
    log-probability zero, and no completed beam. *)
Module BeamSearchInstance.
Record t : Type := {
  prompt_tokens : list token;
  lora_request : option LoRARequest;
  beams : list BeamSearchSequence.t;
  completed : list BeamSearchSequence.t }.

Definition init (prompt_tokens : list token)
    (lora_request : option LoRARequest)
    (logprobs : option (list LogprobDict))
    (multi_modal_data : option MultiModalData)
    (mm_processor_kwargs : option MMProcessorKwargs) : t :=
  {| prompt_tokens := prompt_tokens;
     lora_request := lora_request;
     beams :=
       [ {| BeamSearchSequence.tokens := prompt_tokens;
            BeamSearchSequence.logprobs :=
              match logprobs with None => [] | Some l => l end;
            BeamSearchSequence.lora_request := lora_request;
            BeamSearchSequence.cum_logprob := 0%Q;
            BeamSearchSequence.text := None;
            BeamSearchSequence.multi_modal_data := multi_modal_data;
            BeamSearchSequence.mm_processor_kwargs := mm_processor_kwargs |} ];
     completed := [] |}.

(** [instance.beams = bs] and the in-place growth of [instance.completed] *)
Definition update (bs cs : list BeamSearchSequence.t) (instance : t) : t :=
  {| prompt_tokens := prompt_tokens instance;
     lora_request := lora_request instance;
     beams := bs;
     completed := cs |}.
End BeamSearchInstance.

Record BeamSearchOutput : Type := { sequences : list BeamSearchSequence.t }.

(** ** Collaborators *)

Record Tokenizer : Type := {
  eos_token_id : token;
  encode : string -> list token;
  decode : list token -> string }.

(** What [LLM.beam_search] takes from outside its body.
    - [verify_args]: the validation that constructing a [SamplingParams]
      runs ([vllm/sampling_params.py]); a rejected object is a
      [ValueError].
    - [create_sort_beams_key_function]: the scoring function of
      [vllm/beam_search.py], the cumulative log-probability normalised by
      a length penalty.
    - [generate]: [self.generate] as beam search calls it, with a batch
      of token prompts, one parameter object, [use_tqdm] and one adapter
      handle per prompt.  It acts on a state [World] (the engine and the
      request counter); the parameter object is the same at every step,
      and whatever [generate] makes of having seen it before is part of
      its [World]. *)
Record Env (World : Type) : Type := {
  verify_args : SamplingParams.t -> bool;
  create_sort_beams_key_function : token -> Q -> BeamSearchSequence.t -> Q;
  get_tokenizer : Tokenizer;
  generate :
    list PromptDict.t -> SamplingParams.t -> bool ->
    list (option LoRARequest) -> Py.M World (list RequestOutput.t) }.
Arguments verify_args {World} _ _.
Arguments create_sort_beams_key_function {World} _ _ _ _.
Arguments get_tokenizer {World} _.
Arguments generate {World} _ _ _ _ _ _.

(** An adapter-handle argument: [None], one handle, or a sequence. *)
Inductive LoraArg : Type :=
| LoraNone
| LoraOne (l : LoRARequest)
| LoraSeq (ls : list (option LoRARequest)).

Definition lora_is_sequence (a : LoraArg) : bool :=
  match a with LoraSeq _ => true | _ => false end.
Definition lora_len (a : LoraArg) : nat :=
  match a with LoraSeq ls => length ls | _ => 0%nat end.

(** ** Beam search *)

Module LLM.

Import Py.

(** [LLM._get_beam_search_lora_requests] *)
Definition _get_beam_search_lora_requests (lora_request : LoraArg)
    (prompts : list PromptDict.t) : result (list (option LoRARequest)) :=
  if lora_is_sequence lora_request
     && negb (lora_len lora_request =? length prompts)%nat
  then Raise ValueError
  else
    match lora_request with
    | LoraNone => Ok (repeat None (length prompts))
    | LoraOne l => Ok (repeat (Some l) (length prompts))
    | LoraSeq _ => Raise TypeError
    end.

(** [SamplingParams(logprobs=.., max_tokens=.., temperature=..)]: every
    other field at its default, then the validation of the class. *)
Definition new_SamplingParams {World} (env : Env World)
    (logprobs max_tokens : Z) (temperature : Q) : result SamplingParams.t :=
  let sp :=
    {| SamplingParams.logprobs := Some logprobs;
       SamplingParams.max_tokens := Some max_tokens;
       SamplingParams.temperature := temperature;
       SamplingParams.truncate_prompt_tokens := None;
       SamplingParams.guided_decoding := None;
       SamplingParams.output_kind := CUMULATIVE;
       SamplingParams.other_fields := [] |} in
  if verify_args env sp then Ok sp else Raise ValueError.

(** The local function [create_tokens_prompt_from_beam]. *)
Definition create_tokens_prompt_from_beam (beam : BeamSearchSequence.t)
    : PromptDict.t :=
  {| PromptDict.prompt := None;
     PromptDict.prompt_token_ids := Some (BeamSearchSequence.tokens beam);
     PromptDict.multi_modal_data := BeamSearchSequence.multi_modal_data beam;
     PromptDict.mm_processor_kwargs :=
       BeamSearchSequence.mm_processor_kwargs beam |}.

(** The tokens of a prompt: [prompt["prompt_token_ids"]] when the key is
    there, the encoding of [prompt["prompt"]] otherwise, and [KeyError]
    when neither is. *)
Definition prompt_tokens_of (tokenizer : Tokenizer) (prompt : PromptDict.t)
    : result (list token) :=
  match PromptDict.prompt_token_ids prompt with
  | Some ids => Ok ids
  | None =>
      match PromptDict.prompt prompt with
      | Some s => Ok (encode tokenizer s)
      | None => Raise KeyError
      end
  end.

(** The body of [for lora_req, prompt in zip(lora_requests, prompts)]:
    the instance of one prompt. *)
Definition make_instance (tokenizer : Tokenizer)
    (lp : option LoRARequest * PromptDict.t)
    : result BeamSearchInstance.t :=
  let (lora_req, prompt) := lp in
  let? prompt_tokens := prompt_tokens_of tokenizer prompt in
  Ok (BeamSearchInstance.init prompt_tokens lora_req None
        (PromptDict.multi_modal_data prompt)
        (PromptDict.mm_processor_kwargs prompt)).

(** The candidate that appends [token_id] to [current_beam]. *)
Definition new_beam (current_beam : BeamSearchSequence.t)
    (logprobs : LogprobDict) (token_id : token) (logprob_obj : Logprob)
    : BeamSearchSequence.t :=
  {| BeamSearchSequence.tokens :=
       BeamSearchSequence.tokens current_beam ++ [token_id];
     BeamSearchSequence.logprobs :=
       BeamSearchSequence.logprobs current_beam ++ [logprobs];
     BeamSearchSequence.lora_request :=
       BeamSearchSequence.lora_request current_beam;
     BeamSearchSequence.cum_logprob :=
       (BeamSearchSequence.cum_logprob current_beam + logprob logprob_obj)%Q;
     BeamSearchSequence.text := None;
     BeamSearchSequence.multi_modal_data :=
       BeamSearchSequence.multi_modal_data current_beam;
     BeamSearchSequence.mm_processor_kwargs :=
       BeamSearchSequence.mm_processor_kwargs current_beam |}.

(** [for token_id, logprob_obj in logprobs.items()]: the state of the
    loop is the pair of [instance.completed] and [instance_new_beams]. *)
Definition expand_beam (eos : token) (ignore_eos : bool)
    (current_beam : BeamSearchSequence.t) (logprobs : LogprobDict)
    (acc : list BeamSearchSequence.t * list BeamSearchSequence.t)
    : list BeamSearchSequence.t * list BeamSearchSequence.t :=
  fold_left
    (fun (acc : list BeamSearchSequence.t * list BeamSearchSequence.t)
         (item : token * Logprob) =>
       let (completed, instance_new_beams) := acc in
       let (token_id, logprob_obj) := item in
       let nb := new_beam current_beam logprobs token_id logprob_obj in
       if (token_id =? eos) && negb ignore_eos
       then (completed ++ [nb], instance_new_beams)
       else (completed, instance_new_beams ++ [nb]))
    logprobs acc.

(** [for i in range(start, end)] *)
Fixpoint expand_range (eos : token) (ignore_eos : bool)
    (all_beams : list BeamSearchSequence.t) (output : list RequestOutput.t)
    (positions : list nat)
    (acc : list BeamSearchSequence.t * list BeamSearchSequence.t)
    : result (list BeamSearchSequence.t * list BeamSearchSequence.t) :=
  match positions with
  | [] => Ok acc
  | i :: positions' =>
      let? current_beam := index all_beams i in
      let? result := index output i in
      let? first := index (RequestOutput.outputs result) 0 in
      match CompletionOutput.logprobs first with
      | Some steps =>
          let? logprobs := index steps 0 in
          expand_range eos ignore_eos all_beams output positions'
            (expand_beam eos ignore_eos current_beam logprobs acc)
      | None =>
          (* the sequence ended on the model length or was aborted *)
          expand_range eos ignore_eos all_beams output positions' acc
      end
  end.

(** The body of [for (start, end), instance in zip(...)]: expand the
    beams of one instance, then sort and prune. *)
Definition step_instance (beam_width : Z) (eos : token) (ignore_eos : bool)
    (sort_beams_key : BeamSearchSequence.t -> Q)
    (all_beams : list BeamSearchSequence.t) (output : list RequestOutput.t)
    (entry : (nat * nat) * BeamSearchInstance.t)
    : result BeamSearchInstance.t :=
  let '((start, end_), instance) := entry in
  let? expanded :=
    expand_range eos ignore_eos all_beams output (range_from start end_)
      (BeamSearchInstance.completed instance, []) in
  let (completed, instance_new_beams) :=
    (expanded : list BeamSearchSequence.t * list BeamSearchSequence.t) in
  let sorted_beams := sorted Qltb sort_beams_key true instance_new_beams in
  Ok (BeamSearchInstance.update (slice_to sorted_beams beam_width) completed
        instance).

(** [all_beams]: the active beams of all instances, flattened. *)
Definition flatten_beams (instances : list BeamSearchInstance.t)
    : list BeamSearchSequence.t :=
  concat (map BeamSearchInstance.beams instances).

(** [instance_start_and_end]: the position range of each instance in
    [all_beams]. *)
Definition start_and_end (instances : list BeamSearchInstance.t)
    : list (nat * nat) :=
  let pos :=
    0%nat :: accumulate
               (map (fun instance =>
                       length (BeamSearchInstance.beams instance)) instances) in
  combine (removelast pos) (tl pos).

(** One pass of [for _ in token_iter]; [None] is the [break]. *)
Definition token_step {World} (env : Env World) (beam_width : Z)
    (eos : token) (ignore_eos : bool)
    (sort_beams_key : BeamSearchSequence.t -> Q)
    (beam_search_params : SamplingParams.t)
    (instances : list BeamSearchInstance.t)
    : M World (option (list BeamSearchInstance.t)) :=
  let all_beams := flatten_beams instances in
  let instance_start_and_end := start_and_end instances in
  if (length all_beams =? 0)%nat then ret None
  else
    let batch :=
      map (fun beam => (create_tokens_prompt_from_beam beam,
                        BeamSearchSequence.lora_request beam)) all_beams in
    let prompts_batch := map fst batch in
    let lora_req_batch := map snd batch in
    let! output :=
      generate env prompts_batch beam_search_params false lora_req_batch in
    let! instances' :=
      lift (map_result
              (step_instance beam_width eos ignore_eos sort_beams_key
                 all_beams output)
              (combine instance_start_and_end instances)) in
    ret (Some instances').

(** [for _ in token_iter] *)
Fixpoint token_loop {World} (env : Env World) (beam_width : Z)
    (eos : token) (ignore_eos : bool)
    (sort_beams_key : BeamSearchSequence.t -> Q)
    (beam_search_params : SamplingParams.t)
    (token_iter : list Z) (instances : list BeamSearchInstance.t)
    : M World (list BeamSearchInstance.t) :=
  match token_iter with
  | [] => ret instances
  | _ :: token_iter' =>
      let! next :=
        token_step env beam_width eos ignore_eos sort_beams_key
          beam_search_params instances in
      match next with
      | None => ret instances
      | Some instances' =>
          token_loop env beam_width eos ignore_eos sort_beams_key
            beam_search_params token_iter' instances'
      end
  end.

(** The final [for instance in instances]: merge, sort, keep the best and
    decode them. *)
Definition best_of_instance (beam_width : Z) (tokenizer : Tokenizer)
    (sort_beams_key : BeamSearchSequence.t -> Q)
    (instance : BeamSearchInstance.t) : BeamSearchOutput :=
  let completed :=
    BeamSearchInstance.completed instance
    ++ BeamSearchInstance.beams instance in
  let sorted_completed := sorted Qltb sort_beams_key true completed in
  let best_beams := slice_to sorted_completed beam_width in
  {| sequences :=
       map (fun beam =>
              BeamSearchSequence.set_text
                (Some (decode tokenizer (BeamSearchSequence.tokens beam)))
                beam)
           best_beams |}.

(** [LLM.beam_search].  The progress bar that [use_tqdm] asks for wraps
    [range(max_tokens)] without changing what it yields. *)
Definition beam_search {World} (env : Env World)
    (prompts : list PromptDict.t) (params : BeamSearchParams.t)
    (lora_request : LoraArg) (use_tqdm : bool)
    : M World (list BeamSearchOutput) :=
  let beam_width := BeamSearchParams.beam_width params in
  let max_tokens := BeamSearchParams.max_tokens params in
  let temperature := BeamSearchParams.temperature params in
  let ignore_eos := BeamSearchParams.ignore_eos params in
  let length_penalty := BeamSearchParams.length_penalty params in
  let! lora_requests :=
    lift (_get_beam_search_lora_requests lora_request prompts) in
  let tokenizer := get_tokenizer env in
  let sort_beams_key :=
    create_sort_beams_key_function env (eos_token_id tokenizer)
      length_penalty in
  let! beam_search_params :=
    lift (new_SamplingParams env (2 * beam_width) 1 temperature) in
  let! instances :=
    lift (map_result (make_instance tokenizer)
            (combine lora_requests prompts)) in
  let token_iter := range max_tokens in
  let! instances :=
    token_loop env beam_width (eos_token_id tokenizer) ignore_eos
      sort_beams_key beam_search_params token_iter instances in
  ret (map (best_of_instance beam_width tokenizer sort_beams_key) instances).

(** ** Submission pipeline and drain loop *)

(** The stepping engine, on a state [E] of its own.  [add_request]
    receives the request, whose [params] is a reference, together with
    the object store it can read the parameter object in. *)
Record Engine (E : Type) : Type := {
  add_request : gmap ref Params -> Request.t -> M E unit;
  has_unfinished_requests : E -> bool;
  get_num_unfinished_requests : E -> nat;
  step : M E (list RequestOutput.t) }.
Arguments add_request {E} _ _ _ _.
Arguments has_unfinished_requests {E} _ _.
Arguments get_num_unfinished_requests {E} _ _.
Arguments step {E} _ _.

(** Modelled from the spec: the class [Counter] of [vllm/utils], the
    Request Counter.  It is a monotonically increasing integer generator
    that starts at zero for a fresh process; [next] returns the current
    value and moves on by one, so that identifiers are contiguous and
    never reused. *)
Module Counter.
Definition t : Type := nat.
Definition fresh : t := 0%nat.
Definition next (c : t) : nat * t := (c, S c).
End Counter.

(** The state that the pipeline works on: the two attributes of the [LLM]
    object it uses, and the objects it shares with its caller. *)
Record World (E : Type) : Type := {
  request_counter : Counter.t;
  llm_engine : E;
  heap : gmap ref Params }.
Arguments request_counter {E} _.
Arguments llm_engine {E} _.
Arguments heap {E} _.
Arguments Build_World {E} _ _ _.

Definition set_request_counter {E} (c : Counter.t) (w : World E) : World E :=
  Build_World c (llm_engine w) (heap w).
Definition set_llm_engine {E} (e : E) (w : World E) : World E :=
  Build_World (request_counter w) e (heap w).
Definition set_heap {E} (h : gmap ref Params) (w : World E) : World E :=
  Build_World (request_counter w) (llm_engine w) h.

(** A call on [self.llm_engine]. *)
Definition on_engine {E A} (c : M E A) : M (World E) A :=
  fun w => let (e', r) := c (llm_engine w) in (set_llm_engine e' w, r).

(** The argument [prompts]: one prompt ([str] or [dict]) or a sequence. *)
Inductive PromptsArg : Type :=
| OnePrompt (p : PromptType)
| PromptSeq (ps : list PromptType).

(** The argument [params]: one parameter object or a sequence of them. *)
Inductive ParamsArg : Type :=
| OneParams (r : ref)
| ParamsSeq (rs : list ref).

Definition params_is_sequence (a : ParamsArg) : bool :=
  match a with ParamsSeq _ => true | OneParams _ => false end.
Definition params_len (a : ParamsArg) : nat :=
  match a with ParamsSeq rs => length rs | OneParams _ => 0%nat end.

(** [LLM._add_guided_params], on the contents of the object [params]: the
    result is what the object holds afterwards.  [guided_post_init] is the
    validation that constructing a [GuidedDecodingParams] runs
    ([vllm/sampling_params.py]). *)
Definition _add_guided_params
    (guided_post_init : GuidedDecodingParams.t -> bool)
    (params : SamplingParams.t)
    (guided_options : option GuidedDecodingRequest.t)
    : result SamplingParams.t :=
  match guided_options with
  | None => Ok params
  | Some g =>
      match SamplingParams.guided_decoding params with
      | Some _ => Raise ValueError
      | None =>
          let gd :=
            {| GuidedDecodingParams.json :=
                 GuidedDecodingRequest.guided_json g;
               GuidedDecodingParams.regex :=
                 GuidedDecodingRequest.guided_regex g;
               GuidedDecodingParams.choice :=
                 GuidedDecodingRequest.guided_choice g;
               GuidedDecodingParams.grammar :=
                 GuidedDecodingRequest.guided_grammar g;
               GuidedDecodingParams.json_object :=
                 GuidedDecodingRequest.guided_json_object g;
               GuidedDecodingParams.backend :=
                 GuidedDecodingRequest.guided_decoding_backend g;
               GuidedDecodingParams.whitespace_pattern :=
                 GuidedDecodingRequest.guided_whitespace_pattern g;
               GuidedDecodingParams.structural_tag :=
                 GuidedDecodingRequest.structural_tag g |} in
          if guided_post_init gd
          then Ok (SamplingParams.set_guided_decoding (Some gd) params)
          else Raise ValueError
      end
  end.

(** [LLM._add_request] *)
Definition _add_request {E} (engine : Engine E)
    (prompt : PromptType) (params : ref)
    (tokenization_kwargs : option TokenizationKwargs)
    (lora_request : option LoRARequest)
    (prompt_adapter_request : option PromptAdapterRequest)
    (steer_vector_request : option SteerVectorRequest)
    (priority : Z) : M (World E) unit :=
  fun w =>
    let (n, counter') := Counter.next (request_counter w) in
    let request_id := str (Z.of_nat n) in
    on_engine
      (add_request engine (heap w)
         {| Request.request_id := request_id;
            Request.prompt := prompt;
            Request.params := params;
            Request.lora_request := lora_request;
            Request.tokenization_kwargs := tokenization_kwargs;
            Request.prompt_adapter_request := prompt_adapter_request;
            Request.steer_vector_request := steer_vector_request;
            Request.priority := priority |})
      (set_request_counter counter' w).

(** The body of [for sp in params if isinstance(params, Sequence) else
    (params, )]: a [SamplingParams] object is updated in place, any
    other object is left alone.  (A reference always designates an
    object in Python; the model leaves the store alone at one that does
    not.) *)
Definition finalize_sampling_params {E}
    (guided_post_init : GuidedDecodingParams.t -> bool)
    (guided_options : option GuidedDecodingRequest.t)
    (r : ref) : M (World E) unit :=
  fun w =>
    match heap w !! r with
    | Some (Sampling sp) =>
        match _add_guided_params guided_post_init sp guided_options with
        | Ok sp' =>
            (* We only care about the final output *)
            (set_heap
               (<[r := Sampling (SamplingParams.set_output_kind FINAL_ONLY sp')]>
                  (heap w)) w,
             Ok tt)
        | Raise e => (w, Raise e)
        | OutOfFuel => (w, OutOfFuel)
        end
    | _ => (w, Ok tt)
    end.

(** The body of [for i, prompt in enumerate(it)]: the arguments of the
    call are evaluated in the order in which they are written, then the
    request is added. *)
Definition add_request_at {E} (engine : Engine E)
    (params : ParamsArg) (lora_request : LoraArg)
    (prompt_adapter_request : option PromptAdapterRequest)
    (steer_vector_request : option SteerVectorRequest)
    (tokenization_kwargs : option TokenizationKwargs)
    (priority : option (list Z))
    (ip : nat * PromptType) : M (World E) unit :=
  let (i, prompt) := ip in
  let! params_i :=
    lift (match params with
          | ParamsSeq rs => index rs i
          | OneParams r => Ok r
          end) in
  let! lora_i :=
    lift (match lora_request with
          | LoraSeq ls => index ls i
          | LoraOne l => Ok (Some l)
          | LoraNone => Ok None
          end) in
  let! priority_i :=
    lift (match priority with
          | Some (p :: ps) => index (p :: ps) i
          | Some [] | None => Ok 0
          end) in
  _add_request engine prompt params_i tokenization_kwargs lora_i
    prompt_adapter_request steer_vector_request priority_i.

(** [LLM._validate_and_add_requests].  The deprecation warning and the
    progress bar that wraps the prompts do not change what is iterated. *)
Definition _validate_and_add_requests {E} (engine : Engine E)
    (guided_post_init : GuidedDecodingParams.t -> bool)
    (prompts : PromptsArg) (params : ParamsArg) (use_tqdm : bool)
    (lora_request : LoraArg)
    (prompt_adapter_request : option PromptAdapterRequest)
    (steer_vector_request : option SteerVectorRequest)
    (tokenization_kwargs : option TokenizationKwargs)
    (guided_options : option GuidedDecodingRequest.t)
    (priority : option (list Z)) : M (World E) unit :=
  let prompts :=
    match prompts with
    | OnePrompt p => [p]        (* Convert a single prompt to a list. *)
    | PromptSeq ps => ps
    end in
  let num_requests := length prompts in
  if params_is_sequence params && negb (params_len params =? num_requests)%nat
  then raise ValueError
  else if lora_is_sequence lora_request
          && negb (lora_len lora_request =? num_requests)%nat
  then raise ValueError
  else
    let! _ :=
      for_each
        (match params with ParamsSeq rs => rs | OneParams r => [r] end)
        (finalize_sampling_params guided_post_init guided_options) in
    (* Add requests to the engine. *)
    for_each (enumerate prompts)
      (add_request_at engine params lora_request prompt_adapter_request
         steer_vector_request tokenization_kwargs priority).

(** [for output in step_outputs] of the drain loop: finished outputs are
    appended to [outputs].  With a progress bar, a generation output
    must carry its prompt tokens ([assert output.prompt_token_ids is not
    None]); the throughput that the bar displays depends on the elapsed
    time and is not modelled. *)
Fixpoint collect (use_tqdm : bool) (step_outputs : list RequestOutput.t)
    (outputs : list RequestOutput.t) : result (list RequestOutput.t) :=
  match step_outputs with
  | [] => Ok outputs
  | output :: step_outputs' =>
      if RequestOutput.finished output then
        let outputs' := outputs ++ [output] in
        if use_tqdm && negb (RequestOutput.pooling output)
           && negb (bool_decide (is_Some (RequestOutput.prompt_token_ids output)))
        then Raise AssertionError
        else collect use_tqdm step_outputs' outputs'
      else collect use_tqdm step_outputs' outputs
  end.

(** [while self.llm_engine.has_unfinished_requests()]: at most [fuel]
    ticks of the engine. *)
Fixpoint drain {E} (engine : Engine E) (use_tqdm : bool) (fuel : nat)
    (outputs : list RequestOutput.t) : M E (list RequestOutput.t) :=
  fun e =>
    if has_unfinished_requests engine e then
      match fuel with
      | O => (e, OutOfFuel)
      | S fuel' =>
          (let! step_outputs := step engine in
           let! outputs' := lift (collect use_tqdm step_outputs outputs) in
           drain engine use_tqdm fuel' outputs') e
      end
    else (e, Ok outputs).

(** [LLM._run_engine]: drain the engine, then sort the outputs by request
    ID. *)
Definition _run_engine {E} (engine : Engine E) (fuel : nat) (use_tqdm : bool)
    : M (World E) (list RequestOutput.t) :=
  let! outputs := on_engine (drain engine use_tqdm fuel []) in
  lift (sorted_raising Z.ltb
          (fun x => int (RequestOutput.request_id x)) outputs).

End LLM.

(** ** Observing the collaborators

    What the code sends to a collaborator is observed by wrapping the
    collaborator: the wrapper keeps a log next to the state and otherwise
    behaves as the collaborator it wraps. *)

Module Observe.

Import Py.

(** One call of [generate]. *)
Record generate_call : Type := {
  call_prompts : list PromptDict.t;
  call_params : SamplingParams.t;
  call_use_tqdm : bool;
  call_lora : list (option LoRARequest) }.

(** [env] with a log of the calls of [generate], oldest first. *)
Definition logging {World} (env : Env World)
    : Env (list generate_call * World) :=
  {| verify_args := verify_args env;
     create_sort_beams_key_function := create_sort_beams_key_function env;
     get_tokenizer := get_tokenizer env;
     generate := fun prompts sp use_tqdm loras lw =>
       let (log, w) := (lw : list generate_call * World) in
       let (w', r) := generate env prompts sp use_tqdm loras w in
       ((log ++ [ {| call_prompts := prompts; call_params := sp;
                     call_use_tqdm := use_tqdm; call_lora := loras |} ],
         w'), r) |}.

(** [engine] with a log of the calls of [add_request], oldest first: the
    request and the object store at the time of the call. *)
Definition recording {E} (engine : LLM.Engine E)
    : LLM.Engine (list (gmap ref Params * Request.t) * E) :=
  {| LLM.add_request := fun h r le =>
       let (log, e) := (le : list (gmap ref Params * Request.t) * E) in
       let (e', res) := LLM.add_request engine h r e in
       ((log ++ [(h, r)], e'), res);
     LLM.has_unfinished_requests := fun le =>
       LLM.has_unfinished_requests engine (snd le);
     LLM.get_num_unfinished_requests := fun le =>
       LLM.get_num_unfinished_requests engine (snd le);
     LLM.step := fun le =>
       let (log, e) := (le : list (gmap ref Params * Request.t) * E) in
       let (e', res) := LLM.step engine e in
       ((log, e'), res) |}.

(** The world of [engine] seen from the world of [recording engine]. *)
Definition forget {E}
    (w : LLM.World (list (gmap ref Params * Request.t) * E)) : LLM.World E :=
  LLM.Build_World (LLM.request_counter w) (snd (LLM.llm_engine w))
    (LLM.heap w).

End Observe.

(** ** What the code expects of the stepping engine

    The engine keeps the requests it has not finished ([unfinished]) and
    finishes every one of them in a bounded number of ticks ([ticks]).
    - [has_unfinished_requests] tells whether any is left;
    - an accepted [add_request] adds the request to them;
    - a tick with work left does not fail; the outputs it marks finished
      are those of requests that leave the unfinished ones, one output
      per request, and a finished generation output carries its prompt
      tokens;
    - a tick with work left brings the end nearer. *)
Record EngineContract {E} (engine : LLM.Engine E)
    (unfinished : E -> list Request.t) (ticks : E -> nat) : Prop := {
  has_unfinished_spec : forall e,
    LLM.has_unfinished_requests engine e = true <-> unfinished e <> [];
  add_request_spec : forall h r e e',
    LLM.add_request engine h r e = (e', Py.Ok tt) ->
    Permutation (unfinished e') (r :: unfinished e);
  step_spec : forall e,
    LLM.has_unfinished_requests engine e = true ->
    exists e' outs,
      LLM.step engine e = (e', Py.Ok outs)
      /\ Permutation
           (map RequestOutput.request_id
              (filter RequestOutput.finished outs)
            ++ map Request.request_id (unfinished e'))
           (map Request.request_id (unfinished e))
      /\ Forall (fun o =>
                   RequestOutput.finished o = true ->
                   RequestOutput.pooling o = false ->
                   is_Some (RequestOutput.prompt_token_ids o)) outs
      /\ (ticks e' < ticks e)%nat }.

(** ** Reference collaborators

    A small engine and a small language model to run the code on. *)

Module Reference.

Import Py.

(** The output that finishes (or not) the request [r]. *)
Definition output_of (finished : bool) (r : Request.t) : RequestOutput.t :=
  {| RequestOutput.request_id := Request.request_id r;
     RequestOutput.finished := finished;
     RequestOutput.pooling := false;
     RequestOutput.prompt_token_ids :=
       Some match Request.prompt r with
            | PDict d =>
                match PromptDict.prompt_token_ids d with
                | Some ids => ids
                | None => []
                end
            | PStr _ => []
            end;
     RequestOutput.outputs := [] |}.

(** A last-in first-out engine: every tick finishes the request that was
    submitted last and reports the others as still running, so that a
    batch finishes in the reverse of its submission order. *)
Definition lifo : LLM.Engine (list Request.t) :=
  {| LLM.add_request := fun _ r e => (r :: e, Ok tt);
     LLM.has_unfinished_requests := fun e =>
       match e with [] => false | _ :: _ => true end;
     LLM.get_num_unfinished_requests := fun e => length e;
     LLM.step := fun e =>
       match e with
       | [] => ([], Ok [])
       | r :: e' => (e', Ok (map (output_of false) e' ++ [output_of true r]))
       end |}.

Definition accept_guided (g : GuidedDecodingParams.t) : bool := true.

(** The validation of [SamplingParams] as far as beam search meets it: a
    negative number of log-probabilities is rejected. *)
Definition nonnegative_logprobs (sp : SamplingParams.t) : bool :=
  match SamplingParams.logprobs sp with
  | Some n => 0 <=? n
  | None => true
  end.

(** The score at length penalty one: the cumulative log-probability
    divided by the length of the sequence, its end-of-sequence token
    not counted. *)
Definition score (eos : token) (length_penalty : Q)
    (x : BeamSearchSequence.t) : Q :=
  let tokens := BeamSearchSequence.tokens x in
  let seq_len :=
    match rev tokens with
    | t :: _ => if t =? eos then Z.of_nat (length tokens) - 1
                else Z.of_nat (length tokens)
    | [] => 0
    end in
  (BeamSearchSequence.cum_logprob x / inject_Z seq_len)%Q.

Definition tokenizer : Tokenizer :=
  {| eos_token_id := 2;
     encode := fun s => map (fun c => Z.of_nat (nat_of_ascii c))
                          (list_ascii_of_string s);
     decode := fun ts =>
       string_of_list_ascii
         (map (fun t => ascii_of_nat (Z.to_nat t)) ts) |}.

Definition lp (q : Q) (r : Z) : Logprob := {| logprob := q; rank := Some r |}.

(** Two language models.  After [tokens], the first one proposes fresh
    tokens only; the second one proposes the end of sequence in second
    place. *)
Definition lm_plain (tokens : list token) : LogprobDict :=
  let n := Z.of_nat (length tokens) in
  [ (100 + n, lp (-1 # 2) 1); (200 + n, lp (-1 # 1) 2);
    (300 + n, lp (-3 # 2) 3); (400 + n, lp (-2 # 1) 4) ].
Definition lm_eos (tokens : list token) : LogprobDict :=
  let n := Z.of_nat (length tokens) in
  [ (100 + n, lp (-1 # 2) 1); (2, lp (-1 # 1) 2);
    (300 + n, lp (-3 # 2) 3); (400 + n, lp (-2 # 1) 4) ].

(** A [generate] that answers every prompt at once with the proposals of
    the language model, as many as [logprobs] asks for. *)
Definition generate_with (lm : list token -> LogprobDict)
    (prompts : list PromptDict.t) (sp : SamplingParams.t) (use_tqdm : bool)
    (loras : list (option LoRARequest)) : M unit (list RequestOutput.t) :=
  ret (map (fun p =>
              let ids := match PromptDict.prompt_token_ids p with
                         | Some ids => ids
                         | None => []
                         end in
              let k := match SamplingParams.logprobs sp with
                       | Some k => Z.to_nat k
                       | None => 0%nat
                       end in
              let d := firstn k (lm ids) in
              {| RequestOutput.request_id := "0";
                 RequestOutput.finished := true;
                 RequestOutput.pooling := false;
                 RequestOutput.prompt_token_ids := Some ids;
                 RequestOutput.outputs :=
                   [ {| CompletionOutput.token_ids := map fst (firstn 1 d);
                        CompletionOutput.logprobs := Some [d] |} ] |})
           prompts).

Definition env (lm : list token -> LogprobDict) : Env unit :=
  {| verify_args := nonnegative_logprobs;
     create_sort_beams_key_function := score;
     get_tokenizer := tokenizer;
     generate := generate_with lm |}.

Definition tokens_prompt (ids : list token) : PromptDict.t :=
  {| PromptDict.prompt := None;
     PromptDict.prompt_token_ids := Some ids;
     PromptDict.multi_modal_data := None;
     PromptDict.mm_processor_kwargs := None |}.

Definition beam_params (beam_width max_tokens : Z) : BeamSearchParams.t :=
  {| BeamSearchParams.beam_width := beam_width;
     BeamSearchParams.max_tokens := max_tokens;
     BeamSearchParams.ignore_eos := false;
     BeamSearchParams.temperature := 0;
     BeamSearchParams.length_penalty := 1 |}.

Definition sampling_params : SamplingParams.t :=
  {| SamplingParams.logprobs := None;
     SamplingParams.max_tokens := Some 16;
     SamplingParams.temperature := 1;
     SamplingParams.truncate_prompt_tokens := None;
     SamplingParams.guided_decoding := None;
     SamplingParams.output_kind := CUMULATIVE;
     SamplingParams.other_fields := [("n"%string, 1)] |}.

(** A fresh process: the counter at zero, an idle engine, and one
    [SamplingParams] object of the caller at reference 0. *)
Definition world : LLM.World (list Request.t) :=
  LLM.Build_World LLM.Counter.fresh [] {[ 0%nat := Sampling sampling_params ]}.

Definition three_prompts : list PromptType :=
  [ PDict (tokens_prompt [11]); PDict (tokens_prompt [12; 13]);
    PDict (tokens_prompt [14]) ].


(** A beam search of width two on one prompt, step by step. *)
Definition key2 : BeamSearchSequence.t -> Q := score 2 1.

Definition bsp2 : SamplingParams.t :=
  {| SamplingParams.logprobs := Some 4;
     SamplingParams.max_tokens := Some 1;
     SamplingParams.temperature := 0;
     SamplingParams.truncate_prompt_tokens := None;
     SamplingParams.guided_decoding := None;
     SamplingParams.output_kind := CUMULATIVE;
     SamplingParams.other_fields := [] |}.

Definition instances0 : list BeamSearchInstance.t :=
  [BeamSearchInstance.init [5; 6] None None None None].

(** The instances after one step and after two steps over [lm_eos]. *)
Definition instances_after (lm : list token -> LogprobDict)
    (instances : list BeamSearchInstance.t) : list BeamSearchInstance.t :=
  match LLM.token_step (env lm) 2 2 false key2 bsp2 instances tt with
  | (_, Ok (Some instances')) => instances'
  | _ => []
  end.

Definition instances1 : list BeamSearchInstance.t :=
  Eval vm_compute in instances_after lm_eos instances0.
Definition instances2 : list BeamSearchInstance.t :=
  Eval vm_compute in instances_after lm_eos instances1.

(** What [generate] answers at the first step. *)
Definition output1 : list RequestOutput.t :=
  Eval vm_compute in
    match generate_with lm_eos
            (map LLM.create_tokens_prompt_from_beam
               (LLM.flatten_beams instances0))
            bsp2 false
            (map BeamSearchSequence.lora_request
               (LLM.flatten_beams instances0)) tt with
    | (_, Ok output) => output
    | _ => []
    end.


(** The instances at the end of a loop of three steps over [lm_plain]. *)
Definition instances_end : list BeamSearchInstance.t :=
  Eval vm_compute in
    match LLM.token_loop (env lm_plain) 2 2 false key2 bsp2 (range 3)
            instances0 tt with
    | (_, Ok instances) => instances
    | _ => []
    end.

(** The token sequences of the outputs of a beam search. *)
Definition tokens_of_outputs (r : unit * result (list BeamSearchOutput))
    : list (list (list token)) :=
  match snd r with
  | Ok outputs =>
      map (fun o => map BeamSearchSequence.tokens (sequences o)) outputs
  | _ => []
  end.


(** A beam search of three steps over [lm_plain], observed at
    [generate]. *)
Definition observed_run
    : (list Observe.generate_call * unit) * result (list BeamSearchOutput) :=
  Eval vm_compute in
    LLM.beam_search (Observe.logging (env lm_plain))
      [tokens_prompt [5; 6]] (beam_params 2 3) LoraNone false ([], tt).


(** The world after the submission of [three_prompts] with the one
    parameter object of the caller. *)
Definition submit_three : M (LLM.World (list Request.t)) unit :=
  LLM._validate_and_add_requests lifo accept_guided
    (LLM.PromptSeq three_prompts) (LLM.OneParams 0%nat) true LoraNone
    None None None None None.

Definition world1 : LLM.World (list Request.t) :=
  Eval vm_compute in fst (submit_three world).


(** The same submission with the engine under observation. *)
Definition observed_world
    : LLM.World (list (gmap ref Params * Request.t) * list Request.t) :=
  LLM.Build_World LLM.Counter.fresh ([], [])
    {[ 0%nat := Sampling sampling_params ]}.

Definition observed_submit_three
    : M (LLM.World (list (gmap ref Params * Request.t) * list Request.t))
        unit :=
  LLM._validate_and_add_requests (Observe.recording lifo) accept_guided
    (LLM.PromptSeq three_prompts) (LLM.OneParams 0%nat) true LoraNone
    None None None None None.

Definition observed_world1
    : LLM.World (list (gmap ref Params * Request.t) * list Request.t) :=
  Eval vm_compute in fst (observed_submit_three observed_world).

End Reference.

(** ** Vocabulary of the properties *)

Module Spec.

Import Py.

(** An order given by "must come strictly before". *)
Definition strict_weak {A} (before : A -> A -> bool) : Prop :=
  (forall a b, before a b = true -> before b a = false)
  /\ (forall a b c,
        before b a = false -> before c b = false -> before c a = false).

(** The sequence ends with the end-of-sequence token. *)
Definition ends_with (eos : token) (b : BeamSearchSequence.t) : bool :=
  match rev (BeamSearchSequence.tokens b) with
  | t :: _ => t =? eos
  | [] => false
  end.

(** The candidate is completed on creation: it ends the sequence and the
    end of sequence is not ignored. *)
Definition completes (eos : token) (ignore_eos : bool)
    (b : BeamSearchSequence.t) : bool :=
  ends_with eos b && negb ignore_eos.

(** [child] extends [parent] by one token proposed in [logprobs]. *)
Definition expands (parent : BeamSearchSequence.t) (logprobs : LogprobDict)
    (child : BeamSearchSequence.t) : Prop :=
  exists token_id logprob_obj,
    In (token_id, logprob_obj) logprobs
    /\ child = LLM.new_beam parent logprobs token_id logprob_obj.

(** [logprobs] is the distribution that some result of [output] gives
    for its one new token. *)
Definition offered (output : list RequestOutput.t) (logprobs : LogprobDict)
    : Prop :=
  exists result first steps,
    In result output
    /\ nth_error (RequestOutput.outputs result) 0 = Some first
    /\ CompletionOutput.logprobs first = Some steps
    /\ nth_error steps 0 = Some logprobs.

(** Every log-probability that [output] gives is at most zero. *)
Definition nonpositive (output : list RequestOutput.t) : bool :=
  forallb
    (fun result =>
       forallb
         (fun completion =>
            match CompletionOutput.logprobs completion with
            | Some steps =>
                forallb
                  (forallb (fun item : token * Logprob =>
                              Qle_bool (logprob (snd item)) 0))
                  steps
            | None => true
            end)
         (RequestOutput.outputs result))
    output.

(** [b] comes from [a] by a chain of expansions, each by a token of
    log-probability at most zero. *)
Inductive descends (a : BeamSearchSequence.t) : BeamSearchSequence.t -> Prop :=
| descends_refl : descends a a
| descends_step b logprobs token_id logprob_obj :
    descends a b ->
    (logprob logprob_obj <= 0)%Q ->
    descends a (LLM.new_beam b logprobs token_id logprob_obj).

(** The active beams of every instance satisfy [P]. *)
Definition active_beams (P : BeamSearchInstance.t -> BeamSearchSequence.t -> Prop)
    (instances : list BeamSearchInstance.t) : Prop :=
  Forall (fun instance =>
            Forall (P instance) (BeamSearchInstance.beams instance))
    instances.

(** What one step makes of one instance, given the [output] of the
    batch: [cands] are the candidates expanded from its active beams. *)
Definition instance_step (beam_width : Z) (eos : token) (ignore_eos : bool)
    (sort_beams_key : BeamSearchSequence.t -> Q)
    (output : list RequestOutput.t)
    (instance instance' : BeamSearchInstance.t)
    (cands : list BeamSearchSequence.t) : Prop :=
  Forall (fun c => exists parent logprobs,
            In parent (BeamSearchInstance.beams instance)
            /\ offered output logprobs
            /\ expands parent logprobs c) cands
  /\ BeamSearchInstance.prompt_tokens instance'
     = BeamSearchInstance.prompt_tokens instance
  /\ BeamSearchInstance.lora_request instance'
     = BeamSearchInstance.lora_request instance
  /\ BeamSearchInstance.completed instance'
     = BeamSearchInstance.completed instance
       ++ filter (completes eos ignore_eos) cands
  /\ BeamSearchInstance.beams instance'
     = slice_to
         (sorted Qltb sort_beams_key true
            (filter (fun c => negb (completes eos ignore_eos c)) cands))
         beam_width.

(** [k] steps of the loop that did not break, from one state of the
    world and of the instances to another. *)
Inductive steps {World} (env : Env World) (beam_width : Z) (eos : token)
    (ignore_eos : bool) (sort_beams_key : BeamSearchSequence.t -> Q)
    (beam_search_params : SamplingParams.t)
    : nat -> World -> list BeamSearchInstance.t ->
      World -> list BeamSearchInstance.t -> Prop :=
| steps_O w instances :
    steps env beam_width eos ignore_eos sort_beams_key beam_search_params
      0 w instances w instances
| steps_S k w instances w1 instances1 w2 instances2 :
    LLM.token_step env beam_width eos ignore_eos sort_beams_key
      beam_search_params instances w = (w1, Ok (Some instances1)) ->
    steps env beam_width eos ignore_eos sort_beams_key beam_search_params
      k w1 instances1 w2 instances2 ->
    steps env beam_width eos ignore_eos sort_beams_key beam_search_params
      (S k) w instances w2 instances2.


(** What the submission pipeline does to a parameter object. *)
Definition finalize_object (o : Params) : Params :=
  match o with
  | Sampling sp => Sampling (SamplingParams.set_output_kind FINAL_ONLY sp)
  | Pooling pp => Pooling pp
  end.

(** The references of a [params] argument and the prompts of a [prompts]
    argument, as lists. *)
Definition refs_of (params : LLM.ParamsArg) : list ref :=
  match params with
  | LLM.ParamsSeq rs => rs
  | LLM.OneParams r => [r]
  end.
Definition prompts_of (prompts : LLM.PromptsArg) : list PromptType :=
  match prompts with
  | LLM.OnePrompt p => [p]
  | LLM.PromptSeq ps => ps
  end.

(** The identifiers that a counter at [c] issues to [n] requests. *)
Definition identifiers (c : LLM.Counter.t) (n : nat) : list string :=
  map (fun i => str (Z.of_nat i)) (seq c n).

(** The length checks of [_validate_and_add_requests] pass. *)
Definition shapes_agree (prompts : LLM.PromptsArg) (params : LLM.ParamsArg)
    (lora_request : LoraArg) : Prop :=
  (LLM.params_is_sequence params = true ->
   LLM.params_len params = length (prompts_of prompts))
  /\ (lora_is_sequence lora_request = true ->
      lora_len lora_request = length (prompts_of prompts)).

(** The candidates that [output] proposes for the beam [parent] that
    stands at position [i] of the batch: one for every token of the
    distribution that the [i]-th result gives for its one new token, in
    the order of the distribution; none when the result carries no
    log-probabilities. *)
Definition proposals (output : list RequestOutput.t) (i : nat)
    (parent : BeamSearchSequence.t) : list BeamSearchSequence.t :=
  match nth_error output i with
  | Some result =>
      match RequestOutput.outputs result with
      | first :: _ =>
          match CompletionOutput.logprobs first with
          | Some (logprobs :: _) =>
              map (fun item : token * Logprob =>
                     LLM.new_beam parent logprobs (fst item) (snd item))
                logprobs
          | _ => []
          end
      | [] => []
      end
  | None => []
  end.

(** All the candidates of an instance whose active beams [beams] stand
    in the batch from position [offset] on. *)
Definition candidates (output : list RequestOutput.t) (offset : nat)
    (beams : list BeamSearchSequence.t) : list BeamSearchSequence.t :=
  concat (map (fun ib : nat * BeamSearchSequence.t =>
                 proposals output (offset + fst ib) (snd ib))
            (enumerate beams)).

(** [out] is [beam] with its text set to the decoding of its tokens. *)
Definition decoded (tokenizer : Tokenizer) (beam out : BeamSearchSequence.t)
    : Prop :=
  BeamSearchSequence.tokens out = BeamSearchSequence.tokens beam
  /\ BeamSearchSequence.logprobs out = BeamSearchSequence.logprobs beam
  /\ BeamSearchSequence.lora_request out
     = BeamSearchSequence.lora_request beam
  /\ BeamSearchSequence.cum_logprob out = BeamSearchSequence.cum_logprob beam
  /\ BeamSearchSequence.multi_modal_data out
     = BeamSearchSequence.multi_modal_data beam
  /\ BeamSearchSequence.mm_processor_kwargs out
     = BeamSearchSequence.mm_processor_kwargs beam
  /\ BeamSearchSequence.text out
     = Some (decode tokenizer (BeamSearchSequence.tokens out)).

(** The candidates at the positions of a loop over the batch, in the
    order of the positions. *)
Definition at_positions (all_beams : list BeamSearchSequence.t)
    (output : list RequestOutput.t) (positions : list nat)
    : list BeamSearchSequence.t :=
  concat (map (fun i => match nth_error all_beams i with
                        | Some parent => proposals output i parent
                        | None => []
                        end) positions).

(** The position ranges of the instances, one after the other from
    [a] on. *)
Fixpoint ranges_from (a : nat) (insts : list BeamSearchInstance.t)
    : list (nat * nat) :=
  match insts with
  | [] => []
  | inst :: insts' =>
      let b := (a + length (BeamSearchInstance.beams inst))%nat in
      (a, b) :: ranges_from b insts'
  end.

(** What a step makes of the instance whose beams stand from position
    [offset] on, given the [output] of the batch. *)
Definition stepped (beam_width : Z) (eos : token) (ignore_eos : bool)
    (key : BeamSearchSequence.t -> Q) (output : list RequestOutput.t)
    (offset : nat) (inst inst' : BeamSearchInstance.t) : Prop :=
  let cands := candidates output offset (BeamSearchInstance.beams inst) in
  BeamSearchInstance.prompt_tokens inst'
  = BeamSearchInstance.prompt_tokens inst
  /\ BeamSearchInstance.lora_request inst'
     = BeamSearchInstance.lora_request inst
  /\ BeamSearchInstance.completed inst'
     = BeamSearchInstance.completed inst
       ++ filter (completes eos ignore_eos) cands
  /\ BeamSearchInstance.beams inst'
     = slice_to
         (sorted Qltb key true
            (filter (fun c => negb (completes eos ignore_eos c)) cands))
         beam_width.

End Spec.

(** ** Vocabulary of further properties *)

Module Expect.

Import Py.

(** The request that [_validate_and_add_requests] makes of the prompt
    [ip] when the counter issues [n] for it. *)
Definition request_for (params : LLM.ParamsArg) (lora_request : LoraArg)
    (prompt_adapter_request : option PromptAdapterRequest)
    (steer_vector_request : option SteerVectorRequest)
    (tokenization_kwargs : option TokenizationKwargs)
    (priority : option (list Z))
    (n : nat) (ip : nat * PromptType) : result Request.t :=
  let (i, prompt) := ip in
  let? params_i :=
    match params with
    | LLM.ParamsSeq rs => index rs i
    | LLM.OneParams r => Ok r
    end in
  let? lora_i :=
    match lora_request with
    | LoraSeq ls => index ls i
    | LoraOne l => Ok (Some l)
    | LoraNone => Ok None
    end in
  let? priority_i :=
    match priority with
    | Some (p :: ps) => index (p :: ps) i
    | Some [] | None => Ok 0
    end in
  Ok {| Request.request_id := str (Z.of_nat n);
        Request.prompt := prompt;
        Request.params := params_i;
        Request.lora_request := lora_i;
        Request.tokenization_kwargs := tokenization_kwargs;
        Request.prompt_adapter_request := prompt_adapter_request;
        Request.steer_vector_request := steer_vector_request;
        Request.priority := priority_i |}.

(** The call of [generate] that a step makes for [instances]. *)
Definition call_of (bsp : SamplingParams.t)
    (instances : list BeamSearchInstance.t) : Observe.generate_call :=
  {| Observe.call_prompts :=
       map LLM.create_tokens_prompt_from_beam (LLM.flatten_beams instances);
     Observe.call_params := bsp;
     Observe.call_use_tqdm := false;
     Observe.call_lora :=
       map BeamSearchSequence.lora_request (LLM.flatten_beams instances) |}.

(** The sequence that stands for a prompt that was never extended. *)
Definition untouched (tokenizer : Tokenizer) (lora : option LoRARequest)
    (prompt : PromptDict.t) (ids : list token) : BeamSearchSequence.t :=
  {| BeamSearchSequence.tokens := ids;
     BeamSearchSequence.logprobs := [];
     BeamSearchSequence.lora_request := lora;
     BeamSearchSequence.cum_logprob := 0%Q;
     BeamSearchSequence.text := Some (decode tokenizer ids);
     BeamSearchSequence.multi_modal_data := PromptDict.multi_modal_data prompt;
     BeamSearchSequence.mm_processor_kwargs :=
       PromptDict.mm_processor_kwargs prompt |}.

(** The one adapter handle that a non-sequence argument stands for. *)
Definition handle_of (lora_request : LoraArg) : option LoRARequest :=
  match lora_request with
  | LoraOne l => Some l
  | _ => None
  end.

(** No completion of [output] carries log-probabilities. *)
Definition no_logprobs (output : list RequestOutput.t) : bool :=
  forallb
    (fun result =>
       forallb
         (fun completion =>
            match CompletionOutput.logprobs completion with
            | None => true
            | Some _ => false
            end)
         (RequestOutput.outputs result))
    output.

End Expect.

(** ** Further reference collaborators *)

Module Samples.

Import Py.

(** A [generate] whose results carry no log-probabilities, as when the
    sequences end on the model length. *)
Definition generate_aborted (prompts : list PromptDict.t)
    (sp : SamplingParams.t) (use_tqdm : bool)
    (loras : list (option LoRARequest)) : M unit (list RequestOutput.t) :=
  ret (map (fun p =>
              {| RequestOutput.request_id := "0";
                 RequestOutput.finished := true;
                 RequestOutput.pooling := false;
                 RequestOutput.prompt_token_ids :=
                   PromptDict.prompt_token_ids p;
                 RequestOutput.outputs :=
                   [ {| CompletionOutput.token_ids := [];
                        CompletionOutput.logprobs := None |} ] |})
           prompts).

Definition env_aborted : Env unit :=
  {| verify_args := Reference.nonnegative_logprobs;
     create_sort_beams_key_function := Reference.score;
     get_tokenizer := Reference.tokenizer;
     generate := generate_aborted |}.

Definition output_aborted : list RequestOutput.t :=
  Eval vm_compute in
    match generate_aborted
            (map LLM.create_tokens_prompt_from_beam
               (LLM.flatten_beams Reference.instances1))
            Reference.bsp2 false
            (map BeamSearchSequence.lora_request
               (LLM.flatten_beams Reference.instances1)) tt with
    | (_, Ok output) => output
    | _ => []
    end.

Definition instances_aborted : list BeamSearchInstance.t :=
  Eval vm_compute in
    match LLM.token_step env_aborted 2 2 false Reference.key2 Reference.bsp2
            Reference.instances1 tt with
    | (_, Ok (Some instances')) => instances'
    | _ => []
    end.


(** Guided options, and a parameter object that has guided decoding
    set already. *)
Definition guided_request : GuidedDecodingRequest.t :=
  {| GuidedDecodingRequest.guided_json := None;
     GuidedDecodingRequest.guided_regex := Some "[0-9]+"%string;
     GuidedDecodingRequest.guided_choice := None;
     GuidedDecodingRequest.guided_grammar := None;
     GuidedDecodingRequest.guided_decoding_backend := None;
     GuidedDecodingRequest.guided_whitespace_pattern := None;
     GuidedDecodingRequest.guided_json_object := None;
     GuidedDecodingRequest.structural_tag := None |}.

Definition guided_params : GuidedDecodingParams.t :=
  {| GuidedDecodingParams.json := None;
     GuidedDecodingParams.regex := Some "a*"%string;
     GuidedDecodingParams.choice := None;
     GuidedDecodingParams.grammar := None;
     GuidedDecodingParams.json_object := None;
     GuidedDecodingParams.backend := None;
     GuidedDecodingParams.whitespace_pattern := None;
     GuidedDecodingParams.structural_tag := None |}.

(** A world with two parameter objects of the caller: a plain one at
    reference 0, one with guided decoding at reference 1. *)
Definition world_two : LLM.World (list Request.t) :=
  LLM.Build_World LLM.Counter.fresh []
    (<[ 1%nat := Sampling (SamplingParams.set_guided_decoding
                             (Some guided_params) Reference.sampling_params) ]>
       {[ 0%nat := Sampling Reference.sampling_params ]}).


(** An engine whose finished outputs do not carry the prompt tokens. *)
Definition bare : LLM.Engine (list Request.t) :=
  {| LLM.add_request := fun _ r e => (r :: e, Ok tt);
     LLM.has_unfinished_requests := fun e =>
       match e with [] => false | _ :: _ => true end;
     LLM.get_num_unfinished_requests := fun e => length e;
     LLM.step := fun e =>
       match e with
       | [] => ([], Ok [])
       | r :: e' =>
           (e', Ok [ {| RequestOutput.request_id := Request.request_id r;
                        RequestOutput.finished := true;
                        RequestOutput.pooling := false;
                        RequestOutput.prompt_token_ids := None;
                        RequestOutput.outputs := [] |} ])
       end |}.

(** The world and the outputs after [Reference.world1] has been run. *)
Definition world2 : LLM.World (list Request.t) :=
  Eval vm_compute in
    fst (LLM._run_engine Reference.lifo 3 true Reference.world1).

Definition outputs2 : list RequestOutput.t :=
  Eval vm_compute in
    match snd (LLM._run_engine Reference.lifo 3 true Reference.world1) with
    | Ok outputs => outputs
    | _ => []
    end.

(** A second submission, of two prompts with their priorities, after the
    one of [Reference.observed_world1]. *)
Definition observed_world2
    : LLM.World (list (gmap ref Params * Request.t) * list Request.t) :=
  Eval vm_compute in
    fst (LLM._validate_and_add_requests (Observe.recording Reference.lifo)
           Reference.accept_guided
           (LLM.PromptSeq (firstn 2 Reference.three_prompts))
           (LLM.OneParams 0%nat) false LoraNone None None None None
           (Some [7; 8]) Reference.observed_world1).

(** A beam search of width zero and one step over [lm_plain], observed
    at [generate], and the parameters that it passes on. *)
Definition bsp0 : SamplingParams.t :=
  {| SamplingParams.logprobs := Some 0;
     SamplingParams.max_tokens := Some 1;
     SamplingParams.temperature := 0;
     SamplingParams.truncate_prompt_tokens := None;
     SamplingParams.guided_decoding := None;
     SamplingParams.output_kind := CUMULATIVE;
     SamplingParams.other_fields := [] |}.

Definition observed_run_zero
    : (list Observe.generate_call * unit) * result (list BeamSearchOutput) :=
  Eval vm_compute in
    LLM.beam_search (Observe.logging (Reference.env Reference.lm_plain))
      [Reference.tokens_prompt [5; 6]] (Reference.beam_params 0 1) LoraNone
      false ([], tt).

(** The outputs of the beam search of three steps over [lm_plain]. *)
Definition outputs_end : list BeamSearchOutput :=
  Eval vm_compute in
    match LLM.beam_search (Reference.env Reference.lm_plain)
            [Reference.tokens_prompt [5; 6]] (Reference.beam_params 2 3)
            LoraNone false tt with
    | (_, Ok outputs) => outputs
    | _ => []
    end.

End Samples.

(** * Request logging ([vllm/entrypoints/logger.py]) *)

(** A tensor as far as the files at hand look at one: its shape, where it
    lives, its element type and its elements, which are idealised as
    exact rationals. *)
Module Tensor.
Record t : Type := {
  shape : list nat;
  device : string;
  dtype : string;
  data : list Q }.

(** [x.numel()] *)
Definition numel (x : t) : nat := fold_right Nat.mul 1%nat (shape x).

(** [torch.zeros(shape, device=device, dtype=dtype)] *)
Definition zeros (shape : list nat) (device dtype : string) : t :=
  {| shape := shape; device := device; dtype := dtype;
     data := repeat 0%Q (fold_right Nat.mul 1%nat shape) |}.

(** [x * c] for a floating-point tensor [x] and a number [c] *)
Definition scale (x : t) (c : Q) : t :=
  {| shape := shape x; device := device x; dtype := dtype x;
     data := map (fun v => (v * c)%Q) (data x) |}.
End Tensor.

Module RequestLogger.

Import Py.

(** [params] of [log_inputs] *)
Inductive AnyParams : Type :=
| OfSampling (sp : SamplingParams.t)
| OfPooling (pp : PoolingParams)
| OfBeamSearch (bp : BeamSearchParams.t).

(** One call of [logger.info]: the arguments that fill the format
    string, in its order. *)
Record info : Type := {
  request_id : string;
  prompt : option string;
  params : option AnyParams;
  prompt_token_ids : option (list token);
  prompt_embeds_shape : option (list nat);
  lora_request : option LoRARequest;
  prompt_adapter_request : option PromptAdapterRequest;
  steer_vector_request : option SteerVectorRequest }.

(** [s[:k]] on a string, a sequence of characters. *)
Definition str_slice_to (s : string) (k : Z) : string :=
  string_of_list_ascii (slice_to (list_ascii_of_string s) k).

(** [RequestLogger.log_inputs], for a logger with [self.max_log_len =
    max_log_len]; the state is what [logger.info] has been called with,
    oldest first. *)
Definition log_inputs (self_max_log_len : option Z)
    (request_id : string) (prompt : option string)
    (prompt_token_ids : option (list token))
    (prompt_embeds : option Tensor.t)
    (params : option AnyParams)
    (lora_request : option LoRARequest)
    (prompt_adapter_request : option PromptAdapterRequest)
    (steer_vector_request : option SteerVectorRequest)
    : M (list info) unit :=
  let max_log_len := self_max_log_len in
  let prompt :=
    match max_log_len, prompt with
    | Some m, Some p => Some (str_slice_to p m)
    | _, _ => prompt
    end in
  let prompt_token_ids :=
    match max_log_len, prompt_token_ids with
    | Some m, Some ids => Some (slice_to ids m)
    | _, _ => prompt_token_ids
    end in
  fun log =>
    (log ++ [ {| request_id := request_id;
                 prompt := prompt;
                 params := params;
                 prompt_token_ids := prompt_token_ids;
                 prompt_embeds_shape :=
                   match prompt_embeds with
                   | Some x => Some (Tensor.shape x)
                   | None => None
                   end;
                 lora_request := lora_request;
                 prompt_adapter_request := prompt_adapter_request;
                 steer_vector_request := steer_vector_request |} ],
     Ok tt).

End RequestLogger.

(** * Direct steering vectors ([vllm/steer_vectors/algorithms/direct.py]) *)

Module DirectAlgorithm.

Import Py.

(** A value that may be a tensor: [isinstance(v, torch.Tensor)] is a
    match on the constructor. *)
Inductive Value : Type :=
| IsTensor (x : Tensor.t)
| IsInt (n : Z)
| IsNone.

(** The attributes of a [DirectAlgorithm]. *)
Record t : Type := {
  layer_id : option Z;
  normalize : bool;
  steer_vectors : gmap Z Value;
  active_vector : option Tensor.t }.

Definition set_steer_vectors (d : gmap Z Value) (self : t) : t :=
  {| layer_id := layer_id self; normalize := normalize self;
     steer_vectors := d; active_vector := active_vector self |}.
Definition set_active_vector (a : option Tensor.t) (self : t) : t :=
  {| layer_id := layer_id self; normalize := normalize self;
     steer_vectors := steer_vectors self; active_vector := a |}.

(** [DirectAlgorithm.__init__] *)
Definition init (layer_id : option Z) (normalize : bool) : t :=
  {| layer_id := layer_id; normalize := normalize;
     steer_vectors := ∅; active_vector := None |}.

(** [DirectAlgorithm.set_steer_vector]: [payload] and [scale_factor] are
    [kwargs.get("payload")] and the entry of [kwargs] for
    ["scale_factor"], if any. *)
Definition set_steer_vector (index : Z) (payload : Value)
    (scale_factor : option Q) : M t unit :=
  fun self =>
    let scale_factor :=
      match scale_factor with Some c => c | None => 1%Q end in
    match payload with
    | IsTensor x =>
        (set_steer_vectors
           (<[index := IsTensor (Tensor.scale x scale_factor)]>
              (steer_vectors self)) self,
         Ok tt)
    | _ => (self, Raise ValueError)
    end.

(** [DirectAlgorithm.reset_steer_vector] *)
Definition reset_steer_vector (index : Z) : M t unit :=
  fun self =>
    match steer_vectors self !! index with
    | Some (IsTensor x) =>
        let shape := Tensor.shape x in
        let device := Tensor.device x in
        let dtype := Tensor.dtype x in
        (set_steer_vectors
           (<[index := IsTensor (Tensor.zeros shape device dtype)]>
              (steer_vectors self)) self,
         Ok tt)
    | Some _ =>
        (set_steer_vectors (<[index := IsNone]> (steer_vectors self)) self,
         Ok tt)
    | None => (self, Ok tt)
    end.

(** [DirectAlgorithm.set_active_tensor] *)
Definition set_active_tensor (index : option Z) : M t unit :=
  fun self =>
    match index with
    | Some i =>
        match steer_vectors self !! i with
        | Some (IsTensor x) => (set_active_vector (Some x) self, Ok tt)
        | Some _ => (set_active_vector None self, Ok tt)
        | None => (set_active_vector None self, Ok tt)
        end
    | None => (set_active_vector None self, Ok tt)
    end.

(** [DirectAlgorithm._get_params] *)
Definition _get_params (self : t) : option Tensor.t := active_vector self.

(** [DirectAlgorithm._is_valid] *)
Definition _is_valid (params : Value) : bool :=
  match params with
  | IsTensor x => (0 <? Tensor.numel x)%nat
  | _ => false
  end.

(** [self._is_valid(self._get_params())] *)
Definition active_is_valid (self : t) : bool :=
  _is_valid (match _get_params self with
             | Some x => IsTensor x
             | None => IsNone
             end).

End DirectAlgorithm.

(** * The switch of the legacy interface *)

Module Legacy.

Import Py.

(** [with LLM.deprecate_legacy_api(): body], on the class attribute
    [LLM.DEPRECATE_LEGACY] and the state of [body].  The context manager
    is a generator with a single [yield] and no [try]: an exception of
    [body] is raised again at the [yield] and what follows it is not
    run. *)
Definition deprecate_legacy_api {S A} (body : M (bool * S) A)
    : M (bool * S) A :=
  fun fs =>
    let (res_state, r) := body (true, snd fs) in
    match r with
    | Ok a => ((false, snd res_state), Ok a)
    | _ => (res_state, r)
    end.

End Legacy.

(** * Entry points of [LLM] *)

Module Entry.

Import Py.
Import LLM.

(** The fields of [self.llm_engine.model_config] that the entry points
    read; [get_diff_sampling_param] is the result of the method of that
    name. *)
Record ModelConfig : Type := {
  runner_type : string;
  supported_runner_types : list string;
  task : string;
  max_model_len : Z;
  get_diff_sampling_param : list (string * Z) }.

(** The legacy arguments: [prompts] is a string or a list of strings,
    [prompt_token_ids] a list of tokens or a list of such lists. *)
Inductive TextArg : Type :=
| OneText (s : string)
| TextList (l : list string).

Inductive TokensArg : Type :=
| OneTokens (ids : list token)
| TokensList (l : list (list token)).

(** [len(prompts)] and [len(prompt_token_ids)] *)
Definition text_len (a : TextArg) : nat :=
  match a with OneText s => String.length s | TextList l => length l end.
Definition tokens_len (a : TokensArg) : nat :=
  match a with OneTokens ids => length ids | TokensList l => length l end.

(** [guided_options_request]: nothing, a dictionary or a
    [GuidedDecodingRequest]. *)
Inductive GuidedArg : Type :=
| GuidedNone
| GuidedDict (d : list (string * string))
| GuidedRequest (g : GuidedDecodingRequest.t).

(** What the entry points take from modules that are not at hand.
    - [parse_text], [parse_tokens]: the contents of
      [parse_and_batch_prompt] ([vllm/inputs/parse.py]) on the two kinds
      of legacy argument.
    - [from_optional], [new_sampling_params]:
      [SamplingParams.from_optional] on the entries of a dictionary
      and [SamplingParams()].
    - [_validate_truncation_size] ([vllm/entrypoints/utils.py]): the
      tokenization options after the call, or the exception.
    - [validate_outputs]: the check of [engine_class.validate_outputs]
      against [RequestOutput] ([false]) or [PoolingRequestOutput]
      ([true]).
    - [new_guided_request]: [GuidedDecodingRequest] on the entries of
      a dictionary. *)
Record Library : Type := {
  parse_text : TextArg -> result (list string);
  parse_tokens : TokensArg -> result (list (list token));
  from_optional : list (string * Z) -> result SamplingParams.t;
  new_sampling_params : SamplingParams.t;
  _validate_truncation_size :
    Z -> option Z -> TokenizationKwargs -> result TokenizationKwargs;
  validate_outputs :
    bool -> list RequestOutput.t -> result (list RequestOutput.t);
  new_guided_request : list (string * string) -> result GuidedDecodingRequest.t }.

(** [TextPrompt(prompt=s)] and [TokensPrompt(prompt_token_ids=ids)] *)
Definition TextPrompt (s : string) : PromptType :=
  PDict {| PromptDict.prompt := Some s;
           PromptDict.prompt_token_ids := None;
           PromptDict.multi_modal_data := None;
           PromptDict.mm_processor_kwargs := None |}.
Definition TokensPrompt (ids : list token) : PromptType :=
  PDict {| PromptDict.prompt := None;
           PromptDict.prompt_token_ids := Some ids;
           PromptDict.multi_modal_data := None;
           PromptDict.mm_processor_kwargs := None |}.

(** [LLM._convert_v1_inputs] *)
Definition _convert_v1_inputs (lib : Library)
    (prompts : option TextArg) (prompt_token_ids : option TokensArg)
    : result (list PromptType) :=
  match prompts, prompt_token_ids with
  | None, None => Raise ValueError
  | _, _ =>
      if match prompts, prompt_token_ids with
         | Some p, Some t => negb (text_len p =? tokens_len t)%nat
         | _, _ => false
         end
      then Raise ValueError
      else
        let? prompts :=
          match prompts with
          | Some p => let? l := parse_text lib p in Ok (Some l)
          | None => Ok None
          end in
        let? prompt_token_ids :=
          match prompt_token_ids with
          | Some t => let? l := parse_tokens lib t in Ok (Some l)
          | None => Ok None
          end in
        let num_requests :=
          match prompts, prompt_token_ids with
          | Some l, _ => length l
          | None, Some l => length l
          | None, None => 0%nat
          end in
        map_result
          (fun i =>
             match prompts, prompt_token_ids with
             | Some l, _ => let? s := index l i in Ok (TextPrompt s)
             | None, Some l => let? ids := index l i in Ok (TokensPrompt ids)
             | None, None => Raise AssertionError
             end)
          (seq 0 num_requests)
  end.

(** The attributes of the [LLM] object: those of the pipeline and the
    cache of the default sampling parameters. *)
Record Self (E : Type) : Type := {
  world : World E;
  default_sampling_params : option (list (string * Z)) }.
Arguments world {E} _.
Arguments default_sampling_params {E} _.
Arguments Build_Self {E} _ _.

(** A method of the pipeline, called on [self]. *)
Definition on_world {E A} (c : M (World E) A) : M (Self E) A :=
  fun self =>
    let (w', r) := c (world self) in
    (Build_Self w' (default_sampling_params self), r).

(** A new object: it gets a reference that designates no object yet. *)
Definition alloc {E} (o : Params) : M (World E) ref :=
  fun w =>
    let r := fresh (dom (heap w)) in
    (set_heap (<[r := o]> (heap w)) w, Ok r).

(** [LLM.get_default_sampling_params] *)
Definition get_default_sampling_params {E} (cfg : ModelConfig)
    (lib : Library) : M (Self E) ref :=
  fun self =>
    let d :=
      match default_sampling_params self with
      | None => get_diff_sampling_param cfg
      | Some d => d
      end in
    let self := Build_Self (world self) (Some d) in
    match d with
    | _ :: _ =>
        (let! sp := lift (from_optional lib d) in
         on_world (alloc (Sampling sp))) self
    | [] => on_world (alloc (Sampling (new_sampling_params lib))) self
    end.

(** The prompts of [generate] and [encode]: [prompts] alone (or nothing
    at all), or the legacy pair with [prompt_token_ids]. *)
Inductive PromptInput : Type :=
| Unified (prompts : option PromptsArg)
| Legacy (prompts : option TextArg) (prompt_token_ids : TokensArg).

(** [LLM.generate].  The decorator [deprecate_kwargs] only warns.
    Without prompts, [_validate_and_add_requests] stops at
    [len(prompts)]; [fuel] bounds the ticks of [_run_engine]. *)
Definition generate {E} (engine : Engine E) (cfg : ModelConfig)
    (lib : Library) (guided_post_init : GuidedDecodingParams.t -> bool)
    (fuel : nat)
    (prompts : PromptInput) (sampling_params : option ParamsArg)
    (use_tqdm : bool) (lora_request : LoraArg)
    (prompt_adapter_request : option PromptAdapterRequest)
    (steer_vector_request : option SteerVectorRequest)
    (guided_options_request : GuidedArg)
    (priority : option (list Z)) : M (Self E) (list RequestOutput.t) :=
  let runner_type := runner_type cfg in
  if negb (existsb (String.eqb runner_type) ["generate"%string; "transcription"%string])
  then raise ValueError
  else
    let! parsed_prompts :=
      match prompts with
      | Legacy prompts prompt_token_ids =>
          let! l :=
            lift (_convert_v1_inputs lib prompts (Some prompt_token_ids)) in
          ret (Some (PromptSeq l))
      | Unified prompts => ret prompts
      end in
    let! guided_options_request :=
      match guided_options_request with
      | GuidedDict d =>
          if (1 <? length d)%nat then raise ValueError
          else let! g := lift (new_guided_request lib d) in ret (Some g)
      | GuidedRequest g => ret (Some g)
      | GuidedNone => ret None
      end in
    let! sampling_params :=
      match sampling_params with
      | None =>
          (* Use default sampling params. *)
          let! r := get_default_sampling_params cfg lib in
          ret (OneParams r)
      | Some p => ret p
      end in
    let tokenization_kwargs : TokenizationKwargs := [] in
    let! truncate_prompt_tokens :=
      fun self =>
        (self,
         Ok match sampling_params with
            | OneParams r =>
                match heap (world self) !! r with
                | Some (Sampling sp) =>
                    SamplingParams.truncate_prompt_tokens sp
                | _ => None
                end
            | ParamsSeq _ => None
            end) in
    let! tokenization_kwargs :=
      lift (_validate_truncation_size lib (max_model_len cfg)
              truncate_prompt_tokens tokenization_kwargs) in
    let! _ :=
      match parsed_prompts with
      | Some parsed_prompts =>
          on_world
            (_validate_and_add_requests engine guided_post_init
               parsed_prompts sampling_params use_tqdm lora_request
               prompt_adapter_request steer_vector_request
               (Some tokenization_kwargs) guided_options_request priority)
      | None => raise TypeError
      end in
    let! outputs := on_world (_run_engine engine fuel use_tqdm) in
    lift (validate_outputs lib false outputs).

End Entry.

(** ** Reference library and configuration *)

Module EntrySamples.

Import Py.

(** A library that parses as [parse_and_batch_prompt] does on
    well-typed arguments, truncates to the model length and accepts
    every output. *)
Definition library : Entry.Library :=
  {| Entry.parse_text := fun a =>
       match a with
       | Entry.OneText s => Ok [s]
       | Entry.TextList [] => Raise ValueError
       | Entry.TextList l => Ok l
       end;
     Entry.parse_tokens := fun a =>
       match a with
       | Entry.OneTokens ids => Ok [ids]
       | Entry.TokensList [] => Raise ValueError
       | Entry.TokensList l => Ok l
       end;
     Entry.from_optional := fun _ => Ok Reference.sampling_params;
     Entry.new_sampling_params := Reference.sampling_params;
     Entry._validate_truncation_size := fun max_model_len t kw =>
       match t with
       | None => Ok kw
       | Some t =>
           let t := if t <=? -1 then max_model_len else t in
           if max_model_len <? t then Raise ValueError
           else Ok (kw ++ [("truncation"%string, 1); ("max_length"%string, t)])
       end;
     Entry.validate_outputs := fun _ outputs => Ok outputs;
     Entry.new_guided_request := fun _ => Ok Samples.guided_request |}.

Definition config : Entry.ModelConfig :=
  {| Entry.runner_type := "generate";
     Entry.supported_runner_types := ["generate"%string];
     Entry.task := "generate";
     Entry.max_model_len := 16;
     Entry.get_diff_sampling_param := [] |}.

(** A new [LLM] on the observed last-in first-out engine, with the
    parameter objects of [Samples.world_two]: the one at reference 0
    asks for no truncation. *)
Definition self0
    : Entry.Self (list (gmap ref Params * Request.t) * list Request.t) :=
  Entry.Build_Self
    (LLM.Build_World LLM.Counter.fresh ([], []) (LLM.heap Samples.world_two))
    None.

(** [generate] on three prompts without sampling parameters. *)
Definition run_default (fuel : nat)
    : Entry.Self (list (gmap ref Params * Request.t) * list Request.t)
      * result (list RequestOutput.t) :=
  Entry.generate (Observe.recording Reference.lifo) config library
    Reference.accept_guided fuel
    (Entry.Unified (Some (LLM.PromptSeq Reference.three_prompts))) None
    true LoraNone None None Entry.GuidedNone None self0.

Definition self_default
    : Entry.Self (list (gmap ref Params * Request.t) * list Request.t) :=
  Eval vm_compute in fst (run_default 3).

Definition result_default : result (list RequestOutput.t) :=
  Eval vm_compute in snd (run_default 3).

(** [generate] on three prompts with one parameter object each. *)
Definition self_sequence
    : Entry.Self (list (gmap ref Params * Request.t) * list Request.t) :=
  Eval vm_compute in
    fst (Entry.generate (Observe.recording Reference.lifo) config library
           Reference.accept_guided 3
           (Entry.Unified (Some (LLM.PromptSeq Reference.three_prompts)))
           (Some (LLM.ParamsSeq [0%nat; 0%nat; 0%nat]))
           true LoraNone None None Entry.GuidedNone None self0).

End EntrySamples.

(** ** Vocabulary of the properties of the entry points *)

Module EntryExpect.

Import Py.
Import LLM.

(** What [generate] computes before it submits anything: the parsed
    prompts, the parameter argument, the guided options and the
    tokenization options that it hands to
    [_validate_and_add_requests]. *)
Definition arguments {E} (cfg : Entry.ModelConfig) (lib : Entry.Library)
    (prompts : Entry.PromptInput) (sampling_params : option ParamsArg)
    (guided_options_request : Entry.GuidedArg)
    : M (Entry.Self E)
        (option PromptsArg * ParamsArg * option GuidedDecodingRequest.t
         * TokenizationKwargs) :=
  if negb (existsb (String.eqb (Entry.runner_type cfg))
             ["generate"%string; "transcription"%string])
  then raise ValueError
  else
    let! parsed_prompts :=
      match prompts with
      | Entry.Legacy prompts prompt_token_ids =>
          let! l :=
            lift (Entry._convert_v1_inputs lib prompts
                    (Some prompt_token_ids)) in
          ret (Some (PromptSeq l))
      | Entry.Unified prompts => ret prompts
      end in
    let! guided :=
      match guided_options_request with
      | Entry.GuidedDict d =>
          if (1 <? length d)%nat then raise ValueError
          else let! g := lift (Entry.new_guided_request lib d) in ret (Some g)
      | Entry.GuidedRequest g => ret (Some g)
      | Entry.GuidedNone => ret None
      end in
    let! params :=
      match sampling_params with
      | None =>
          let! r := Entry.get_default_sampling_params cfg lib in
          ret (OneParams r)
      | Some p => ret p
      end in
    let! truncate_prompt_tokens :=
      fun self =>
        (self,
         Ok match params with
            | OneParams r =>
                match heap (Entry.world self) !! r with
                | Some (Sampling sp) =>
                    SamplingParams.truncate_prompt_tokens sp
                | _ => None
                end
            | ParamsSeq _ => None
            end) in
    let! tokenization_kwargs :=
      lift (Entry._validate_truncation_size lib (Entry.max_model_len cfg)
              truncate_prompt_tokens []) in
    ret (parsed_prompts, params, guided, tokenization_kwargs).

End EntryExpect.

(** * Properties *)

(** ** Facts about the Python runtime *)

Module PyFacts.

Import Py.

Lemma insort_perm {A} (before : A -> A -> bool) x l :
  Permutation (insort before x l) (x :: l).
Proof.
  induction l as [|y l IH]; simpl; [reflexivity|].
  destruct (before y x); [|reflexivity].
  rewrite IH. apply perm_swap.
Qed.

Lemma sorted_perm {A K} (ltb : K -> K -> bool) (key : A -> K) reverse xs :
  Permutation (sorted ltb key reverse xs) xs.
Proof.
  unfold sorted. induction xs as [|x xs IH]; simpl; [reflexivity|].
  rewrite insort_perm. now constructor.
Qed.

Lemma sorted_length {A K} (ltb : K -> K -> bool) (key : A -> K) reverse xs :
  length (sorted ltb key reverse xs) = length xs.
Proof. apply Permutation_length, sorted_perm. Qed.

Lemma sorted_Forall {A K} (ltb : K -> K -> bool) (key : A -> K) reverse xs
    (P : A -> Prop) :
  Forall P xs -> Forall P (sorted ltb key reverse xs).
Proof.
  intros H. eapply Permutation_Forall; [|exact H].
  symmetry. apply sorted_perm.
Qed.

Lemma insort_sorted {A} (before : A -> A -> bool) x l :
  Spec.strict_weak before ->
  StronglySorted (fun a b => before b a = false) l ->
  StronglySorted (fun a b => before b a = false) (insort before x l).
Proof.
  intros [Hasym Htrans] Hl.
  induction Hl as [|y l Hl IH Hy]; simpl.
  - repeat constructor.
  - destruct (before y x) eqn:Hyx.
    + constructor; [exact IH|].
      eapply Permutation_Forall; [symmetry; apply insort_perm|].
      constructor; [now apply Hasym | exact Hy].
    + constructor; [now constructor|].
      constructor; [exact Hyx|].
      eapply Forall_impl; [|exact Hy].
      intros z Hz. simpl in Hz. now apply (Htrans x y z).
Qed.

Lemma sorted_sorted {A K} (ltb : K -> K -> bool) (key : A -> K)
    (reverse : bool) xs :
  Spec.strict_weak (fun y x : A =>
                 if reverse then ltb (key x) (key y)
                 else ltb (key y) (key x)) ->
  StronglySorted
    (fun a b : A =>
       (if reverse then ltb (key a) (key b) else ltb (key b) (key a)) = false)
    (sorted ltb key reverse xs).
Proof.
  intros Hsw. unfold sorted.
  induction xs as [|x xs IH]; simpl; [constructor|].
  now apply (insort_sorted _ x _ Hsw).
Qed.

Lemma Qltb_false x y : Qltb x y = false <-> (y <= x)%Q.
Proof.
  unfold Qltb. rewrite Bool.negb_false_iff. apply Qle_bool_iff.
Qed.

Lemma Qltb_true x y : Qltb x y = true <-> (x < y)%Q.
Proof.
  unfold Qltb. rewrite Bool.negb_true_iff.
  rewrite <- Bool.not_true_iff_false, Qle_bool_iff.
  split; [apply Qnot_le_lt | apply Qlt_not_le].
Qed.

Lemma StronglySorted_weaken {A} (R1 R2 : A -> A -> Prop) l :
  (forall a b, R1 a b -> R2 a b) ->
  StronglySorted R1 l -> StronglySorted R2 l.
Proof.
  intros HR H. induction H as [|a l Hl IH Ha]; constructor; auto.
  eapply Forall_impl; [|exact Ha]. intros b. apply HR.
Qed.

(** [sorted(xs, key=key, reverse=True)] on rational keys is in
    descending order of the key. *)
Lemma sorted_descending {A} (key : A -> Q) xs :
  StronglySorted (fun a b => (key b <= key a)%Q) (sorted Qltb key true xs).
Proof.
  assert (Hsw : Spec.strict_weak (fun y x : A => Qltb (key x) (key y))).
  { split.
    - intros a b H. apply Qltb_true in H. apply Qltb_false.
      now apply Qlt_le_weak.
    - intros a b c H1 H2. apply Qltb_false in H1, H2. apply Qltb_false.
      eapply Qle_trans; eassumption. }
  pose proof (sorted_sorted Qltb key true xs Hsw) as H.
  eapply StronglySorted_weaken; [|exact H].
  intros a b Hab. simpl in Hab. now apply Qltb_false in Hab.
Qed.

(** [sorted(xs, key=key)] on integer keys is in ascending order. *)
Lemma sorted_ascending {A} (key : A -> Z) xs :
  StronglySorted (fun a b => key a <= key b) (sorted Z.ltb key false xs).
Proof.
  assert (Hsw : Spec.strict_weak (fun y x : A => Z.ltb (key y) (key x))).
  { split.
    - intros a b H. apply Z.ltb_lt in H. apply Z.ltb_ge. lia.
    - intros a b c H1 H2. apply Z.ltb_ge in H1, H2. apply Z.ltb_ge. lia. }
  pose proof (sorted_sorted Z.ltb key false xs Hsw) as H.
  eapply StronglySorted_weaken; [|exact H].
  intros a b Hab. simpl in Hab. now apply Z.ltb_ge in Hab.
Qed.

Lemma slice_to_length {A} (xs : list A) k :
  0 <= k -> (length (slice_to xs k) <= Z.to_nat k)%nat.
Proof.
  intros Hk. unfold slice_to.
  destruct (0 <=? k) eqn:E; [|apply Z.leb_gt in E; lia].
  rewrite length_firstn. lia.
Qed.

Lemma slice_to_nonneg {A} (xs : list A) k :
  0 <= k -> slice_to xs k = firstn (Z.to_nat k) xs.
Proof.
  intros Hk. unfold slice_to.
  destruct (0 <=? k) eqn:E; [reflexivity|apply Z.leb_gt in E; lia].
Qed.

Lemma slice_to_incl {A} (xs : list A) k x : In x (slice_to xs k) -> In x xs.
Proof.
  unfold slice_to. destruct (0 <=? k); intros H;
    match type of H with
    | In _ (firstn ?n _) =>
        rewrite <- (firstn_skipn n xs); apply in_or_app; left; exact H
    end.
Qed.

Lemma slice_to_Forall {A} (P : A -> Prop) (xs : list A) k :
  Forall P xs -> Forall P (slice_to xs k).
Proof.
  rewrite !Forall_forall. intros H x Hx. eapply H, slice_to_incl, Hx.
Qed.

(** [int(str(n)) == n] *)
Lemma int_str (n : Z) : int (str n) = Ok n.
Proof.
  unfold int, str. rewrite NilZero.isi.
  - now rewrite DecimalZ.of_to.
  - destruct n; simpl; try discriminate.
    intros [= H]. now apply Unsigned.to_uint_nonnil in H.
  - destruct n; simpl; try discriminate.
    intros [= H]. now apply Unsigned.to_uint_nonnil in H.
Qed.

Lemma str_inj (n m : Z) : str n = str m -> n = m.
Proof.
  intros H. pose proof (int_str n) as Hn. rewrite H, int_str in Hn.
  congruence.
Qed.

Lemma map_result_ok {A B} (f : A -> result B) (g : A -> B) xs :
  Forall (fun x => f x = Ok (g x)) xs -> map_result f xs = Ok (map g xs).
Proof.
  induction 1 as [|x xs Hx _ IH]; simpl; [reflexivity|].
  now rewrite Hx, IH.
Qed.

Lemma map_result_length {A B} (f : A -> result B) xs ys :
  map_result f xs = Ok ys -> length ys = length xs.
Proof.
  revert ys. induction xs as [|x xs IH]; simpl; intros ys H.
  - now inversion H.
  - destruct (f x); simpl in H; try discriminate.
    destruct (map_result f xs); simpl in H; try discriminate.
    inversion H; subst. simpl. f_equal. now apply IH.
Qed.

Lemma map_result_Forall2 {A B} (f : A -> result B) xs ys :
  map_result f xs = Ok ys -> Forall2 (fun x y => f x = Ok y) xs ys.
Proof.
  revert ys. induction xs as [|x xs IH]; simpl; intros ys H.
  - inversion H. constructor.
  - destruct (f x) eqn:Hx; simpl in H; try discriminate.
    destruct (map_result f xs); simpl in H; try discriminate.
    inversion H; subst. constructor; auto.
Qed.

(** Sorting by an integer key that never raises. *)
Lemma sorted_raising_ok {A} (key : A -> result Z) (k : A -> Z) xs :
  Forall (fun x => key x = Ok (k x)) xs ->
  exists l,
    sorted_raising Z.ltb key xs = Ok l
    /\ Permutation l xs
    /\ StronglySorted Z.le (map k l).
Proof.
  intros Hk. unfold sorted_raising, keyed.
  rewrite (map_result_ok _ (fun x => (k x, x))).
  2:{ eapply Forall_impl; [|exact Hk]. intros x Hx. simpl in Hx.
      now rewrite Hx. }
  simpl. eexists. split; [reflexivity|].
  set (kxs := map (fun x => (k x, x)) xs).
  pose proof (sorted_perm Z.ltb fst false kxs) as Hp.
  pose proof (sorted_ascending fst kxs) as Hs.
  assert (Hall : Forall (fun p : Z * A => fst p = k (snd p))
                   (sorted Z.ltb fst false kxs)).
  { apply sorted_Forall. subst kxs. apply Forall_forall.
    intros p Hp'. apply in_map_iff in Hp' as (x & <- & _). reflexivity. }
  split.
  - rewrite Hp. subst kxs. rewrite map_map. simpl. now rewrite map_id.
  - clear Hp. revert Hs Hall.
    generalize (sorted Z.ltb fst false kxs). intros l Hs.
    induction Hs as [|p l Hl IH Hp']; intros Hall; simpl; constructor.
    + apply IH. now inversion Hall.
    + inversion Hall as [|? ? Hp0 Hall']; subst.
      rewrite map_map, Forall_map. rewrite Forall_forall in Hp', Hall' |- *.
      intros q Hq. rewrite <- Hp0, <- (Hall' q Hq). now apply Hp'.
Qed.

Lemma seq_sorted c n :
  StronglySorted Z.le (map Z.of_nat (seq c n)).
Proof.
  revert c. induction n as [|n IH]; intros c; simpl; constructor.
  - apply IH.
  - rewrite Forall_map, Forall_forall. intros m Hm.
    apply in_seq in Hm. lia.
Qed.

(** Collation: outputs whose identifiers are the decimal numerals of
    [c, c+1, .., c+n-1] in any order come out in that order. *)
Lemma collate {A} (request_id : A -> string) (outs : list A) c n :
  Permutation (map request_id outs)
    (map (fun i => str (Z.of_nat i)) (seq c n)) ->
  exists l,
    sorted_raising Z.ltb (fun x => int (request_id x)) outs = Ok l
    /\ Permutation l outs
    /\ map request_id l = map (fun i => str (Z.of_nat i)) (seq c n).
Proof.
  intros Hperm.
  set (g := fun s => match int s with Ok z => z | _ => 0 end).
  assert (Hid : Forall (fun x => exists m, In m (seq c n)
                          /\ request_id x = str (Z.of_nat m)) outs).
  { apply Forall_forall. intros x Hx.
    assert (Hin : In (request_id x) (map request_id outs))
      by now apply in_map.
    eapply Permutation_in in Hin; [|exact Hperm].
    apply in_map_iff in Hin as (m & Hm & Hin). eauto. }
  destruct (sorted_raising_ok (fun x => int (request_id x))
              (fun x => g (request_id x)) outs) as (l & Hl & Hpl & Hsl).
  { eapply Forall_impl; [|exact Hid]. intros x (m & _ & Hx). simpl.
    unfold g. now rewrite Hx, int_str. }
  exists l. split; [exact Hl|]. split; [exact Hpl|].
  assert (Hg : forall m, g (str (Z.of_nat m)) = Z.of_nat m).
  { intros m. unfold g. now rewrite int_str. }
  assert (Hkeys : map (fun x => g (request_id x)) l
                  = map Z.of_nat (seq c n)).
  { apply (StronglySorted_unique Z.le); [exact Hsl|apply seq_sorted|].
    rewrite Hpl. rewrite <- (map_map request_id g), Hperm, map_map.
    erewrite map_ext; [reflexivity|]. intros m. simpl. apply Hg. }
  assert (Hl' : Forall (fun x => request_id x
                          = str (g (request_id x))) l).
  { eapply Permutation_Forall; [symmetry; exact Hpl|].
    eapply Forall_impl; [|exact Hid]. intros x (m & _ & Hx). simpl.
    now rewrite Hx, Hg. }
  transitivity (map str (map (fun x => g (request_id x)) l)).
  - rewrite map_map. apply map_ext_Forall. exact Hl'.
  - rewrite Hkeys, map_map. reflexivity.
Qed.

Lemma bind_ok {S A B} (c : M S A) (k : A -> M S B) s s' b :
  bind c k s = (s', Ok b) ->
  exists s1 a, c s = (s1, Ok a) /\ k a s1 = (s', Ok b).
Proof.
  unfold bind. destruct (c s) as [s1 [a|e|]]; intros H; try discriminate.
  eauto.
Qed.

Lemma lift_ok {S A} (r : result A) (s s' : S) a :
  lift r s = (s', Ok a) -> s' = s /\ r = Ok a.
Proof. unfold lift. intros [= -> ->]. auto. Qed.

Lemma rbind_ok {A B} (r : result A) (k : A -> result B) b :
  rbind r k = Ok b -> exists a, r = Ok a /\ k a = Ok b.
Proof. destruct r; simpl; intros H; try discriminate. eauto. Qed.

Lemma index_ok {A} (xs : list A) i x :
  index xs i = Ok x -> nth_error xs i = Some x.
Proof. unfold index. destruct (nth_error xs i); now intros [= ->]. Qed.

End PyFacts.

(** ** Facts about one step of beam search *)

Module BeamFacts.

Import Py PyFacts LLM.

Lemma ends_with_new_beam eos cur lp t lo :
  Spec.ends_with eos (new_beam cur lp t lo) = (t =? eos).
Proof.
  unfold Spec.ends_with, new_beam. simpl. now rewrite rev_app_distr.
Qed.

(** The inner loop sends each candidate to one of the two lists. *)
Lemma expand_beam_items eos ignore_eos cur lp items c n :
  fold_left
    (fun (acc : list BeamSearchSequence.t * list BeamSearchSequence.t)
         (item : token * Logprob) =>
       let (completed, instance_new_beams) := acc in
       let (token_id, logprob_obj) := item in
       let nb := new_beam cur lp token_id logprob_obj in
       if (token_id =? eos) && negb ignore_eos
       then (completed ++ [nb], instance_new_beams)
       else (completed, instance_new_beams ++ [nb]))
    items (c, n)
  = (c ++ filter (Spec.completes eos ignore_eos)
            (map (fun item => new_beam cur lp (fst item) (snd item)) items),
     n ++ filter (fun b => negb (Spec.completes eos ignore_eos b))
            (map (fun item => new_beam cur lp (fst item) (snd item)) items)).
Proof.
  revert c n. induction items as [|[t lo] items IH]; intros c n; simpl.
  - now rewrite !app_nil_r.
  - assert (Hc : Spec.completes eos ignore_eos (new_beam cur lp t lo)
                 = (t =? eos) && negb ignore_eos).
    { unfold Spec.completes. now rewrite ends_with_new_beam. }
    rewrite Hc.
    destruct ((t =? eos) && negb ignore_eos); simpl;
      (etransitivity; [apply IH|]); now rewrite <- ?app_assoc.
Qed.

Lemma expand_beam_spec eos ignore_eos cur lp c n :
  expand_beam eos ignore_eos cur lp (c, n)
  = (c ++ filter (Spec.completes eos ignore_eos)
            (map (fun item => new_beam cur lp (fst item) (snd item)) lp),
     n ++ filter (fun b => negb (Spec.completes eos ignore_eos b))
            (map (fun item => new_beam cur lp (fst item) (snd item)) lp)).
Proof. apply expand_beam_items. Qed.

(** The loop over the positions of an instance. *)
Lemma expand_range_spec eos ignore_eos all_beams output positions c n c' n' :
  expand_range eos ignore_eos all_beams output positions (c, n)
  = Ok (c', n') ->
  exists cands,
    c' = c ++ filter (Spec.completes eos ignore_eos) cands
    /\ n' = n ++ filter (fun b => negb (Spec.completes eos ignore_eos b)) cands
    /\ Forall (fun cand => exists i parent lp,
                 In i positions
                 /\ nth_error all_beams i = Some parent
                 /\ Spec.offered output lp
                 /\ Spec.expands parent lp cand) cands.
Proof.
  revert c n. induction positions as [|i positions IH]; intros c n H.
  - simpl in H. inversion H; subst. exists [].
    simpl. now rewrite !app_nil_r.
  - simpl in H.
    apply rbind_ok in H as (cur & Hcur & H). apply index_ok in Hcur.
    apply rbind_ok in H as (res & Hres & H). apply index_ok in Hres.
    apply rbind_ok in H as (first & Hfirst & H). apply index_ok in Hfirst.
    destruct (CompletionOutput.logprobs first) as [steps|] eqn:Hsteps.
    + apply rbind_ok in H as (lp & Hlp & H). apply index_ok in Hlp.
      rewrite expand_beam_spec in H.
      apply IH in H as (cands & -> & -> & Hc).
      exists (map (fun item => new_beam cur lp (fst item) (snd item)) lp
              ++ cands).
      rewrite !filter_app, !app_assoc. split; [reflexivity|].
      split; [reflexivity|].
      apply Forall_app. split.
      * apply Forall_forall. intros cand Hin.
        apply in_map_iff in Hin as ([t lo] & <- & Hin).
        exists i, cur, lp. split; [now left|]. split; [exact Hcur|].
        split.
        -- exists res, first, steps. split; [|now auto].
           eapply nth_error_In, Hres.
        -- exists t, lo. now split.
      * eapply Forall_impl; [|exact Hc].
        intros cand (j & parent & lp' & Hj & Hrest).
        exists j, parent, lp'. split; [now right|exact Hrest].
    + apply IH in H as (cands & -> & -> & Hc).
      exists cands. split; [reflexivity|]. split; [reflexivity|].
      eapply Forall_impl; [|exact Hc].
      intros cand (j & parent & lp' & Hj & Hrest).
      exists j, parent, lp'. split; [now right|exact Hrest].
Qed.

(** Position ranges: the positions of an instance hold its own beams. *)
Lemma start_and_end_from insts (pre : list BeamSearchSequence.t) :
  let lens := map (fun instance =>
                     length (BeamSearchInstance.beams instance)) insts in
  let acc := accumulate_from (length pre) lens in
  length acc = length insts
  /\ Forall (fun entry : (nat * nat) * BeamSearchInstance.t =>
              forall i, In i (range_from (fst (fst entry)) (snd (fst entry))) ->
                exists b,
                  nth_error (pre ++ flatten_beams insts) i = Some b
                  /\ In b (BeamSearchInstance.beams (snd entry)))
       (combine (combine (removelast (length pre :: acc)) acc) insts).
Proof.
  revert pre. induction insts as [|inst insts IH]; intros pre; simpl.
  - split; [reflexivity|constructor].
  - specialize (IH (pre ++ BeamSearchInstance.beams inst)).
    simpl in IH. rewrite length_app in IH. destruct IH as [IHlen IH].
    split; [now rewrite IHlen|].
    set (a := length pre) in *.
    set (len := length (BeamSearchInstance.beams inst)) in *.
    destruct (accumulate_from (a + len)
                (map (fun instance =>
                        length (BeamSearchInstance.beams instance)) insts))
      as [|x acc'] eqn:Hacc.
    + destruct insts; [|discriminate]. simpl.
      constructor; [|constructor].
      simpl. intros i Hi. unfold range_from in Hi. apply in_seq in Hi.
      unfold flatten_beams. simpl. rewrite app_nil_r.
      destruct (nth_error (BeamSearchInstance.beams inst) (i - a)) as [b|]
        eqn:Hb.
      * exists b. split; [|eapply nth_error_In, Hb].
        rewrite nth_error_app2 by (subst a; lia). exact Hb.
      * apply nth_error_None in Hb. subst a len. lia.
    + simpl. constructor.
      * simpl. intros i Hi. unfold range_from in Hi. apply in_seq in Hi.
        unfold flatten_beams. simpl.
        destruct (nth_error (BeamSearchInstance.beams inst) (i - a)) as [b|]
          eqn:Hb.
        -- exists b. split; [|eapply nth_error_In, Hb].
           rewrite nth_error_app2 by (subst a; lia).
           rewrite nth_error_app1 by (subst a len; lia). exact Hb.
        -- apply nth_error_None in Hb. subst a len. lia.
      * unfold flatten_beams in *. simpl.
        rewrite <- app_assoc in IH. exact IH.
Qed.

Lemma start_and_end_spec insts :
  length (start_and_end insts) = length insts
  /\ Forall (fun entry : (nat * nat) * BeamSearchInstance.t =>
              forall i, In i (range_from (fst (fst entry)) (snd (fst entry))) ->
                exists b,
                  nth_error (flatten_beams insts) i = Some b
                  /\ In b (BeamSearchInstance.beams (snd entry)))
       (combine (start_and_end insts) insts).
Proof.
  destruct (start_and_end_from insts []) as [Hlen H].
  unfold start_and_end, accumulate. split; [|exact H].
  change (length (combine (removelast (0%nat :: accumulate_from 0
            (map (fun instance =>
                    length (BeamSearchInstance.beams instance)) insts)))
          (accumulate_from 0
            (map (fun instance =>
                    length (BeamSearchInstance.beams instance)) insts)))
          = length insts).
  rewrite length_combine, removelast_firstn_len, length_firstn.
  change (length (@nil BeamSearchSequence.t)) with 0%nat in Hlen.
  simpl length. lia.
Qed.

Lemma step_instance_spec beam_width eos ignore_eos key all_beams output
    s e inst inst' :
  (forall i, In i (range_from s e) ->
     exists b, nth_error all_beams i = Some b
               /\ In b (BeamSearchInstance.beams inst)) ->
  step_instance beam_width eos ignore_eos key all_beams output
    ((s, e), inst) = Ok inst' ->
  exists cands,
    Spec.instance_step beam_width eos ignore_eos key output inst inst' cands.
Proof.
  intros Hpos H. unfold step_instance in H.
  apply rbind_ok in H as ([c' n'] & Hexp & H).
  apply expand_range_spec in Hexp as (cands & -> & -> & Hc).
  inversion H; subst; clear H. exists cands.
  unfold Spec.instance_step. simpl. repeat split; try reflexivity.
  eapply Forall_impl; [|exact Hc].
  intros cand (i & parent & lp & Hi & Hnth & Hoff & Hexp).
  exists parent, lp. split; [|now split].
  destruct (Hpos i Hi) as (b & Hb & Hin). congruence.
Qed.

Lemma Forall2_combine_l {A B C} (P : A * B -> Prop) (Q : A * B -> C -> Prop)
    (l1 : list A) (l2 : list B) (l3 : list C) :
  length l1 = length l2 ->
  Forall P (combine l1 l2) ->
  Forall2 Q (combine l1 l2) l3 ->
  Forall2 (fun b c => exists a, P (a, b) /\ Q (a, b) c) l2 l3.
Proof.
  revert l2 l3. induction l1 as [|a l1 IH]; intros [|b l2] l3 Hlen HP HQ;
    simpl in *; try discriminate.
  - inversion HQ. constructor.
  - inversion HQ; subst. inversion HP; subst. constructor; eauto.
Qed.

Lemma token_step_some {World} (env : Env World) beam_width eos ignore_eos
    key bsp insts w w' insts' :
  token_step env beam_width eos ignore_eos key bsp insts w
  = (w', Ok (Some insts')) ->
  exists output,
    generate env (map create_tokens_prompt_from_beam (flatten_beams insts))
      bsp false
      (map BeamSearchSequence.lora_request (flatten_beams insts)) w
    = (w', Ok output)
    /\ flatten_beams insts <> []
    /\ Forall2 (fun inst inst' => exists cands,
                  Spec.instance_step beam_width eos ignore_eos key output
                    inst inst' cands) insts insts'.
Proof.
  unfold token_step. intros H.
  destruct (length (flatten_beams insts) =? 0)%nat eqn:Hlen;
    [discriminate|].
  rewrite !map_map in H. simpl in H.
  apply bind_ok in H as (w1 & output & Hgen & H).
  apply bind_ok in H as (w2 & insts2 & Hmap & H).
  apply lift_ok in Hmap as [-> Hmap]. inversion H; subst; clear H.
  exists output. split; [exact Hgen|]. split.
  { intros E. rewrite E in Hlen. discriminate. }
  apply map_result_Forall2 in Hmap.
  destruct (start_and_end_spec insts) as [Hl Hpos].
  pose proof
    (Forall2_combine_l
       (fun entry : (nat * nat) * BeamSearchInstance.t =>
          forall i, In i (range_from (fst (fst entry)) (snd (fst entry))) ->
            exists b,
              nth_error (flatten_beams insts) i = Some b
              /\ In b (BeamSearchInstance.beams (snd entry)))
       (fun x y =>
          step_instance beam_width eos ignore_eos key (flatten_beams insts)
            output x = Ok y)
       _ _ _ Hl Hpos Hmap) as HF.
  eapply Forall2_impl; [|exact HF].
  intros inst inst' ([s e] & Hp & Hq). simpl in Hp.
  eapply step_instance_spec; eassumption.
Qed.

Lemma token_step_none {World} (env : Env World) beam_width eos ignore_eos
    key bsp insts w w' :
  token_step env beam_width eos ignore_eos key bsp insts w = (w', Ok None) ->
  w' = w /\ flatten_beams insts = [].
Proof.
  unfold token_step. intros H.
  destruct (length (flatten_beams insts) =? 0)%nat eqn:Hlen.
  - inversion H. split; [reflexivity|].
    apply Nat.eqb_eq in Hlen. now destruct (flatten_beams insts).
  - apply bind_ok in H as (w1 & output & _ & H).
    apply bind_ok in H as (w2 & insts2 & _ & H). discriminate.
Qed.

Lemma token_step_empty {World} (env : Env World) beam_width eos ignore_eos
    key bsp insts w :
  flatten_beams insts = [] ->
  token_step env beam_width eos ignore_eos key bsp insts w = (w, Ok None).
Proof. unfold token_step. now intros ->. Qed.

(** The loop runs steps that did not break, at most one per element of
    [token_iter], and stops early only on an empty batch. *)
Lemma token_loop_steps {World} (env : Env World) beam_width eos ignore_eos
    key bsp token_iter insts w w' insts' :
  token_loop env beam_width eos ignore_eos key bsp token_iter insts w
  = (w', Ok insts') ->
  exists k,
    (k <= length token_iter)%nat
    /\ Spec.steps env beam_width eos ignore_eos key bsp k w insts w' insts'
    /\ (k = length token_iter \/ flatten_beams insts' = []).
Proof.
  revert insts w. induction token_iter as [|t token_iter IH]; intros insts w H.
  - inversion H; subst. exists 0%nat. repeat split; auto. constructor.
  - simpl in H. apply bind_ok in H as (w1 & next & Hstep & H).
    destruct next as [insts1|].
    + apply IH in H as (k & Hk & Hsteps & Hend).
      exists (S k). split; [simpl; lia|]. split.
      * econstructor; eassumption.
      * destruct Hend as [->|Hend]; auto.
    + inversion H; subst. apply token_step_none in Hstep as [-> Hempty].
      exists 0%nat. split; [simpl; lia|]. split; [constructor|now right].
Qed.

(** A property of the instances that every step establishes holds after
    any positive number of steps. *)
Lemma steps_established {World} (env : Env World) beam_width eos ignore_eos
    key bsp (P : list BeamSearchInstance.t -> Prop) :
  (forall insts w w' insts',
     token_step env beam_width eos ignore_eos key bsp insts w
     = (w', Ok (Some insts')) -> P insts') ->
  forall k w insts w' insts',
    Spec.steps env beam_width eos ignore_eos key bsp (S k) w insts w' insts' ->
    P insts'.
Proof.
  intros Hstep k. induction k as [|k IH]; intros w insts w' insts' H.
  - inversion H as [|? ? ? ? ? ? ? Hs H0]; subst.
    inversion H0; subst. eapply Hstep, Hs.
  - inversion H as [|? ? ? ? ? ? ? Hs H0]; subst. eapply IH, H0.
Qed.

Lemma nonpositive_offered output lp :
  Spec.nonpositive output = true ->
  Spec.offered output lp ->
  Forall (fun item : token * Logprob => (logprob (snd item) <= 0)%Q) lp.
Proof.
  unfold Spec.nonpositive.
  intros H (res & first & steps & Hres & Hfirst & Hsteps & Hlp).
  rewrite forallb_forall in H. specialize (H res Hres).
  rewrite forallb_forall in H.
  specialize (H first (nth_error_In _ _ Hfirst)).
  rewrite Hsteps in H. rewrite forallb_forall in H.
  specialize (H lp (nth_error_In _ _ Hlp)).
  rewrite forallb_forall in H. apply Forall_forall.
  intros item Hitem. now apply Qle_bool_iff, H.
Qed.

Lemma expands_tokens parent lp child :
  Spec.expands parent lp child ->
  exists t, BeamSearchSequence.tokens child
            = BeamSearchSequence.tokens parent ++ [t].
Proof. intros (t & lo & _ & ->). now exists t. Qed.

Lemma active_not_completing beam_width eos ignore_eos key output inst inst'
    cands :
  Spec.instance_step beam_width eos ignore_eos key output inst inst' cands ->
  Forall (fun b => In b cands /\ Spec.completes eos ignore_eos b = false)
    (BeamSearchInstance.beams inst').
Proof.
  intros (_ & _ & _ & _ & ->).
  apply slice_to_Forall, sorted_Forall, Forall_forall.
  intros b Hb. apply filter_In in Hb as [Hin Hb].
  split; [exact Hin|]. now apply Bool.negb_true_iff.
Qed.

Lemma make_instances_spec tokenizer loras prompts insts :
  length loras = length prompts ->
  map_result (make_instance tokenizer) (combine loras prompts) = Ok insts ->
  Forall2 (fun prompt inst =>
             prompt_tokens_of tokenizer prompt
             = Ok (BeamSearchInstance.prompt_tokens inst)
             /\ BeamSearchInstance.completed inst = []
             /\ exists b,
                  BeamSearchInstance.beams inst = [b]
                  /\ BeamSearchSequence.tokens b
                     = BeamSearchInstance.prompt_tokens inst
                  /\ BeamSearchSequence.cum_logprob b = 0%Q)
    prompts insts.
Proof.
  revert prompts insts.
  induction loras as [|l loras IH]; intros [|p prompts] insts Hlen H;
    simpl in *; try discriminate.
  - inversion H. constructor.
  - apply rbind_ok in H as (inst & Hinst & H).
    apply rbind_ok in H as (insts' & Hrest & H). inversion H; subst.
    apply rbind_ok in Hinst as (ids & Hids & Hinst). inversion Hinst; subst.
    constructor; [|apply IH; [lia|exact Hrest]].
    simpl. split; [exact Hids|]. split; [reflexivity|].
    eexists. split; [reflexivity|]. now split.
Qed.

Lemma lora_requests_length lora prompts loras :
  _get_beam_search_lora_requests lora prompts = Ok loras ->
  length loras = length prompts.
Proof.
  unfold _get_beam_search_lora_requests.
  destruct (lora_is_sequence lora && _); [discriminate|].
  destruct lora; intros [= <-]; try apply repeat_length.
Qed.

End BeamFacts.

(** ** Beam search: the step, exactly *)

Section StepExactly.

Import Py PyFacts LLM.


Lemma expand_range_exact eos ignore_eos all_beams output positions c n c' n' :
  expand_range eos ignore_eos all_beams output positions (c, n)
  = Ok (c', n') ->
  c' = c ++ filter (Spec.completes eos ignore_eos)
              (Spec.at_positions all_beams output positions)
  /\ n' = n ++ filter (fun b => negb (Spec.completes eos ignore_eos b))
                (Spec.at_positions all_beams output positions).
Proof.
  unfold Spec.at_positions.
  revert c n. induction positions as [|i positions IH]; intros c n H.
  - simpl in H. inversion H; subst. simpl. now rewrite !app_nil_r.
  - simpl in H.
    apply rbind_ok in H as (cur & Hcur & H). apply index_ok in Hcur.
    apply rbind_ok in H as (res & Hres & H). apply index_ok in Hres.
    apply rbind_ok in H as (first & Hfirst & H). apply index_ok in Hfirst.
    assert (Hprop : Spec.proposals output i cur
                    = match CompletionOutput.logprobs first with
                      | Some (logprobs :: _) =>
                          map (fun item : token * Logprob =>
                                 new_beam cur logprobs (fst item) (snd item))
                            logprobs
                      | _ => []
                      end).
    { unfold Spec.proposals. rewrite Hres.
      destruct (RequestOutput.outputs res) as [|f rest]; [discriminate|].
      simpl in Hfirst. now inversion Hfirst. }
    simpl. rewrite Hcur, Hprop.
    destruct (CompletionOutput.logprobs first) as [steps|] eqn:Hsteps.
    + apply rbind_ok in H as (lp & Hlp & H). apply index_ok in Hlp.
      destruct steps as [|lp0 steps]; [discriminate|].
      simpl in Hlp. inversion Hlp; subst lp0.
      rewrite BeamFacts.expand_beam_spec in H.
      apply IH in H as [-> ->].
      rewrite !filter_app, !app_assoc. auto.
    + apply IH in H as [-> ->]. auto.
Qed.


Lemma start_and_end_ranges_from a insts :
  combine
    (removelast
       (a :: accumulate_from a
               (map (fun instance =>
                       length (BeamSearchInstance.beams instance)) insts)))
    (accumulate_from a
       (map (fun instance =>
               length (BeamSearchInstance.beams instance)) insts))
  = Spec.ranges_from a insts.
Proof.
  revert a. induction insts as [|inst insts IH]; intros a; [reflexivity|].
  cbn [map accumulate_from Spec.ranges_from].
  rewrite <- IH.
  set (b := (a + length (BeamSearchInstance.beams inst))%nat).
  set (acc := accumulate_from b _).
  change (removelast (a :: b :: acc)) with (a :: removelast (b :: acc)).
  reflexivity.
Qed.

Lemma start_and_end_ranges insts :
  start_and_end insts = Spec.ranges_from 0 insts.
Proof. apply (start_and_end_ranges_from 0). Qed.

Lemma at_positions_candidates output o (post : list BeamSearchSequence.t) :
  forall bs pre s,
    length pre = (o + s)%nat ->
    Spec.at_positions (pre ++ bs ++ post) output (seq (length pre) (length bs))
    = concat (map (fun ib : nat * BeamSearchSequence.t =>
                     Spec.proposals output (o + fst ib) (snd ib))
                (combine (seq s (length bs)) bs)).
Proof.
  unfold Spec.at_positions.
  induction bs as [|x bs IH]; intros pre s Hpre; [reflexivity|].
  cbn [length seq map combine concat fst snd].
  rewrite nth_error_app2, Nat.sub_diag by lia. cbn [nth_error app].
  rewrite Hpre at 1. f_equal.
  specialize (IH (pre ++ [x]) (S s)).
  rewrite <- app_assoc, length_app in IH. cbn [length app] in IH.
  rewrite Nat.add_1_r in IH. apply IH. lia.
Qed.


Lemma step_instance_exact beam_width eos ignore_eos key output pre post
    inst inst' :
  step_instance beam_width eos ignore_eos key
    (pre ++ BeamSearchInstance.beams inst ++ post) output
    ((length pre,
      (length pre + length (BeamSearchInstance.beams inst))%nat), inst)
  = Ok inst' ->
  Spec.stepped beam_width eos ignore_eos key output (length pre) inst inst'.
Proof.
  intros H. unfold step_instance in H.
  apply rbind_ok in H as ([c' n'] & Hexp & H).
  apply expand_range_exact in Hexp as [-> ->].
  unfold range_from in H.
  replace (length pre + length (BeamSearchInstance.beams inst) - length pre)%nat
    with (length (BeamSearchInstance.beams inst)) in H by lia.
  rewrite (at_positions_candidates output (length pre) post
             (BeamSearchInstance.beams inst) pre 0%nat) in H by lia.
  inversion H; subst; clear H.
  unfold Spec.stepped, Spec.candidates, enumerate. simpl. auto.
Qed.

Lemma step_instances_exact beam_width eos ignore_eos key output :
  forall insts pre insts',
    map_result
      (step_instance beam_width eos ignore_eos key
         (pre ++ flatten_beams insts) output)
      (combine (Spec.ranges_from (length pre) insts) insts) = Ok insts' ->
    length insts' = length insts
    /\ forall j inst inst',
         nth_error insts j = Some inst ->
         nth_error insts' j = Some inst' ->
         Spec.stepped beam_width eos ignore_eos key output
           (length pre + length (flatten_beams (firstn j insts))) inst inst'.
Proof.
  induction insts as [|inst insts IH]; intros pre insts' H.
  - simpl in H. inversion H; subst. split; [reflexivity|].
    intros [|j] ? ? Hj; discriminate.
  - cbn [Spec.ranges_from combine map_result] in H.
    apply rbind_ok in H as (inst1 & Hone & H).
    apply rbind_ok in H as (rest' & Hrest & H). inversion H; subst; clear H.
    unfold flatten_beams in Hone, Hrest. cbn [map concat] in Hone, Hrest.
    fold (flatten_beams insts) in Hone, Hrest.
    apply step_instance_exact in Hone.
    specialize (IH (pre ++ BeamSearchInstance.beams inst) rest').
    rewrite length_app, <- app_assoc in IH.
    destruct (IH Hrest) as [Hlen Hnth].
    split; [simpl; now rewrite Hlen|].
    intros [|j] i i' Hi Hi'; simpl in Hi, Hi'.
    + inversion Hi; inversion Hi'; subst. simpl.
      now rewrite Nat.add_0_r.
    + specialize (Hnth j i i' Hi Hi').
      unfold flatten_beams. cbn [firstn map concat].
      fold (flatten_beams (firstn j insts)).
      rewrite length_app, Nat.add_assoc. exact Hnth.
Qed.

(** A pass that did not break: the batch went to [generate], and every
    instance was Spec.stepped on what came back for its own positions. *)
Lemma token_step_exact {World} (env : Env World) beam_width eos ignore_eos
    key bsp insts w w' insts' :
  token_step env beam_width eos ignore_eos key bsp insts w
  = (w', Ok (Some insts')) ->
  exists output,
    generate env (map create_tokens_prompt_from_beam (flatten_beams insts))
      bsp false
      (map BeamSearchSequence.lora_request (flatten_beams insts)) w
    = (w', Ok output)
    /\ length insts' = length insts
    /\ forall j inst inst',
         nth_error insts j = Some inst ->
         nth_error insts' j = Some inst' ->
         Spec.stepped beam_width eos ignore_eos key output
           (length (flatten_beams (firstn j insts))) inst inst'.
Proof.
  unfold token_step. intros H.
  destruct (length (flatten_beams insts) =? 0)%nat eqn:Hlen;
    [discriminate|].
  rewrite !map_map in H. simpl in H.
  apply bind_ok in H as (w1 & output & Hgen & H).
  apply bind_ok in H as (w2 & insts2 & Hmap & H).
  apply lift_ok in Hmap as [-> Hmap]. inversion H; subst; clear H.
  exists output. split; [exact Hgen|].
  rewrite start_and_end_ranges in Hmap.
  apply (step_instances_exact beam_width eos ignore_eos key output insts [])
    in Hmap.
  exact Hmap.
Qed.

End StepExactly.

(** ** Beam search: the claims *)

Import Py.

(** Claim C5, as amended.  For a beam width of at least zero: after
    the pruning of every step that the loop runs, the active-beam list
    of every instance has at most [beam_width] elements; before the
    first step it has exactly one, the prompt.  So the lists that a pass
    of the loop looks at never have more than [beam_width] elements,
    except at the first pass for a width of zero.  ([Spec.steps k] from
    the instances of the prompts are the states that the loop reaches
    after [k] steps, see [BeamFacts.token_loop_steps]; a negative
    [beam_width] does not reach the loop when the validation of
    [SamplingParams] rejects a negative number of log-probabilities, see
    [negative_beam_width_rejected].) *)
Theorem C5_active_beams_bounded {World} (env : Env World)
    (prompts : list PromptDict.t) (loras : list (option LoRARequest))
    (beam_width : Z) (eos : token) (ignore_eos : bool)
    (key : BeamSearchSequence.t -> Q) (bsp : SamplingParams.t)
    (k : nat) (w w' : World)
    (instances0 instances : list BeamSearchInstance.t) :
  0 <= beam_width ->
  length loras = length prompts ->
  map_result (LLM.make_instance (get_tokenizer env)) (combine loras prompts)
  = Ok instances0 ->
  Spec.steps env beam_width eos ignore_eos key bsp k w instances0 w' instances ->
  Forall (fun instance =>
            match k with
            | O => length (BeamSearchInstance.beams instance) = 1%nat
            | S _ =>
                Z.of_nat (length (BeamSearchInstance.beams instance))
                <= beam_width
            end) instances.
Proof.
  intros Hbw Hl H0 Hsteps. destruct k as [|k].
  - inversion Hsteps; subst.
    pose proof (BeamFacts.make_instances_spec _ _ _ _ Hl H0) as Hinit.
    clear - Hinit. induction Hinit as [|p inst ps insts Hp _ IH];
      constructor; [|exact IH].
    destruct Hp as (_ & _ & b & -> & _). reflexivity.
  - eapply (BeamFacts.steps_established env beam_width eos ignore_eos key bsp
              (fun insts =>
                 Forall (fun instance =>
                           Z.of_nat
                             (length (BeamSearchInstance.beams instance))
                           <= beam_width) insts));
      [|exact Hsteps].
    clear Hsteps. intros insts w0 w1 insts' Hstep.
    apply token_step_exact in Hstep as (output & _ & Hlen & Hnth).
    apply Forall_forall. intros inst' Hin.
    apply In_nth_error in Hin as [j Hj].
    destruct (nth_error insts j) as [inst|] eqn:Hi.
    + destruct (Hnth j inst inst' Hi Hj) as (_ & _ & _ & ->).
      match goal with
      | |- context [slice_to ?l beam_width] =>
          pose proof (PyFacts.slice_to_length l beam_width Hbw)
      end.
      lia.
    + apply nth_error_None in Hi.
      assert (j < length insts')%nat
        by (apply nth_error_Some; congruence).
      lia.
Qed.

Lemma C5_active_beams_bounded_witness :
  Forall (fun instance =>
            Z.of_nat (length (BeamSearchInstance.beams instance)) <= 2)
    Reference.instances2.
Proof.
  apply (C5_active_beams_bounded (Reference.env Reference.lm_eos)
           [Reference.tokens_prompt [5; 6]] [None] 2 2 false
           Reference.key2 Reference.bsp2 2 tt tt Reference.instances0
           Reference.instances2).
  - lia.
  - reflexivity.
  - reflexivity.
  - apply (Spec.steps_S _ _ _ _ _ _ _ tt Reference.instances0
             tt Reference.instances1); [reflexivity|].
    apply (Spec.steps_S _ _ _ _ _ _ _ tt Reference.instances1
             tt Reference.instances2); [reflexivity|].
    apply Spec.steps_O.
Defined.

(** Claim C5 as it is written fails at a beam width of zero, which the
    validation accepts: the instance of the prompt starts with one
    active beam, one more than the width, and the first pass of the loop
    looks at this list, flattens it and submits it. *)
Lemma C5_first_pass_exceeds_zero_width :
  BeamSearchParams.beam_width (Reference.beam_params 0 1) = 0
  /\ map_result (LLM.make_instance Reference.tokenizer)
       (combine [None] [Reference.tokens_prompt [5; 6]])
     = Ok Reference.instances0
  /\ ~ Forall (fun instance =>
                 Z.of_nat (length (BeamSearchInstance.beams instance)) <= 0)
         Reference.instances0
  /\ (exists instances1,
        LLM.token_step (Reference.env Reference.lm_plain) 0 2 false
          Reference.key2 Samples.bsp0 Reference.instances0 tt
        = (tt, Ok (Some instances1)))
  /\ exists call outputs,
       LLM.beam_search (Observe.logging (Reference.env Reference.lm_plain))
         [Reference.tokens_prompt [5; 6]] (Reference.beam_params 0 1)
         LoraNone false ([], tt)
       = (([call], tt), Ok outputs)
       /\ length (Observe.call_prompts call) = 1%nat.
Proof.
  split; [reflexivity|]. split; [reflexivity|]. split.
  - intros H. inversion H as [|? ? Hhd _]; subst. simpl in Hhd. lia.
  - split.
    + eexists. vm_compute. reflexivity.
    + do 2 eexists. split; [vm_compute; reflexivity|reflexivity].
Qed.

(** A negative beam width never reaches the loop, provided the
    validation of [SamplingParams] rejects a negative number of
    log-probabilities: the call raises [ValueError] (or the error of the
    adapter check) and the world is untouched. *)
Lemma negative_beam_width_rejected {World} (env : Env World)
    prompts params lora use_tqdm (w : World) :
  (forall sp n, verify_args env sp = true ->
                SamplingParams.logprobs sp = Some n -> 0 <= n) ->
  BeamSearchParams.beam_width params < 0 ->
  exists e, LLM.beam_search env prompts params lora use_tqdm w = (w, Raise e).
Proof.
  intros Hv Hneg.
  unfold LLM.beam_search, bind, lift, LLM._get_beam_search_lora_requests.
  destruct (lora_is_sequence lora && _); [eauto|].
  destruct lora; [| |eauto];
    unfold LLM.new_SamplingParams;
    match goal with |- context [verify_args env ?sp] =>
      destruct (verify_args env sp) eqn:E; [|eauto];
      specialize (Hv sp _ E eq_refl) end;
    lia.
Qed.

Lemma completes_false eos b :
  Spec.completes eos false b = Spec.ends_with eos b.
Proof. unfold Spec.completes. apply Bool.andb_true_r. Qed.

(** Claim C4.  Take a step with [ignore_eos] false, and the [output]
    that [generate] returned for its batch.  The candidates of an
    instance are all the extensions of its active beams, each by every
    token that [output] proposes for the position of the beam in the
    batch ([Spec.candidates]).  Those of them that end with the
    end-of-sequence token are appended, all and in order, to the
    completed list of the instance, and its new active list is made of
    candidates that do not end with it.  Hence, after this step and
    after any number of further steps, no active beam ends with the
    end-of-sequence token; as a step extends active beams only, a
    candidate completed this way is never extended. *)
Theorem C4_eos_candidates_completed {World} (env : Env World)
    (beam_width : Z) (eos : token)
    (key : BeamSearchSequence.t -> Q) (bsp : SamplingParams.t)
    (k : nat) (w w' w'' : World)
    (instances instances' instances'' : list BeamSearchInstance.t) :
  LLM.token_step env beam_width eos false key bsp instances w
  = (w', Ok (Some instances')) ->
  Spec.steps env beam_width eos false key bsp k w' instances' w'' instances'' ->
  (exists output,
     generate env
       (map LLM.create_tokens_prompt_from_beam (LLM.flatten_beams instances))
       bsp false
       (map BeamSearchSequence.lora_request (LLM.flatten_beams instances)) w
     = (w', Ok output)
     /\ length instances' = length instances
     /\ forall j instance instance',
          nth_error instances j = Some instance ->
          nth_error instances' j = Some instance' ->
          let cands :=
            Spec.candidates output
              (length (LLM.flatten_beams (firstn j instances)))
              (BeamSearchInstance.beams instance) in
          BeamSearchInstance.completed instance'
          = BeamSearchInstance.completed instance
            ++ filter (Spec.ends_with eos) cands
          /\ Forall (fun b => In b cands /\ Spec.ends_with eos b = false)
               (BeamSearchInstance.beams instance'))
  /\ Spec.active_beams (fun _ b => Spec.ends_with eos b = false) instances''.
Proof.
  assert (Hone : forall insts w0 w1 insts',
            LLM.token_step env beam_width eos false key bsp insts w0
            = (w1, Ok (Some insts')) ->
            Spec.active_beams (fun _ b => Spec.ends_with eos b = false)
              insts').
  { intros insts w0 w1 insts' Hstep.
    apply BeamFacts.token_step_some in Hstep as (output & _ & _ & HF).
    unfold Spec.active_beams.
    induction HF as [|inst inst' l l' (cands & Hi) _ IH];
      constructor; [|exact IH].
    apply BeamFacts.active_not_completing in Hi.
    eapply Forall_impl; [|exact Hi].
    intros b [_ Hb]. now rewrite completes_false in Hb. }
  intros Hstep Hsteps. split.
  - apply token_step_exact in Hstep as (output & Hgen & Hlen & Hnth).
    exists output. split; [exact Hgen|]. split; [exact Hlen|].
    intros j inst inst' Hi Hi'.
    destruct (Hnth j inst inst' Hi Hi') as (_ & _ & Hcomp & Hbeams).
    cbv zeta. split.
    + rewrite Hcomp. f_equal. apply filter_ext. intros b.
      apply completes_false.
    + rewrite Hbeams.
      apply PyFacts.slice_to_Forall, PyFacts.sorted_Forall, Forall_forall.
      intros b Hb. apply filter_In in Hb as [Hin Hb].
      split; [exact Hin|].
      apply Bool.negb_true_iff in Hb. now rewrite completes_false in Hb.
  - destruct k as [|k].
    + inversion Hsteps; subst. eapply Hone, Hstep.
    + eapply (BeamFacts.steps_established env beam_width eos false key bsp
                (Spec.active_beams
                   (fun _ b => Spec.ends_with eos b = false)));
        [exact Hone|exact Hsteps].
Qed.

Lemma C4_eos_candidates_completed_witness :
  (exists output,
     generate (Reference.env Reference.lm_eos)
       (map LLM.create_tokens_prompt_from_beam
          (LLM.flatten_beams Reference.instances0))
       Reference.bsp2 false
       (map BeamSearchSequence.lora_request
          (LLM.flatten_beams Reference.instances0)) tt
     = (tt, Ok output)
     /\ length Reference.instances1 = length Reference.instances0
     /\ forall j instance instance',
          nth_error Reference.instances0 j = Some instance ->
          nth_error Reference.instances1 j = Some instance' ->
          let cands :=
            Spec.candidates output
              (length (LLM.flatten_beams (firstn j Reference.instances0)))
              (BeamSearchInstance.beams instance) in
          BeamSearchInstance.completed instance'
          = BeamSearchInstance.completed instance
            ++ filter (Spec.ends_with 2) cands
          /\ Forall (fun b => In b cands /\ Spec.ends_with 2 b = false)
               (BeamSearchInstance.beams instance'))
  /\ Spec.active_beams (fun _ b => Spec.ends_with 2 b = false)
       Reference.instances2.
Proof.
  apply (C4_eos_candidates_completed (Reference.env Reference.lm_eos) 2 2
           Reference.key2 Reference.bsp2 1 tt tt tt).
  - reflexivity.
  - apply (Spec.steps_S _ _ _ _ _ _ _ tt Reference.instances1
             tt Reference.instances2); [reflexivity|].
    apply Spec.steps_O.
Defined.

(** One step makes every active beam one token longer and leaves the
    prompt tokens of the instances alone. *)
Lemma steps_token_length {World} (env : Env World) beam_width eos ignore_eos
    key bsp k (w w' : World) insts insts' (lens : list nat) j :
  Spec.steps env beam_width eos ignore_eos key bsp k w insts w' insts' ->
  Forall2 (fun n inst =>
             Forall (fun b => length (BeamSearchSequence.tokens b)
                              = (n + j)%nat)
               (BeamSearchInstance.beams inst)) lens insts ->
  Forall2 (fun n inst =>
             Forall (fun b => length (BeamSearchSequence.tokens b)
                              = (n + (j + k))%nat)
               (BeamSearchInstance.beams inst)) lens insts'.
Proof.
  intros Hsteps. revert j.
  induction Hsteps as [w0 insts0|k w0 insts0 w1 insts1 w2 insts2 Hstep _ IH];
    intros j HJ.
  - now rewrite Nat.add_0_r.
  - replace (j + S k)%nat with (S j + k)%nat by lia. apply IH.
    apply BeamFacts.token_step_some in Hstep as (output & _ & _ & HF).
    clear IH. revert lens HJ.
    induction HF as [|inst inst' l l' (cands & Hi) _ IHF]; intros lens HJ;
      inversion HJ as [|n ? ns ? Hn Hns]; subst; constructor.
    + pose proof (BeamFacts.active_not_completing _ _ _ _ _ _ _ _ Hi) as Ha.
      destruct Hi as (Hc & _).
      rewrite Forall_forall in Hc, Hn, Ha |- *.
      intros b Hb. destruct (Ha b Hb) as [Hin _].
      destruct (Hc b Hin) as (parent & lp & Hp & _ & Hexp).
      apply BeamFacts.expands_tokens in Hexp as [t ->].
      rewrite length_app, (Hn parent Hp). simpl. lia.
    + now apply IHF.
Qed.

(** The cumulative log-probability of a candidate is that of its parent
    plus the log-probability of the token it appends. *)
Lemma new_beam_cum_logprob parent logprobs token_id logprob_obj :
  BeamSearchSequence.cum_logprob
    (LLM.new_beam parent logprobs token_id logprob_obj)
  = (BeamSearchSequence.cum_logprob parent + logprob logprob_obj)%Q.
Proof. reflexivity. Qed.

Lemma descends_cum_logprob a b :
  Spec.descends a b ->
  (BeamSearchSequence.cum_logprob b <= BeamSearchSequence.cum_logprob a)%Q.
Proof.
  induction 1 as [|b lp t lo _ IH Hlo].
  - apply Qle_refl.
  - rewrite new_beam_cum_logprob.
    eapply Qle_trans; [|exact IH].
    rewrite <- (Qplus_0_r (BeamSearchSequence.cum_logprob b)) at 2.
    apply Qplus_le_r. exact Hlo.
Qed.

Lemma descends_trans a b c :
  Spec.descends a b -> Spec.descends b c -> Spec.descends a c.
Proof.
  intros Hab Hbc. induction Hbc; [exact Hab|]. now constructor.
Qed.

(** Claim C7.  Suppose that every log-probability that [generate]
    returns is at most zero.  Then every beam that is active or
    completed after [k] steps was completed before or descends from a
    beam that was active [k] steps earlier by a chain of expansions,
    each of which adds the log-probability of the appended token, at
    most zero, to the cumulative log-probability of its parent
    ([new_beam_cum_logprob]); along the chain the cumulative
    log-probability does not increase. *)
Theorem C7_cum_logprob_nonincreasing {World} (env : Env World)
    (beam_width : Z) (eos : token) (ignore_eos : bool)
    (key : BeamSearchSequence.t -> Q) (bsp : SamplingParams.t)
    (k : nat) (w w' : World)
    (instances instances' : list BeamSearchInstance.t) :
  (forall prompts sp use_tqdm loras w0 w1 output,
     generate env prompts sp use_tqdm loras w0 = (w1, Ok output) ->
     Spec.nonpositive output = true) ->
  Spec.steps env beam_width eos ignore_eos key bsp k w instances w' instances' ->
  Forall2
    (fun instance instance' =>
       forall b,
         In b (BeamSearchInstance.beams instance')
         \/ In b (BeamSearchInstance.completed instance') ->
         In b (BeamSearchInstance.completed instance)
         \/ exists a,
              In a (BeamSearchInstance.beams instance)
              /\ Spec.descends a b
              /\ (BeamSearchSequence.cum_logprob b
                  <= BeamSearchSequence.cum_logprob a)%Q)
    instances instances'.
Proof.
  intros Hgen Hsteps.
  induction Hsteps as [w0 insts0|k w0 insts0 w1 insts1 w2 insts2 Hstep _ IH].
  - induction insts0 as [|inst insts0 IH]; constructor; [|exact IH].
    intros b [Hb|Hb]; [right|now left].
    exists b. split; [exact Hb|]. split; [constructor|apply Qle_refl].
  - apply BeamFacts.token_step_some in Hstep as (output & Hout & _ & HF).
    apply Hgen in Hout. clear Hgen.
    revert insts2 IH.
    induction HF as [|inst inst1 l l1 (cands & Hi) _ IHF]; intros insts2 IH;
      inversion IH as [|? inst2 ? l2 H12 Hl2]; subst; constructor;
      [|now apply IHF].
    assert (Hcands : Forall (fun c => exists a,
                       In a (BeamSearchInstance.beams inst)
                       /\ Spec.descends a c) cands).
    { destruct Hi as (Hc & _). eapply Forall_impl; [|exact Hc].
      intros c (parent & lp & Hp & Hoff & t & lo & Hin & ->).
      exists parent. split; [exact Hp|].
      constructor; [constructor|].
      pose proof (BeamFacts.nonpositive_offered _ _ Hout Hoff) as Hle.
      rewrite Forall_forall in Hle. exact (Hle _ Hin). }
    pose proof (BeamFacts.active_not_completing _ _ _ _ _ _ _ _ Hi) as Ha.
    destruct Hi as (_ & _ & _ & Hcomp & _).
    rewrite Forall_forall in Hcands, Ha.
    assert (H1 : forall c,
              In c (BeamSearchInstance.beams inst1)
              \/ In c (BeamSearchInstance.completed inst1) ->
              In c (BeamSearchInstance.completed inst)
              \/ exists a, In a (BeamSearchInstance.beams inst)
                           /\ Spec.descends a c).
    { intros c [Hc|Hc].
      - right. apply Hcands. now destruct (Ha c Hc).
      - rewrite Hcomp in Hc. apply in_app_or in Hc as [Hc|Hc];
          [now left|right].
        apply filter_In in Hc as [Hc _]. now apply Hcands. }
    intros b Hb. destruct (H12 b Hb) as [Hb1|(a1 & Ha1 & Hd1 & _)].
    + destruct (H1 b (or_intror Hb1)) as [?|(a & Hin & Hd)]; [now left|].
      right. exists a. split; [exact Hin|]. split; [exact Hd|].
      now apply descends_cum_logprob.
    + destruct (H1 a1 (or_introl Ha1)) as [Hc|(a & Hin & Hd)].
      * (* an active beam is never a formerly completed one: it descends
           from it all the same *)
        right. destruct (Ha a1 Ha1) as [Hin1 _].
        destruct (Hcands a1 Hin1) as (a & Hin & Hd).
        exists a. split; [exact Hin|].
        pose proof (descends_trans _ _ _ Hd Hd1) as Hd'.
        split; [exact Hd'|now apply descends_cum_logprob].
      * right. exists a. split; [exact Hin|].
        pose proof (descends_trans _ _ _ Hd Hd1) as Hd'.
        split; [exact Hd'|now apply descends_cum_logprob].
Qed.

Lemma reference_generate_nonpositive prompts sp use_tqdm loras w0 w1 output :
  generate (Reference.env Reference.lm_eos) prompts sp use_tqdm loras w0
  = (w1, Ok output) ->
  Spec.nonpositive output = true.
Proof.
  simpl. unfold Reference.generate_with, ret. intros [= _ <-].
  unfold Spec.nonpositive. apply forallb_forall. intros res Hres.
  apply in_map_iff in Hres as (p & <- & _). simpl.
  rewrite !Bool.andb_true_r. apply forallb_forall. intros item Hin.
  match type of Hin with
  | In _ (firstn ?k ?l) =>
      assert (Hin' : In item l)
        by (rewrite <- (firstn_skipn k l); apply in_or_app; now left)
  end.
  unfold Reference.lm_eos in Hin'. simpl in Hin'.
  destruct Hin' as [<-|[<-|[<-|[<-|[]]]]]; reflexivity.
Qed.

Lemma C7_cum_logprob_nonincreasing_witness :
  Forall2
    (fun instance instance' =>
       forall b,
         In b (BeamSearchInstance.beams instance')
         \/ In b (BeamSearchInstance.completed instance') ->
         In b (BeamSearchInstance.completed instance)
         \/ exists a,
              In a (BeamSearchInstance.beams instance)
              /\ Spec.descends a b
              /\ (BeamSearchSequence.cum_logprob b
                  <= BeamSearchSequence.cum_logprob a)%Q)
    Reference.instances0 Reference.instances2.
Proof.
  apply (C7_cum_logprob_nonincreasing (Reference.env Reference.lm_eos) 2 2
           false Reference.key2 Reference.bsp2 2 tt tt).
  - exact reference_generate_nonpositive.
  - apply (Spec.steps_S _ _ _ _ _ _ _ tt Reference.instances0
             tt Reference.instances1); [reflexivity|].
    apply (Spec.steps_S _ _ _ _ _ _ _ tt Reference.instances1
             tt Reference.instances2); [reflexivity|].
    apply Spec.steps_O.
Defined.

Lemma steps_prompt_tokens {World} (env : Env World) beam_width eos ignore_eos
    key bsp k (w w' : World) insts insts' :
  Spec.steps env beam_width eos ignore_eos key bsp k w insts w' insts' ->
  Forall2 (fun inst inst' =>
             BeamSearchInstance.prompt_tokens inst'
             = BeamSearchInstance.prompt_tokens inst) insts insts'.
Proof.
  induction 1 as [w0 insts0|k w0 insts0 w1 insts1 w2 insts2 Hstep _ IH].
  - induction insts0; constructor; auto.
  - apply BeamFacts.token_step_some in Hstep as (output & _ & _ & HF).
    revert insts2 IH.
    induction HF as [|inst inst1 l l1 (cands & Hi) _ IHF]; intros insts2 IH;
      inversion IH; subst; constructor; [|now apply IHF].
    destruct Hi as (_ & Hp & _). congruence.
Qed.

(** Claim C3.  When the step loop ends (whether the step budget is used
    up or the batch is empty), [beam_search] returns one
    [BeamSearchOutput] per prompt, in the order of the prompts.  The
    output of an instance is obtained from its completed list extended
    with its remaining active beams: this merged list is sorted by the
    scoring key in descending order and its first [beam_width] elements
    are kept (all of them when there are fewer); the sequences of the
    output are these, in this order, each with its text set to the
    decoding of its tokens and nothing else changed. *)
Theorem C3_final_selection {World} (env : Env World)
    (prompts : list PromptDict.t) (params : BeamSearchParams.t)
    (lora_request : LoraArg) (use_tqdm : bool)
    (loras : list (option LoRARequest)) (bsp : SamplingParams.t)
    (w w' : World) (instances0 instances : list BeamSearchInstance.t) :
  let beam_width := BeamSearchParams.beam_width params in
  let tokenizer := get_tokenizer env in
  let key := create_sort_beams_key_function env (eos_token_id tokenizer)
               (BeamSearchParams.length_penalty params) in
  LLM._get_beam_search_lora_requests lora_request prompts = Ok loras ->
  LLM.new_SamplingParams env (2 * beam_width) 1
    (BeamSearchParams.temperature params) = Ok bsp ->
  map_result (LLM.make_instance tokenizer) (combine loras prompts)
  = Ok instances0 ->
  LLM.token_loop env beam_width (eos_token_id tokenizer)
    (BeamSearchParams.ignore_eos params) key bsp
    (range (BeamSearchParams.max_tokens params)) instances0 w
  = (w', Ok instances) ->
  exists outputs,
    LLM.beam_search env prompts params lora_request use_tqdm w
    = (w', Ok outputs)
    /\ outputs = map (LLM.best_of_instance beam_width tokenizer key) instances
    /\ Forall2 (fun prompt instance =>
                  LLM.prompt_tokens_of tokenizer prompt
                  = Ok (BeamSearchInstance.prompt_tokens instance))
         prompts instances
    /\ Forall2
         (fun instance output =>
            let merged := BeamSearchInstance.completed instance
                          ++ BeamSearchInstance.beams instance in
            exists ranked,
              Permutation ranked merged
              /\ StronglySorted (fun a b => (key b <= key a)%Q) ranked
              /\ Forall2 (Spec.decoded tokenizer)
                   (slice_to ranked beam_width) (sequences output)
              /\ (0 <= beam_width ->
                  length (sequences output)
                  = Nat.min (Z.to_nat beam_width) (length merged)))
         instances outputs.
Proof.
  intros beam_width tokenizer key Hl Hsp H0 Hloop.
  exists (map (LLM.best_of_instance beam_width tokenizer key) instances).
  split; [|split; [reflexivity|split]].
  - unfold LLM.beam_search, bind, lift.
    fold beam_width tokenizer. rewrite Hl, Hsp.
    fold tokenizer in H0. rewrite H0.
    fold key. rewrite Hloop. reflexivity.
  - apply BeamFacts.token_loop_steps in Hloop as (k & _ & Hsteps & _).
    apply steps_prompt_tokens in Hsteps.
    apply BeamFacts.lora_requests_length in Hl.
    pose proof (BeamFacts.make_instances_spec _ _ _ _ Hl H0) as Hinit.
    clear - Hinit Hsteps. revert instances Hsteps.
    induction Hinit as [|p inst ps insts Hp _ IH]; intros instances Hsteps;
      inversion Hsteps; subst; constructor.
    + destruct Hp as [Hp _]. congruence.
    + now apply IH.
  - clear. induction instances as [|inst instances IH]; simpl;
      constructor; [|exact IH].
    exists (sorted Qltb key true
              (BeamSearchInstance.completed inst
               ++ BeamSearchInstance.beams inst)).
    split; [apply PyFacts.sorted_perm|].
    split; [apply PyFacts.sorted_descending|].
    split.
    + unfold LLM.best_of_instance. simpl.
      generalize (slice_to
                    (sorted Qltb key true
                       (BeamSearchInstance.completed inst
                        ++ BeamSearchInstance.beams inst)) beam_width).
      intros l. induction l as [|b l IHl]; simpl; constructor; [|exact IHl].
      unfold Spec.decoded. simpl. repeat split; reflexivity.
    + intros Hbw. unfold LLM.best_of_instance. simpl.
      rewrite length_map, PyFacts.slice_to_nonneg by exact Hbw.
      now rewrite length_firstn, PyFacts.sorted_length.
Qed.

Lemma C3_final_selection_witness :
  exists outputs,
    LLM.beam_search (Reference.env Reference.lm_plain)
      [Reference.tokens_prompt [5; 6]] (Reference.beam_params 2 3)
      LoraNone false tt
    = (tt, Ok outputs)
    /\ outputs
       = map (LLM.best_of_instance 2 Reference.tokenizer Reference.key2)
           Reference.instances_end
    /\ Forall2 (fun prompt instance =>
                  LLM.prompt_tokens_of Reference.tokenizer prompt
                  = Ok (BeamSearchInstance.prompt_tokens instance))
         [Reference.tokens_prompt [5; 6]] Reference.instances_end
    /\ Forall2
         (fun instance output =>
            let merged := BeamSearchInstance.completed instance
                          ++ BeamSearchInstance.beams instance in
            exists ranked,
              Permutation ranked merged
              /\ StronglySorted
                   (fun a b => (Reference.key2 b <= Reference.key2 a)%Q)
                   ranked
              /\ Forall2 (Spec.decoded Reference.tokenizer)
                   (slice_to ranked 2) (sequences output)
              /\ (0 <= 2 ->
                  length (sequences output)
                  = Nat.min (Z.to_nat 2) (length merged)))
         Reference.instances_end outputs.
Proof.
  exact (C3_final_selection (Reference.env Reference.lm_plain)
           [Reference.tokens_prompt [5; 6]] (Reference.beam_params 2 3)
           LoraNone false [None] Reference.bsp2 tt tt
           Reference.instances0 Reference.instances_end
           eq_refl eq_refl eq_refl eq_refl).
Defined.

(** Scenario B of the specification: width two, three steps, one prompt
    and no end of sequence give two sequences, each three tokens longer
    than the prompt. *)
Example scenario_B :
  Reference.tokens_of_outputs
    (LLM.beam_search (Reference.env Reference.lm_plain)
       [Reference.tokens_prompt [5; 6]] (Reference.beam_params 2 3)
       LoraNone false tt)
  = [[ [5; 6; 102; 103; 104]; [5; 6; 102; 103; 204] ]].
Proof. vm_compute. reflexivity. Qed.

(** Scenario C: an end of sequence proposed at the first step completes
    one candidate at once; the final output still has two sequences. *)
Example scenario_C :
  map (fun instance =>
         map BeamSearchSequence.tokens
           (BeamSearchInstance.completed instance)) Reference.instances1
  = [[ [5; 6; 2] ]]
  /\ Reference.tokens_of_outputs
       (LLM.beam_search (Reference.env Reference.lm_eos)
          [Reference.tokens_prompt [5; 6]] (Reference.beam_params 2 2)
          LoraNone false tt)
     = [[ [5; 6; 102; 103]; [5; 6; 2] ]].
Proof. vm_compute. split; reflexivity. Qed.

(** Claim C8.  An adapter-handle sequence whose length differs from the
    number of prompts makes [beam_search] raise [ValueError] at once:
    the world is returned as it was, and with it the log of the calls of
    [generate], whatever [generate] is. *)
Theorem C8_lora_length_mismatch {World} (env : Env World)
    (prompts : list PromptDict.t) (params : BeamSearchParams.t)
    (ls : list (option LoRARequest)) (use_tqdm : bool) (w : World)
    (log : list Observe.generate_call) :
  length ls <> length prompts ->
  LLM.beam_search env prompts params (LoraSeq ls) use_tqdm w
  = (w, Raise ValueError)
  /\ LLM.beam_search (Observe.logging env) prompts params (LoraSeq ls)
       use_tqdm (log, w)
     = ((log, w), Raise ValueError).
Proof.
  intros Hlen.
  assert (H : LLM._get_beam_search_lora_requests (LoraSeq ls) prompts
              = Raise ValueError).
  { unfold LLM._get_beam_search_lora_requests. simpl.
    apply Nat.eqb_neq in Hlen. now rewrite Hlen. }
  unfold LLM.beam_search, bind, lift. rewrite H. split; reflexivity.
Qed.

(** Scenario D of the specification: two handles for three prompts. *)
Lemma C8_lora_length_mismatch_witness :
  LLM.beam_search (Reference.env Reference.lm_eos)
    [Reference.tokens_prompt [1]; Reference.tokens_prompt [2];
     Reference.tokens_prompt [3]]
    (Reference.beam_params 2 3)
    (LoraSeq [Some {| lora_name := "a" |}; Some {| lora_name := "b" |}])
    false tt
  = (tt, Raise ValueError)
  /\ LLM.beam_search (Observe.logging (Reference.env Reference.lm_eos))
       [Reference.tokens_prompt [1]; Reference.tokens_prompt [2];
        Reference.tokens_prompt [3]]
       (Reference.beam_params 2 3)
       (LoraSeq [Some {| lora_name := "a" |}; Some {| lora_name := "b" |}])
       false ([], tt)
     = (([], tt), Raise ValueError).
Proof.
  apply (C8_lora_length_mismatch (Reference.env Reference.lm_eos)).
  simpl. lia.
Defined.

(** A step under observation: the same step, and one more entry in the
    log unless the batch is empty. *)
Lemma token_step_logging {World} (env : Env World) beam_width eos ignore_eos
    key bsp insts log (w : World) :
  exists calls,
    LLM.token_step (Observe.logging env) beam_width eos ignore_eos key bsp
      insts (log, w)
    = ((log ++ calls,
        fst (LLM.token_step env beam_width eos ignore_eos key bsp insts w)),
       snd (LLM.token_step env beam_width eos ignore_eos key bsp insts w))
    /\ (length calls <= 1)%nat
    /\ Forall (fun call => Observe.call_prompts call <> []
                           /\ Observe.call_params call = bsp) calls
    /\ (LLM.flatten_beams insts = [] -> calls = []).
Proof.
  unfold LLM.token_step.
  destruct (length (LLM.flatten_beams insts) =? 0)%nat eqn:Hlen.
  - exists []. rewrite app_nil_r. repeat split; auto.
  - unfold bind, lift, ret. cbn [generate Observe.logging].
    set (ps := map fst _). set (ls := map snd _).
    eexists [ _ ].
    split; [|split; [simpl; lia|split]].
    + destruct (generate env ps bsp false ls w) as [w1 [out|e|]]; simpl;
        try reflexivity.
      destruct (map_result _ _); reflexivity.
    + constructor; [|constructor]. simpl. split; [|reflexivity].
      subst ps. destruct (LLM.flatten_beams insts); [discriminate|].
      discriminate.
    + intros E. rewrite E in Hlen. discriminate.
Qed.

Lemma token_loop_logging {World} (env : Env World) beam_width eos ignore_eos
    key bsp token_iter insts log (w : World) :
  exists calls,
    LLM.token_loop (Observe.logging env) beam_width eos ignore_eos key bsp
      token_iter insts (log, w)
    = ((log ++ calls,
        fst (LLM.token_loop env beam_width eos ignore_eos key bsp
               token_iter insts w)),
       snd (LLM.token_loop env beam_width eos ignore_eos key bsp
              token_iter insts w))
    /\ (length calls <= length token_iter)%nat
    /\ Forall (fun call => Observe.call_prompts call <> []
                           /\ Observe.call_params call = bsp) calls.
Proof.
  revert insts log w.
  induction token_iter as [|t token_iter IH]; intros insts log w.
  - exists []. rewrite app_nil_r. simpl. repeat split; auto.
  - destruct (token_step_logging env beam_width eos ignore_eos key bsp
                insts log w) as (c1 & Hstep & Hlen1 & Hc1 & _).
    simpl LLM.token_loop. unfold bind. rewrite Hstep.
    destruct (LLM.token_step env beam_width eos ignore_eos key bsp insts w)
      as [w1 [[insts1|]|e|]]; simpl.
    + destruct (IH insts1 (log ++ c1) w1) as (c2 & Hloop & Hlen2 & Hc2).
      exists (c1 ++ c2). rewrite Hloop, app_assoc.
      split; [reflexivity|]. split.
      * rewrite length_app. lia.
      * now apply Forall_app.
    + exists c1. repeat split; auto. lia.
    + exists c1. repeat split; auto. lia.
    + exists c1. repeat split; auto. lia.
Qed.

Lemma length_range n : length (range n) = Z.to_nat n.
Proof. unfold range. now rewrite length_map, length_seq. Qed.

(** The loop stops at once on an empty batch, without a submission. *)
Lemma token_loop_empty {World} (env : Env World) beam_width eos ignore_eos
    key bsp token_iter insts (w : World) :
  LLM.flatten_beams insts = [] ->
  LLM.token_loop env beam_width eos ignore_eos key bsp token_iter insts w
  = (w, Ok insts).
Proof.
  intros Hempty. destruct token_iter as [|t token_iter]; [reflexivity|].
  simpl. unfold bind.
  now rewrite (BeamFacts.token_step_empty env _ _ _ _ _ _ _ Hempty).
Qed.

(** Claim C9.  Observed at [generate], a call of [beam_search] makes at
    most [max_tokens] batched submissions, none of them with an empty
    batch, and is otherwise the call without the observation, with the
    same outcome.  The step loop runs at most one step per element of
    [range(max_tokens)] and, when it returns, has either run them all
    or stopped on an empty batch ([BeamFacts.token_loop_steps]); on
    an empty batch it stops without a submission
    ([token_loop_empty]). *)
Theorem C9_step_budget {World} (env : Env World)
    (prompts : list PromptDict.t) (params : BeamSearchParams.t)
    (lora_request : LoraArg) (use_tqdm : bool) (w w' : World)
    (log : list Observe.generate_call)
    (r : result (list BeamSearchOutput)) :
  LLM.beam_search (Observe.logging env) prompts params lora_request use_tqdm
    ([], w) = ((log, w'), r) ->
  (length log <= Z.to_nat (BeamSearchParams.max_tokens params))%nat
  /\ Forall (fun call => Observe.call_prompts call <> []) log
  /\ LLM.beam_search env prompts params lora_request use_tqdm w = (w', r).
Proof.
  unfold LLM.beam_search, bind, lift.
  cbn [verify_args get_tokenizer create_sort_beams_key_function
       Observe.logging].
  destruct (LLM._get_beam_search_lora_requests lora_request prompts)
    as [loras|e|]; [|intros [= <- <- <-]; simpl; auto with arith..].
  unfold LLM.new_SamplingParams at 1 2.
  cbn [verify_args Observe.logging].
  match goal with |- context [verify_args env ?sp] =>
    set (bsp := sp); destruct (verify_args env bsp) end;
    [|intros [= <- <- <-]; simpl; auto with arith].
  destruct (map_result _ (combine loras prompts)) as [insts0|e|];
    [|intros [= <- <- <-]; simpl; auto with arith..].
  match goal with
  | |- context [LLM.token_loop (Observe.logging env) ?bw ?eos ?ig ?key ?sp
                  ?iter insts0 ([], w)] =>
      destruct (token_loop_logging env bw eos ig key sp iter insts0 [] w)
        as (calls & Hloop & Hlen & Hcalls); rewrite Hloop;
      destruct (LLM.token_loop env bw eos ig key sp iter insts0 w)
        as [w1 [insts| |]]
  end; simpl; intros [= <- <- <-]; rewrite length_range in Hlen;
    (split; [exact Hlen|]); (split; [|reflexivity]);
    (eapply Forall_impl; [|exact Hcalls]); now intros call [H _].
Qed.

Lemma C9_step_budget_witness :
  (length (fst (fst Reference.observed_run)) <= Z.to_nat 3)%nat
  /\ Forall (fun call => Observe.call_prompts call <> [])
       (fst (fst Reference.observed_run))
  /\ LLM.beam_search (Reference.env Reference.lm_plain)
       [Reference.tokens_prompt [5; 6]] (Reference.beam_params 2 3)
       LoraNone false tt
     = (tt, snd Reference.observed_run).
Proof.
  apply (C9_step_budget (Reference.env Reference.lm_plain)
           [Reference.tokens_prompt [5; 6]] (Reference.beam_params 2 3)
           LoraNone false tt tt (fst (fst Reference.observed_run))
           (snd Reference.observed_run)).
  vm_compute. reflexivity.
Defined.

(** ** Facts about the submission pipeline and the drain loop *)

Module PipelineFacts.

Import PyFacts LLM.

Lemma for_each_inv {S A} (I : S -> Prop) (xs : list A)
    (body : A -> M S unit) :
  (forall x s s' r, In x xs -> I s -> body x s = (s', r) -> I s') ->
  forall s s' r, I s -> for_each xs body s = (s', r) -> I s'.
Proof.
  induction xs as [|x xs IH]; intros Hbody s s' r Hs H.
  - inversion H; subst. exact Hs.
  - simpl in H. unfold bind in H.
    destruct (body x s) as [s1 [[]|e|]] eqn:Hx.
    + eapply IH; [|eapply Hbody; [now left|exact Hs|exact Hx]|exact H].
      intros y t t' r' Hy. apply Hbody. now right.
    + inversion H; subst. eapply Hbody; [now left|exact Hs|exact Hx].
    + inversion H; subst. eapply Hbody; [now left|exact Hs|exact Hx].
Qed.

(** The update of one parameter object without guided options. *)
Lemma finalize_sampling_params_spec {E} gpi r (w : World E) :
  finalize_sampling_params gpi None r w
  = (set_heap (match heap w !! r with
               | Some o => <[r := Spec.finalize_object o]> (heap w)
               | None => heap w
               end) w, Ok tt).
Proof.
  unfold finalize_sampling_params. destruct w as [c e h]. simpl.
  destruct (h !! r) as [[sp|pp]|] eqn:Hr; simpl; try reflexivity.
  unfold set_heap. simpl. now rewrite insert_id.
Qed.

Lemma finalize_object_idem o :
  Spec.finalize_object (Spec.finalize_object o) = Spec.finalize_object o.
Proof. now destruct o. Qed.

(** The loop over the parameter objects without guided options: it
    touches the store only, at the given references. *)
Lemma finalize_loop_spec {E} gpi rs (w : World E) :
  exists h',
    for_each rs (finalize_sampling_params gpi None) w = (set_heap h' w, Ok tt)
    /\ (forall r, In r rs ->
          h' !! r = Spec.finalize_object <$> (heap w !! r))
    /\ (forall r, ~ In r rs -> h' !! r = heap w !! r).
Proof.
  revert w. induction rs as [|r0 rs IH]; intros w.
  - exists (heap w). destruct w. simpl. repeat split; auto. now intros r [].
  - simpl. unfold bind. rewrite finalize_sampling_params_spec.
    set (h1 := match heap w !! r0 with
               | Some o => <[r0 := Spec.finalize_object o]> (heap w)
               | None => heap w
               end).
    destruct (IH (set_heap h1 w)) as (h' & Hrun & Hin & Hout).
    exists h'. split; [rewrite Hrun; now destruct w|].
    assert (H1 : forall r, h1 !! r
                 = if decide (r = r0)
                   then Spec.finalize_object <$> (heap w !! r)
                   else heap w !! r).
    { intros r. subst h1. destruct (decide (r = r0)) as [->|Hne].
      - destruct (heap w !! r0) eqn:E0; simpl.
        + now rewrite lookup_insert_eq.
        + now rewrite E0.
      - destruct (heap w !! r0); [|reflexivity].
        now rewrite lookup_insert_ne by congruence. }
    simpl in Hin, Hout. split.
    + intros r Hr.
      destruct (in_dec Nat.eq_dec r rs) as [Hrs|Hrs].
      * rewrite (Hin r Hrs), H1. destruct (decide (r = r0)); [|reflexivity].
        destruct (heap w !! r); simpl; [|reflexivity].
        now rewrite finalize_object_idem.
      * rewrite (Hout r Hrs), H1.
        destruct Hr as [->|Hr]; [|contradiction].
        now destruct (decide (r = r)).
    + intros r Hr. rewrite Hout by tauto. rewrite H1.
      destruct (decide (r = r0)) as [->|]; [|reflexivity].
      exfalso. apply Hr. now left.
Qed.

(** Past the length checks, the call is the loop over the parameter
    objects followed by the loop over the prompts. *)
Lemma validate_and_add_unfold {E} (engine : Engine E) gpi prompts params
    use_tqdm lora par svr tk go priority :
  Spec.shapes_agree prompts params lora ->
  _validate_and_add_requests engine gpi prompts params use_tqdm lora par svr
    tk go priority
  = bind (for_each (Spec.refs_of params) (finalize_sampling_params gpi go))
      (fun _ =>
         for_each (enumerate (Spec.prompts_of prompts))
           (add_request_at engine params lora par svr tk priority)).
Proof.
  intros [Hp Hl]. unfold _validate_and_add_requests.
  fold (Spec.prompts_of prompts). fold (Spec.refs_of params).
  destruct (params_is_sequence params) eqn:Eps; simpl.
  - rewrite (Hp eq_refl), Nat.eqb_refl. simpl.
    destruct (lora_is_sequence lora) eqn:Els; simpl; [|reflexivity].
    now rewrite (Hl eq_refl), Nat.eqb_refl.
  - destruct (lora_is_sequence lora) eqn:Els; simpl; [|reflexivity].
    now rewrite (Hl eq_refl), Nat.eqb_refl.
Qed.

(** One accepted submission. *)
Lemma add_request_at_ok {E} (engine : Engine E) params lora par svr tk
    priority i prompt (w w1 : World E) :
  add_request_at engine params lora par svr tk priority (i, prompt) w
  = (w1, Ok tt) ->
  exists req e1,
    add_request engine (heap w) req (llm_engine w) = (e1, Ok tt)
    /\ w1 = Build_World (S (request_counter w)) e1 (heap w)
    /\ Request.request_id req = str (Z.of_nat (request_counter w))
    /\ Request.prompt req = prompt
    /\ In (Request.params req) (Spec.refs_of params).
Proof.
  unfold add_request_at. intros H.
  apply bind_ok in H as (w2 & r & Hr & H). apply lift_ok in Hr as [-> Hr].
  apply bind_ok in H as (w2 & l & Hl & H). apply lift_ok in Hl as [-> Hl].
  apply bind_ok in H as (w2 & pr & Hpr & H). apply lift_ok in Hpr as [-> Hpr].
  unfold _add_request, on_engine in H. simpl in H.
  match type of H with
  | context [add_request engine _ ?rq _] => set (req := rq) in *
  end.
  destruct (add_request engine (heap w) req (llm_engine w)) as [e1 res]
    eqn:Hadd.
  inversion H; subst. exists req, e1. split; [exact Hadd|].
  split; [reflexivity|]. split; [reflexivity|]. split; [reflexivity|].
  simpl. destruct params as [r0|rs]; simpl in *.
  - inversion Hr. now left.
  - apply index_ok in Hr. eapply nth_error_In, Hr.
Qed.

(** The loop over the prompts, all submissions accepted: the requests
    join the unfinished ones under consecutive identifiers, in the order
    of the prompts. *)
Lemma add_loop_spec {E} (engine : Engine E) unfinished ticks
    params lora par svr tk priority items (w w1 : World E) :
  EngineContract engine unfinished ticks ->
  for_each items (add_request_at engine params lora par svr tk priority) w
  = (w1, Ok tt) ->
  heap w1 = heap w
  /\ request_counter w1 = (request_counter w + length items)%nat
  /\ exists reqs,
       Permutation (unfinished (llm_engine w1))
         (reqs ++ unfinished (llm_engine w))
       /\ map Request.request_id reqs
          = Spec.identifiers (request_counter w) (length items)
       /\ map Request.prompt reqs = map snd items.
Proof.
  intros C. revert w. induction items as [|[i prompt] items IH]; intros w H.
  - inversion H; subst. split; [reflexivity|]. split; [simpl; lia|].
    exists []. repeat split; reflexivity.
  - simpl in H. apply bind_ok in H as (w2 & [] & Hone & H).
    apply add_request_at_ok in Hone
      as (req & e1 & Hadd & -> & Hid & Hprompt & _).
    apply IH in H as (Hheap & Hcount & reqs & Hperm & Hids & Hprompts).
    simpl in Hheap, Hcount, Hperm, Hids.
    split; [exact Hheap|]. split; [simpl; lia|].
    exists (req :: reqs). split; [|split].
    + rewrite Hperm.
      rewrite (add_request_spec engine unfinished ticks C _ _ _ _ Hadd).
      simpl. symmetry. apply Permutation_middle.
    + simpl. unfold Spec.identifiers in *. simpl. now rewrite Hid, Hids.
    + simpl. now rewrite Hprompt, Hprompts.
Qed.

(** Finished outputs are collected in arrival order; the assertion of
    the progress bar holds for the outputs of a well-behaved engine. *)
Lemma collect_spec use_tqdm step_outputs outputs :
  Forall (fun o =>
            RequestOutput.finished o = true ->
            RequestOutput.pooling o = false ->
            is_Some (RequestOutput.prompt_token_ids o)) step_outputs ->
  collect use_tqdm step_outputs outputs
  = Ok (outputs ++ filter RequestOutput.finished step_outputs).
Proof.
  intros H. revert outputs.
  induction H as [|o step_outputs Ho _ IH]; intros outputs; simpl.
  - now rewrite app_nil_r.
  - destruct (RequestOutput.finished o) eqn:Hf; [|apply IH].
    rewrite IH, <- app_assoc. simpl.
    destruct use_tqdm; simpl; [|reflexivity].
    destruct (RequestOutput.pooling o) eqn:Hp; simpl; [reflexivity|].
    rewrite bool_decide_eq_true_2 by (now apply Ho). reflexivity.
Qed.

(** With enough fuel, the drain loop of a well-behaved engine returns:
    it has collected one finished output per unfinished request. *)
Lemma drain_spec {E} (engine : Engine E) unfinished ticks use_tqdm :
  EngineContract engine unfinished ticks ->
  forall fuel e outputs,
    (ticks e <= fuel)%nat ->
    exists e' outputs',
      drain engine use_tqdm fuel outputs e = (e', Ok outputs')
      /\ has_unfinished_requests engine e' = false
      /\ Permutation (map RequestOutput.request_id outputs')
           (map RequestOutput.request_id outputs
            ++ map Request.request_id (unfinished e))
      /\ (Forall (fun o => RequestOutput.finished o = true) outputs ->
          Forall (fun o => RequestOutput.finished o = true) outputs').
Proof.
  intros C fuel. induction fuel as [|fuel IH]; intros e outputs Hfuel.
  - destruct (has_unfinished_requests engine e) eqn:Hu.
    + destruct (step_spec engine unfinished ticks C e Hu)
        as (e' & outs & _ & _ & _ & Hlt). lia.
    + exists e, outputs. split; [simpl; now rewrite Hu|].
      split; [exact Hu|]. split; [|auto].
      assert (unfinished e = []) as ->.
      { destruct (unfinished e) eqn:Hx; [reflexivity|].
        assert (has_unfinished_requests engine e = true)
          by (apply (has_unfinished_spec engine unfinished ticks C);
              now rewrite Hx).
        congruence. }
      simpl. now rewrite app_nil_r.
  - destruct (has_unfinished_requests engine e) eqn:Hu.
    + destruct (step_spec engine unfinished ticks C e Hu)
        as (e1 & outs & Hstep & Hperm & Hids & Hlt).
      destruct (IH e1 (outputs ++ filter RequestOutput.finished outs))
        as (e' & outputs' & Hrun & Hdone & Hp' & Hfin); [lia|].
      exists e', outputs'. split; [|split; [exact Hdone|split]].
      * simpl. rewrite Hu. unfold bind. rewrite Hstep.
        unfold lift. rewrite (collect_spec _ _ _ Hids). exact Hrun.
      * rewrite Hp', map_app, <- app_assoc.
        apply Permutation_app_head. exact Hperm.
      * intros Hall. apply Hfin, Forall_app. split; [exact Hall|].
        apply Forall_forall. intros o Ho. now apply filter_In in Ho.
    + exists e, outputs. split; [simpl; now rewrite Hu|].
      split; [exact Hu|]. split; [|auto].
      assert (unfinished e = []) as ->.
      { destruct (unfinished e) eqn:Hx; [reflexivity|].
        assert (has_unfinished_requests engine e = true)
          by (apply (has_unfinished_spec engine unfinished ticks C);
              now rewrite Hx).
        congruence. }
      simpl. now rewrite app_nil_r.
Qed.

End PipelineFacts.

(** ** The pipeline: the claims *)

Import LLM.

Lemma validate_ok_shapes {E} (engine : Engine E) gpi prompts params
    use_tqdm lora par svr tk go priority (w w1 : World E) r :
  _validate_and_add_requests engine gpi prompts params use_tqdm lora par svr
    tk go priority w = (w1, r) ->
  r <> Raise ValueError \/ w1 <> w ->
  Spec.shapes_agree prompts params lora.
Proof.
  unfold _validate_and_add_requests.
  fold (Spec.prompts_of prompts).
  intros H Hr. split; intros Hs; rewrite Hs in H; simpl in H.
  - destruct (params_len params =? _)%nat eqn:E1;
      [now apply Nat.eqb_eq in E1|].
    simpl in H. inversion H; subst. destruct Hr; congruence.
  - destruct (params_is_sequence params && _); simpl in H.
    + inversion H; subst. destruct Hr; congruence.
    + destruct (lora_len lora =? _)%nat eqn:E1;
        [now apply Nat.eqb_eq in E1|].
      simpl in H. inversion H; subst. destruct Hr; congruence.
Qed.

Lemma finalize_loop_frame {E} gpi go rs (w w1 : World E) r :
  for_each rs (finalize_sampling_params gpi go) w = (w1, r) ->
  llm_engine w1 = llm_engine w /\ request_counter w1 = request_counter w.
Proof.
  apply (PipelineFacts.for_each_inv
           (fun s => llm_engine s = llm_engine w
                     /\ request_counter s = request_counter w));
    [|now split].
  intros x s s' r' _ [He Hc] Hx. unfold finalize_sampling_params in Hx.
  destruct (heap s !! x) as [[sp|pp]|]; try (inversion Hx; subst; now split).
  destruct (_add_guided_params gpi sp go); inversion Hx; subst; now split.
Qed.

Lemma enumerate_spec {A} (xs : list A) :
  length (enumerate xs) = length xs /\ map snd (enumerate xs) = xs.
Proof.
  unfold enumerate. generalize 0%nat.
  induction xs as [|x xs IH]; intros n; simpl; [now split|].
  destruct (IH (S n)) as [Hl Hm]. split; congruence.
Qed.

(** Claim C1.  Take a well-behaved engine with no unfinished request
    and a call of [_validate_and_add_requests] that submits [N] prompts.
    The prompts are submitted in order under the consecutive identifiers
    that the counter issues; then, given enough fuel for the ticks that
    the engine needs, [_run_engine] returns exactly [N] outputs, all
    finished, and the identifier of the [i]-th output is the identifier
    under which the [i]-th prompt was submitted, whatever the order in
    which the engine finished the requests. *)
Theorem C1_outputs_in_submission_order {E} (engine : Engine E)
    (unfinished : E -> list Request.t) (ticks : E -> nat)
    (gpi : GuidedDecodingParams.t -> bool)
    (prompts : PromptsArg) (params : ParamsArg) (use_tqdm : bool)
    (lora : LoraArg) (par : option PromptAdapterRequest)
    (svr : option SteerVectorRequest) (tk : option TokenizationKwargs)
    (go : option GuidedDecodingRequest.t) (priority : option (list Z))
    (w w1 : World E) (fuel : nat) (use_tqdm' : bool) :
  EngineContract engine unfinished ticks ->
  unfinished (llm_engine w) = [] ->
  _validate_and_add_requests engine gpi prompts params use_tqdm lora par svr
    tk go priority w = (w1, Ok tt) ->
  (ticks (llm_engine w1) <= fuel)%nat ->
  let N := length (Spec.prompts_of prompts) in
  exists reqs w2 outputs,
    Permutation (unfinished (llm_engine w1)) reqs
    /\ map Request.prompt reqs = Spec.prompts_of prompts
    /\ map Request.request_id reqs
       = Spec.identifiers (request_counter w) N
    /\ _run_engine engine fuel use_tqdm' w1 = (w2, Ok outputs)
    /\ length outputs = N
    /\ Forall (fun o => RequestOutput.finished o = true) outputs
    /\ map RequestOutput.request_id outputs
       = Spec.identifiers (request_counter w) N
    /\ has_unfinished_requests engine (llm_engine w2) = false.
Proof.
  intros C Hidle Hsub Hfuel N.
  assert (Hshape : Spec.shapes_agree prompts params lora).
  { eapply validate_ok_shapes; [exact Hsub|]. left. discriminate. }
  rewrite (PipelineFacts.validate_and_add_unfold _ _ _ _ _ _ _ _ _ _ _ Hshape)
    in Hsub.
  apply PyFacts.bind_ok in Hsub as (w0 & [] & Hfin & Hadd).
  apply finalize_loop_frame in Hfin as [He0 Hc0].
  apply (PipelineFacts.add_loop_spec engine unfinished ticks) in Hadd
    as (_ & _ & reqs & Hperm & Hids & Hprompts); [|exact C].
  destruct (enumerate_spec (Spec.prompts_of prompts)) as [Hlen Hsnd].
  rewrite Hlen, Hc0 in Hids. rewrite Hsnd in Hprompts.
  rewrite He0, Hidle, app_nil_r in Hperm. fold N in Hids.
  destruct (PipelineFacts.drain_spec engine unfinished ticks use_tqdm' C
              fuel (llm_engine w1) [] Hfuel)
    as (e2 & outs & Hdrain & Hdone & Hpout & Hfinished).
  simpl in Hpout. rewrite Hperm, Hids in Hpout.
  destruct (PyFacts.collate RequestOutput.request_id outs
              (request_counter w) N Hpout) as (l & Hsort & Hpl & Hl).
  exists reqs, (set_llm_engine e2 w1), l.
  split; [exact Hperm|]. split; [exact Hprompts|]. split; [exact Hids|].
  split; [|split; [|split; [|split]]].
  - unfold _run_engine, bind, on_engine. rewrite Hdrain. unfold lift.
    now rewrite Hsort.
  - rewrite <- (length_map RequestOutput.request_id), Hl.
    unfold Spec.identifiers. now rewrite length_map, length_seq.
  - eapply Permutation_Forall; [symmetry; exact Hpl|].
    apply Hfinished. constructor.
  - exact Hl.
  - exact Hdone.
Qed.

(** The last-in first-out engine is well behaved. *)
Lemma lifo_contract :
  EngineContract Reference.lifo (fun e => e) (fun e => length e).
Proof.
  split.
  - intros [|r e]; simpl; split; congruence.
  - intros h r e e' [= <-]. reflexivity.
  - intros [|r e] H; [discriminate|].
    exists e, (map (Reference.output_of false) e ++ [Reference.output_of true r]).
    split; [reflexivity|]. split; [|split].
    + rewrite filter_app. simpl.
      replace (filter RequestOutput.finished
                 (map (Reference.output_of false) e)) with
        (@nil RequestOutput.t)
        by (induction e; simpl; auto).
      reflexivity.
    + apply Forall_forall. intros o Ho _ _.
      apply in_app_or in Ho as [Ho|[<-|[]]].
      * apply in_map_iff in Ho as (x & <- & _). simpl. eauto.
      * simpl. eauto.
    + simpl. lia.
Qed.

(** Scenario A of the specification: three prompts that the engine
    finishes in the order 2, 1, 0 come back in the order 0, 1, 2. *)
Lemma C1_outputs_in_submission_order_witness :
  exists reqs w2 outputs,
    Permutation (llm_engine Reference.world1) reqs
    /\ map Request.prompt reqs = Reference.three_prompts
    /\ map Request.request_id reqs = Spec.identifiers 0%nat 3%nat
    /\ _run_engine Reference.lifo 3 true Reference.world1 = (w2, Ok outputs)
    /\ length outputs = 3%nat
    /\ Forall (fun o => RequestOutput.finished o = true) outputs
    /\ map RequestOutput.request_id outputs = Spec.identifiers 0%nat 3%nat
    /\ has_unfinished_requests Reference.lifo (llm_engine w2) = false.
Proof.
  apply (C1_outputs_in_submission_order Reference.lifo
           (fun e => e) (fun e => length e) Reference.accept_guided
           (PromptSeq Reference.three_prompts) (OneParams 0%nat) true
           LoraNone None None None None None
           Reference.world Reference.world1 3 true).
  - exact lifo_contract.
  - reflexivity.
  - vm_compute. reflexivity.
  - vm_compute. lia.
Defined.

Example scenario_A :
  snd (bind Reference.submit_three
         (fun _ => bind (_run_engine Reference.lifo 3 true)
                     (fun outputs =>
                        ret (map RequestOutput.request_id outputs)))
         Reference.world)
  = Ok ["0"%string; "1"%string; "2"%string]
  /\ map Request.request_id (llm_engine Reference.world1)
     = ["2"%string; "1"%string; "0"%string].
Proof. vm_compute. split; reflexivity. Qed.

(** A sequence of parameter objects or of adapter handles of the wrong
    length: [ValueError], and the world is what it was. *)
Lemma shape_error_no_side_effect {E} (engine : Engine E) gpi prompts params
    use_tqdm lora par svr tk go priority (w : World E) :
  (params_is_sequence params = true
   /\ params_len params <> length (Spec.prompts_of prompts))
  \/ (lora_is_sequence lora = true
      /\ lora_len lora <> length (Spec.prompts_of prompts)) ->
  _validate_and_add_requests engine gpi prompts params use_tqdm lora par svr
    tk go priority w = (w, Raise ValueError).
Proof.
  unfold _validate_and_add_requests. fold (Spec.prompts_of prompts).
  intros [[Hs Hl]|[Hs Hl]].
  - rewrite Hs. apply Nat.eqb_neq in Hl. rewrite Hl. reflexivity.
  - destruct (params_is_sequence params && _); [reflexivity|].
    rewrite Hs. apply Nat.eqb_neq in Hl. rewrite Hl. reflexivity.
Qed.

(** Claim C2, where the code departs from it.  The length of [priority]
    is not checked.  With three prompts and one priority the first
    request is submitted, under identifier 0, and [IndexError] is raised
    at the second prompt: the engine holds a request and the counter has
    moved.  With four priorities the call succeeds and the fourth is
    ignored. *)
Theorem C2_priority_length_unchecked :
  (let (w', r) :=
     _validate_and_add_requests Reference.lifo Reference.accept_guided
       (PromptSeq Reference.three_prompts) (OneParams 0%nat) true LoraNone
       None None None None (Some [5]) Reference.world in
   r = Raise IndexError
   /\ request_counter w' = 1%nat
   /\ map Request.request_id (llm_engine w') = ["0"%string]
   /\ map Request.priority (llm_engine w') = [5])
  /\ (let (w', r) :=
        _validate_and_add_requests Reference.lifo Reference.accept_guided
          (PromptSeq Reference.three_prompts) (OneParams 0%nat) true LoraNone
          None None None None (Some [5; 6; 7; 8]) Reference.world in
      r = Ok tt
      /\ request_counter w' = 3%nat
      /\ map Request.priority (llm_engine w') = [7; 6; 5]).
Proof. vm_compute. repeat split; reflexivity. Qed.

(** Under observation, a pass of the loop over the prompts leaves the
    store alone and shows it, as it is, to the engine. *)
Lemma add_request_at_recording {E} (engine : Engine E) params lora par svr
    tk priority ip
    (s s' : World (list (gmap ref Params * Request.t) * E)) r :
  add_request_at (Observe.recording engine) params lora par svr tk priority
    ip s = (s', r) ->
  heap s' = heap s
  /\ exists calls,
       fst (llm_engine s') = fst (llm_engine s) ++ calls
       /\ Forall (fun call : gmap ref Params * Request.t =>
                    fst call = heap s
                    /\ In (Request.params (snd call)) (Spec.refs_of params))
            calls.
Proof.
  destruct ip as [i prompt]. unfold add_request_at, bind, lift.
  assert (Hnone : heap s = heap s
                  /\ exists calls,
                       fst (llm_engine s) = fst (llm_engine s) ++ calls
                       /\ Forall (fun call : gmap ref Params * Request.t =>
                                    fst call = heap s
                                    /\ In (Request.params (snd call))
                                         (Spec.refs_of params)) calls).
  { split; [reflexivity|]. exists []. now rewrite app_nil_r. }
  destruct (match params with
            | ParamsSeq rs => index rs i
            | OneParams r0 => Ok r0
            end) as [r0|e|] eqn:Hr; try (intros [= <- <-]; exact Hnone).
  destruct (match lora with
            | LoraSeq ls => index ls i
            | LoraOne l => Ok (Some l)
            | LoraNone => Ok None
            end) as [l|e|]; try (intros [= <- <-]; exact Hnone).
  destruct (match priority with
            | Some (p :: ps) => index (p :: ps) i
            | _ => Ok 0
            end) as [pr|e|]; try (intros [= <- <-]; exact Hnone).
  unfold _add_request, on_engine. simpl.
  destruct (llm_engine s) as [log e0] eqn:He.
  destruct (add_request engine (heap s) _ e0) as [e1 res].
  intros [= <- <-]. simpl. split; [reflexivity|].
  eexists [ _ ]. split; [reflexivity|].
  constructor; [|constructor]. simpl. split; [reflexivity|].
  destruct params as [r1|rs]; simpl in *.
  - inversion Hr. now left.
  - apply PyFacts.index_ok in Hr. eapply nth_error_In, Hr.
Qed.

(** Claim C10.  Take a call that passes the length checks, without
    guided-decoding options, and observe the engine.  Whatever the
    outcome of the submissions: every [SamplingParams] object that the
    caller passed is updated in place, its [output_kind] is [FINAL_ONLY]
    and its other fields are what they were; every other object is what
    it was; and every request reached the engine after these updates,
    with a reference to an object of the caller (the one object, in the
    broadcast case), so that the update is what the caller sees when the
    call returns. *)
Theorem C10_output_kind_final_only {E} (engine : Engine E)
    (gpi : GuidedDecodingParams.t -> bool)
    (prompts : PromptsArg) (params : ParamsArg) (use_tqdm : bool)
    (lora : LoraArg) (par : option PromptAdapterRequest)
    (svr : option SteerVectorRequest) (tk : option TokenizationKwargs)
    (priority : option (list Z))
    (w w' : World (list (gmap ref Params * Request.t) * E))
    (res : result unit) :
  Spec.shapes_agree prompts params lora ->
  _validate_and_add_requests (Observe.recording engine) gpi prompts params
    use_tqdm lora par svr tk None priority w = (w', res) ->
  (forall r sp,
     In r (Spec.refs_of params) ->
     heap w !! r = Some (Sampling sp) ->
     exists sp',
       heap w' !! r = Some (Sampling sp')
       /\ SamplingParams.output_kind sp' = FINAL_ONLY
       /\ SamplingParams.logprobs sp' = SamplingParams.logprobs sp
       /\ SamplingParams.max_tokens sp' = SamplingParams.max_tokens sp
       /\ SamplingParams.temperature sp' = SamplingParams.temperature sp
       /\ SamplingParams.truncate_prompt_tokens sp'
          = SamplingParams.truncate_prompt_tokens sp
       /\ SamplingParams.guided_decoding sp'
          = SamplingParams.guided_decoding sp
       /\ SamplingParams.other_fields sp' = SamplingParams.other_fields sp)
  /\ (forall r pp, heap w !! r = Some (Pooling pp) ->
                   heap w' !! r = Some (Pooling pp))
  /\ (forall r, ~ In r (Spec.refs_of params) -> heap w' !! r = heap w !! r)
  /\ exists calls,
       fst (llm_engine w') = fst (llm_engine w) ++ calls
       /\ Forall (fun call : gmap ref Params * Request.t =>
                    fst call = heap w'
                    /\ In (Request.params (snd call)) (Spec.refs_of params))
            calls.
Proof.
  intros Hshape H.
  rewrite (PipelineFacts.validate_and_add_unfold _ _ _ _ _ _ _ _ _ _ _ Hshape)
    in H.
  unfold bind in H.
  destruct (PipelineFacts.finalize_loop_spec gpi (Spec.refs_of params) w)
    as (h' & Hfin & Hin & Hout).
  rewrite Hfin in H.
  assert (Hloop : heap w' = h'
          /\ exists calls,
               fst (llm_engine w') = fst (llm_engine w) ++ calls
               /\ Forall (fun call : gmap ref Params * Request.t =>
                            fst call = h'
                            /\ In (Request.params (snd call))
                                 (Spec.refs_of params)) calls).
  { revert H.
    apply (PipelineFacts.for_each_inv
             (fun s : World (list (gmap ref Params * Request.t) * E) =>
                heap s = h'
                /\ exists calls,
                     fst (llm_engine s) = fst (llm_engine w) ++ calls
                     /\ Forall (fun call : gmap ref Params * Request.t =>
                                  fst call = h'
                                  /\ In (Request.params (snd call))
                                       (Spec.refs_of params)) calls)).
    - intros ip s s' r _ (Hh & calls & Hlog & Hcalls) Hbody.
      apply add_request_at_recording in Hbody
        as (Hh' & calls' & Hlog' & Hcalls').
      split; [congruence|]. exists (calls ++ calls').
      split; [rewrite Hlog', Hlog; now rewrite app_assoc|].
      apply Forall_app. split; [exact Hcalls|].
      eapply Forall_impl; [|exact Hcalls']. intros c [H1 H2].
      split; [congruence|exact H2].
    - split; [reflexivity|]. exists []. simpl.
      split; [now rewrite app_nil_r|constructor]. }
  destruct Hloop as (Hh & calls & Hlog & Hcalls). rewrite Hh.
  split; [|split; [|split]].
  - intros r sp Hr Hsp. rewrite (Hin r Hr), Hsp. simpl.
    eexists. split; [reflexivity|]. simpl. repeat split; reflexivity.
  - intros r pp Hpp.
    destruct (in_dec Nat.eq_dec r (Spec.refs_of params)) as [Hr|Hr].
    + now rewrite (Hin r Hr), Hpp.
    + now rewrite (Hout r Hr).
  - exact Hout.
  - exists calls. split; [exact Hlog|exact Hcalls].
Qed.

Lemma C10_output_kind_final_only_witness :
  (exists sp',
     heap Reference.observed_world1 !! 0%nat = Some (Sampling sp')
     /\ SamplingParams.output_kind sp' = FINAL_ONLY
     /\ SamplingParams.logprobs sp'
        = SamplingParams.logprobs Reference.sampling_params
     /\ SamplingParams.max_tokens sp'
        = SamplingParams.max_tokens Reference.sampling_params
     /\ SamplingParams.temperature sp'
        = SamplingParams.temperature Reference.sampling_params
     /\ SamplingParams.truncate_prompt_tokens sp'
        = SamplingParams.truncate_prompt_tokens Reference.sampling_params
     /\ SamplingParams.guided_decoding sp'
        = SamplingParams.guided_decoding Reference.sampling_params
     /\ SamplingParams.other_fields sp'
        = SamplingParams.other_fields Reference.sampling_params)
  /\ exists calls,
       fst (llm_engine Reference.observed_world1)
       = fst (llm_engine Reference.observed_world) ++ calls
       /\ Forall (fun call : gmap ref Params * Request.t =>
                    fst call = heap Reference.observed_world1
                    /\ In (Request.params (snd call)) [0%nat])
            calls.
Proof.
  assert (Hshape : Spec.shapes_agree (PromptSeq Reference.three_prompts)
                     (OneParams 0%nat) LoraNone).
  { split; simpl; discriminate. }
  assert (Hrun : Reference.observed_submit_three Reference.observed_world
                 = (Reference.observed_world1, Ok tt)).
  { vm_compute. reflexivity. }
  destruct (C10_output_kind_final_only Reference.lifo
              Reference.accept_guided (PromptSeq Reference.three_prompts)
              (OneParams 0%nat) true LoraNone None None None None
              Reference.observed_world Reference.observed_world1 (Ok tt)
              Hshape Hrun) as (H1 & _ & _ & H4).
  split; [|exact H4].
  apply (H1 0%nat Reference.sampling_params); [now left|reflexivity].
Defined.

(** ** Further properties of beam search *)

(** Property X1.
    [beam_search] never accepts a sequence of adapter handles, although
    its signature allows one: a sequence of the wrong length is a
    [ValueError], a sequence of the right length a [TypeError]; in both
    cases nothing has happened to the world. *)
Theorem beam_search_lora_sequence_rejected {World} (env : Env World)
    (prompts : list PromptDict.t) (params : BeamSearchParams.t)
    (ls : list (option LoRARequest)) (use_tqdm : bool) (w : World) :
  LLM.beam_search env prompts params (LoraSeq ls) use_tqdm w
  = (w, Raise (if (length ls =? length prompts)%nat
               then TypeError else ValueError)).
Proof.
  unfold LLM.beam_search, bind, lift, LLM._get_beam_search_lora_requests.
  simpl. destruct (length ls =? length prompts)%nat; reflexivity.
Qed.

(** Property X2.
    A prompt with neither [prompt_token_ids] nor [prompt] makes
    [beam_search] raise [KeyError] before anything is submitted. *)
Theorem beam_search_prompt_without_tokens_or_text {World} (env : Env World)
    (prompts : list PromptDict.t) (params : BeamSearchParams.t)
    (lora_request : LoraArg) (use_tqdm : bool) (w : World)
    (loras : list (option LoRARequest)) (bsp : SamplingParams.t)
    (prompt : PromptDict.t) :
  LLM._get_beam_search_lora_requests lora_request prompts = Ok loras ->
  LLM.new_SamplingParams env (2 * BeamSearchParams.beam_width params) 1
    (BeamSearchParams.temperature params) = Ok bsp ->
  In prompt prompts ->
  PromptDict.prompt_token_ids prompt = None ->
  PromptDict.prompt prompt = None ->
  LLM.beam_search env prompts params lora_request use_tqdm w
  = (w, Raise KeyError).
Proof.
  intros Hl Hsp Hin Hids Htext.
  unfold LLM.beam_search, bind, lift. rewrite Hl, Hsp.
  apply BeamFacts.lora_requests_length in Hl.
  assert (H : map_result (LLM.make_instance (get_tokenizer env))
                (combine loras prompts) = Raise KeyError).
  { clear Hsp. revert loras Hl.
    induction prompts as [|p prompts IH]; intros [|l loras] Hl;
      simpl in *; try discriminate; [contradiction|].
    destruct Hin as [->|Hin].
    - unfold LLM.prompt_tokens_of. now rewrite Hids, Htext.
    - unfold LLM.prompt_tokens_of at 1.
      destruct (PromptDict.prompt_token_ids p); simpl.
      + rewrite (IH Hin loras) by lia. reflexivity.
      + destruct (PromptDict.prompt p); simpl; [|reflexivity].
        rewrite (IH Hin loras) by lia. reflexivity. }
  now rewrite H.
Qed.

Lemma beam_search_prompt_without_tokens_or_text_witness :
  LLM.beam_search (Reference.env Reference.lm_eos)
    [Reference.tokens_prompt [5];
     {| PromptDict.prompt := None; PromptDict.prompt_token_ids := None;
        PromptDict.multi_modal_data := Some "image"%string;
        PromptDict.mm_processor_kwargs := None |}]
    (Reference.beam_params 2 3) LoraNone false tt
  = (tt, Raise KeyError).
Proof.
  apply (beam_search_prompt_without_tokens_or_text
           (Reference.env Reference.lm_eos) _ _ _ _ _ [None; None]
           Reference.bsp2
           {| PromptDict.prompt := None; PromptDict.prompt_token_ids := None;
              PromptDict.multi_modal_data := Some "image"%string;
              PromptDict.mm_processor_kwargs := None |}).
  - reflexivity.
  - reflexivity.
  - simpl. right. left. reflexivity.
  - reflexivity.
  - reflexivity.
Defined.

(** A step under observation, with the call it records. *)
Lemma token_step_logging_call {World} (env : Env World) beam_width eos
    ignore_eos key bsp insts log (w : World) :
  exists calls,
    LLM.token_step (Observe.logging env) beam_width eos ignore_eos key bsp
      insts (log, w)
    = ((log ++ calls,
        fst (LLM.token_step env beam_width eos ignore_eos key bsp insts w)),
       snd (LLM.token_step env beam_width eos ignore_eos key bsp insts w))
    /\ (calls = [] \/ calls = [Expect.call_of bsp insts]).
Proof.
  unfold LLM.token_step.
  destruct (length (LLM.flatten_beams insts) =? 0)%nat eqn:Hlen.
  - exists []. rewrite app_nil_r. split; auto.
  - unfold bind, lift, ret. cbn [generate Observe.logging].
    exists [Expect.call_of bsp insts]. split; [|now right].
    unfold Expect.call_of. rewrite !map_map. simpl.
    destruct (generate env _ bsp false _ w) as [w1 [out|e|]]; simpl;
      try reflexivity.
    destruct (map_result _ _); reflexivity.
Qed.

(** The calls that a loop under observation records, for instances that
    keep an invariant. *)
Lemma token_loop_logging_inv {World} (env : Env World) beam_width eos
    ignore_eos key bsp
    (P : list BeamSearchInstance.t -> Prop)
    (Q : Observe.generate_call -> Prop) :
  (forall insts, P insts -> Q (Expect.call_of bsp insts)) ->
  (forall insts w w' insts',
     P insts ->
     LLM.token_step env beam_width eos ignore_eos key bsp insts w
     = (w', Ok (Some insts')) -> P insts') ->
  forall token_iter insts log (w : World),
    P insts ->
    exists calls,
      LLM.token_loop (Observe.logging env) beam_width eos ignore_eos key bsp
        token_iter insts (log, w)
      = ((log ++ calls,
          fst (LLM.token_loop env beam_width eos ignore_eos key bsp
                 token_iter insts w)),
         snd (LLM.token_loop env beam_width eos ignore_eos key bsp
                token_iter insts w))
      /\ Forall Q calls.
Proof.
  intros HQ HP token_iter.
  induction token_iter as [|t token_iter IH]; intros insts log w Hinsts.
  - exists []. rewrite app_nil_r. simpl. split; auto.
  - destruct (token_step_logging_call env beam_width eos ignore_eos key bsp
                insts log w) as (c1 & Hstep & Hc1).
    assert (Hq1 : Forall Q c1).
    { destruct Hc1 as [->| ->]; [constructor|].
      constructor; [now apply HQ|constructor]. }
    simpl LLM.token_loop. unfold bind. rewrite Hstep.
    destruct (LLM.token_step env beam_width eos ignore_eos key bsp insts w)
      as [w1 [[insts1|]|e|]] eqn:Hs; simpl.
    + destruct (IH insts1 (log ++ c1) w1) as (c2 & Hloop & Hc2).
      { eapply HP; [exact Hinsts|exact Hs]. }
      exists (c1 ++ c2). rewrite Hloop, app_assoc.
      split; [reflexivity|]. now apply Forall_app.
    + exists c1. split; auto.
    + exists c1. split; auto.
    + exists c1. split; auto.
Qed.

(** What a call of [beam_search] under observation comes down to. *)
Lemma beam_search_logging_loop {World} (env : Env World) prompts params
    lora_request use_tqdm (w w' : World) log r :
  LLM.beam_search (Observe.logging env) prompts params lora_request use_tqdm
    ([], w) = ((log, w'), r) ->
  log = []
  \/ exists loras bsp insts0 r',
       LLM._get_beam_search_lora_requests lora_request prompts = Ok loras
       /\ LLM.new_SamplingParams env
            (2 * BeamSearchParams.beam_width params) 1
            (BeamSearchParams.temperature params) = Ok bsp
       /\ map_result (LLM.make_instance (get_tokenizer env))
            (combine loras prompts) = Ok insts0
       /\ LLM.token_loop (Observe.logging env)
            (BeamSearchParams.beam_width params)
            (eos_token_id (get_tokenizer env))
            (BeamSearchParams.ignore_eos params)
            (create_sort_beams_key_function env
               (eos_token_id (get_tokenizer env))
               (BeamSearchParams.length_penalty params))
            bsp (range (BeamSearchParams.max_tokens params)) insts0 ([], w)
          = ((log, w'), r').
Proof.
  unfold LLM.beam_search, bind, lift.
  cbn [verify_args get_tokenizer create_sort_beams_key_function
       Observe.logging].
  destruct (LLM._get_beam_search_lora_requests lora_request prompts)
    as [loras|e|]; [|intros [= <- <- <-]; now left..].
  unfold LLM.new_SamplingParams.
  cbn [verify_args Observe.logging].
  match goal with |- context [verify_args env ?sp] =>
    set (bsp := sp); destruct (verify_args env bsp) eqn:Hv end;
    [|intros [= <- <- <-]; now left].
  destruct (map_result _ (combine loras prompts)) as [insts0|e|] eqn:Hinst;
    [|intros [= <- <- <-]; now left..].
  match goal with
  | |- context [LLM.token_loop (Observe.logging env) ?bw ?eos ?ig ?key ?sp
                  ?iter insts0 ([], w)] =>
      destruct (LLM.token_loop (Observe.logging env) bw eos ig key sp
                  iter insts0 ([], w)) as [[log1 w1] r1] eqn:Hloop
  end.
  intros H. right. exists loras, bsp, insts0, r1.
  split; [reflexivity|]. split; [reflexivity|]. split; [exact Hinst|].
  destruct r1; inversion H; subst; exact Hloop.
Qed.

(** Claim C6.  The continuation requests ask for exactly one new token:
    whatever its arguments and its outcome, every call of [generate]
    that [beam_search] makes passes parameters with [max_tokens] 1 (and
    [2 * beam_width] log-probabilities); these are the parameters [bsp]
    of the steps.  Every expansion appends one token, and so, after [k]
    steps, every active beam of the instance of a prompt is as long as
    the tokens of that prompt plus [k]. *)
Theorem C6_token_length {World} (env : Env World)
    (prompts : list PromptDict.t) (lora_request : LoraArg)
    (loras : list (option LoRARequest))
    (beam_width : Z) (temperature : Q) (ignore_eos : bool)
    (key : BeamSearchSequence.t -> Q) (bsp : SamplingParams.t)
    (k : nat) (w w' : World)
    (instances0 instances : list BeamSearchInstance.t) :
  LLM._get_beam_search_lora_requests lora_request prompts = Ok loras ->
  LLM.new_SamplingParams env (2 * beam_width) 1 temperature = Ok bsp ->
  map_result (LLM.make_instance (get_tokenizer env)) (combine loras prompts)
  = Ok instances0 ->
  Spec.steps env beam_width (eos_token_id (get_tokenizer env)) ignore_eos
    key bsp k w instances0 w' instances ->
  SamplingParams.max_tokens bsp = Some 1
  /\ (forall (prompts' : list PromptDict.t) (params : BeamSearchParams.t)
        (lora_request' : LoraArg) (use_tqdm : bool) (u u' : World)
        (log : list Observe.generate_call)
        (r : result (list BeamSearchOutput)),
        LLM.beam_search (Observe.logging env) prompts' params lora_request'
          use_tqdm ([], u) = ((log, u'), r) ->
        Forall (fun call =>
                  SamplingParams.max_tokens (Observe.call_params call)
                  = Some 1
                  /\ SamplingParams.logprobs (Observe.call_params call)
                     = Some (2 * BeamSearchParams.beam_width params)
                  /\ (BeamSearchParams.beam_width params = beam_width ->
                      BeamSearchParams.temperature params = temperature ->
                      Observe.call_params call = bsp))
          log)
  /\ Forall2
       (fun prompt instance => exists ids,
          LLM.prompt_tokens_of (get_tokenizer env) prompt = Ok ids
          /\ Forall (fun b => length (BeamSearchSequence.tokens b)
                              = (length ids + k)%nat)
               (BeamSearchInstance.beams instance))
       prompts instances.
Proof.
  intros Hl Hsp H0 Hsteps. split; [|split].
  { unfold LLM.new_SamplingParams in Hsp.
    destruct (verify_args env _); now inversion Hsp. }
  { intros prompts' params lora_request' use_tqdm u u' log r Hrun.
    apply beam_search_logging_loop in Hrun
      as [->|(loras' & bsp' & insts0 & r' & _ & Hsp' & _ & Hloop)];
      [constructor|].
    destruct (token_loop_logging env (BeamSearchParams.beam_width params)
                (eos_token_id (get_tokenizer env))
                (BeamSearchParams.ignore_eos params)
                (create_sort_beams_key_function env
                   (eos_token_id (get_tokenizer env))
                   (BeamSearchParams.length_penalty params))
                bsp' (range (BeamSearchParams.max_tokens params)) insts0
                [] u) as (calls & Hlog & _ & Hcalls).
    rewrite Hlog in Hloop. inversion Hloop; subst log. simpl.
    eapply Forall_impl; [|exact Hcalls].
    intros call [_ ->].
    unfold LLM.new_SamplingParams in Hsp', Hsp.
    destruct (verify_args env _) in Hsp'; [|discriminate].
    inversion Hsp'; subst bsp'. simpl.
    split; [reflexivity|]. split; [reflexivity|].
    intros -> ->.
    destruct (verify_args env _) in Hsp; [|discriminate].
    now inversion Hsp. }
  apply BeamFacts.lora_requests_length in Hl.
  pose proof (BeamFacts.make_instances_spec _ _ _ _ Hl H0) as Hinit.
  clear Hl.
  set (ids_of := fun p =>
         match LLM.prompt_tokens_of (get_tokenizer env) p with
         | Ok ids => ids
         | _ => []
         end).
  assert (HJ : Forall2
                 (fun n inst =>
                    Forall (fun b => length (BeamSearchSequence.tokens b)
                                     = (n + 0)%nat)
                      (BeamSearchInstance.beams inst))
                 (map (fun p => length (ids_of p)) prompts) instances0).
  { clear Hsteps H0. induction Hinit as [|p inst ps insts Hp _ IH];
      [constructor|]. cbn [map]. constructor; [|apply IH].
    destruct Hp as (Hids & _ & b & -> & Hb & _).
    constructor; [|constructor].
    unfold ids_of. rewrite Hids, Hb. lia. }
  pose proof (steps_token_length _ _ _ _ _ _ _ _ _ _ _ _ _ Hsteps HJ) as HK.
  simpl in HK.
  assert (Hok : Forall (fun p => LLM.prompt_tokens_of (get_tokenizer env) p
                                 = Ok (ids_of p)) prompts).
  { clear HJ HK Hsteps H0. induction Hinit as [|p inst ps insts Hp _ IH];
      [constructor|]. constructor; [|exact IH].
    destruct Hp as (Hids & _). unfold ids_of. now rewrite Hids. }
  clear Hinit HJ Hsteps H0. revert instances HK.
  induction Hok as [|p ps Hp _ IH]; intros instances HK;
    inversion HK; subst; constructor.
  - exists (ids_of p). split; [exact Hp|assumption].
  - now apply IH.
Qed.

Lemma C6_token_length_witness :
  SamplingParams.max_tokens Reference.bsp2 = Some 1
  /\ (forall (prompts' : list PromptDict.t) (params : BeamSearchParams.t)
        (lora_request' : LoraArg) (use_tqdm : bool) (u u' : unit)
        (log : list Observe.generate_call)
        (r : result (list BeamSearchOutput)),
        LLM.beam_search (Observe.logging (Reference.env Reference.lm_eos))
          prompts' params lora_request' use_tqdm ([], u) = ((log, u'), r) ->
        Forall (fun call =>
                  SamplingParams.max_tokens (Observe.call_params call)
                  = Some 1
                  /\ SamplingParams.logprobs (Observe.call_params call)
                     = Some (2 * BeamSearchParams.beam_width params)
                  /\ (BeamSearchParams.beam_width params = 2 ->
                      BeamSearchParams.temperature params = 0%Q ->
                      Observe.call_params call = Reference.bsp2))
          log)
  /\ Forall2
       (fun prompt instance => exists ids,
          LLM.prompt_tokens_of Reference.tokenizer prompt = Ok ids
          /\ Forall (fun b => length (BeamSearchSequence.tokens b)
                              = (length ids + 2)%nat)
               (BeamSearchInstance.beams instance))
       [Reference.tokens_prompt [5; 6]] Reference.instances2.
Proof.
  apply (C6_token_length (Reference.env Reference.lm_eos)
           [Reference.tokens_prompt [5; 6]] LoraNone [None] 2 0 false
           Reference.key2 Reference.bsp2 2 tt tt Reference.instances0
           Reference.instances2).
  - reflexivity.
  - reflexivity.
  - reflexivity.
  - apply (Spec.steps_S _ _ _ _ _ _ _ tt Reference.instances0
             tt Reference.instances1); [reflexivity|].
    apply (Spec.steps_S _ _ _ _ _ _ _ tt Reference.instances1
             tt Reference.instances2); [reflexivity|].
    apply Spec.steps_O.
Defined.

Lemma lora_requests_value lora prompts loras :
  LLM._get_beam_search_lora_requests lora prompts = Ok loras ->
  loras = repeat (Expect.handle_of lora) (length prompts).
Proof.
  unfold LLM._get_beam_search_lora_requests.
  destruct (lora_is_sequence lora && _); [discriminate|].
  destruct lora; intros [= <-]; reflexivity.
Qed.

Lemma make_instances_lora tokenizer h prompts insts :
  map_result (LLM.make_instance tokenizer)
    (combine (repeat h (length prompts)) prompts) = Ok insts ->
  Spec.active_beams (fun _ b => BeamSearchSequence.lora_request b = h) insts.
Proof.
  revert insts. induction prompts as [|p prompts IH]; intros insts H;
    simpl in H.
  - inversion H. constructor.
  - apply PyFacts.rbind_ok in H as (inst & Hinst & H).
    apply PyFacts.rbind_ok in H as (insts' & Hrest & H). inversion H; subst.
    apply PyFacts.rbind_ok in Hinst as (ids & _ & Hinst).
    inversion Hinst; subst.
    constructor; [|now apply IH]. simpl. constructor; [reflexivity|constructor].
Qed.

Lemma step_keeps_lora {World} (env : Env World) beam_width eos ignore_eos
    key bsp h insts (w w' : World) insts' :
  Spec.active_beams (fun _ b => BeamSearchSequence.lora_request b = h) insts ->
  LLM.token_step env beam_width eos ignore_eos key bsp insts w
  = (w', Ok (Some insts')) ->
  Spec.active_beams (fun _ b => BeamSearchSequence.lora_request b = h) insts'.
Proof.
  intros HP Hstep.
  apply BeamFacts.token_step_some in Hstep as (output & _ & _ & HF).
  unfold Spec.active_beams in *.
  induction HF as [|inst inst' l l' (cands & Hi) _ IH];
    inversion HP; subst; constructor; [|now apply IH].
  pose proof (BeamFacts.active_not_completing _ _ _ _ _ _ _ _ Hi) as Ha.
  destruct Hi as (Hc & _).
  rewrite Forall_forall in Hc, Ha |- *. intros b Hb.
  destruct (Ha b Hb) as [Hin _].
  destruct (Hc b Hin) as (parent & lp & Hp & _ & t & lo & _ & ->).
  simpl. match goal with H : Forall _ (BeamSearchInstance.beams inst) |- _ =>
    rewrite Forall_forall in H; now apply H end.
Qed.

(** Property X3.
    Every batch that [beam_search] submits carries one adapter handle
    per prompt of the batch, and it is the handle given to
    [beam_search] (none when none was given): the beams inherit the
    handle of their instance and keep it.  The progress bar of the
    inner calls is off. *)
Theorem beam_search_adapter_inherited {World} (env : Env World)
    (prompts : list PromptDict.t) (params : BeamSearchParams.t)
    (lora_request : LoraArg) (use_tqdm : bool) (w w' : World)
    (log : list Observe.generate_call)
    (r : result (list BeamSearchOutput)) :
  LLM.beam_search (Observe.logging env) prompts params lora_request use_tqdm
    ([], w) = ((log, w'), r) ->
  Forall (fun call =>
            Observe.call_lora call
            = repeat (Expect.handle_of lora_request)
                (length (Observe.call_prompts call))
            /\ Observe.call_use_tqdm call = false) log.
Proof.
  intros H. apply beam_search_logging_loop in H
    as [->|(loras & bsp & insts0 & r' & Hl & _ & H0 & Hloop)];
    [constructor|].
  apply lora_requests_value in Hl. subst loras.
  apply make_instances_lora in H0.
  set (h := Expect.handle_of lora_request) in *.
  match type of Hloop with
  | LLM.token_loop _ ?bw ?eos ?ig ?key _ ?iter _ _ = _ =>
      destruct (token_loop_logging_inv env bw eos ig key bsp
                  (Spec.active_beams
                     (fun _ b => BeamSearchSequence.lora_request b = h))
                  (fun call =>
                     Observe.call_lora call
                     = repeat h (length (Observe.call_prompts call))
                     /\ Observe.call_use_tqdm call = false)) with
        (token_iter := iter) (insts := insts0) (log := @nil Observe.generate_call)
        (w := w) as (calls & Hrun & Hcalls)
  end.
  - intros insts HP. unfold Expect.call_of. simpl. split; [|reflexivity].
    rewrite length_map. unfold LLM.flatten_beams.
    unfold Spec.active_beams in HP.
    induction HP as [|inst insts Hinst _ IH]; simpl; [reflexivity|].
    rewrite map_app, length_app, repeat_app, IH. f_equal.
    clear IH. induction Hinst as [|b bs Hb _ IHb]; simpl; [reflexivity|].
    now rewrite Hb, IHb.
  - intros insts w0 w1 insts' HP Hstep. eapply step_keeps_lora; eassumption.
  - exact H0.
  - rewrite Hrun in Hloop. simpl in Hloop. now inversion Hloop; subst.
Qed.

Lemma beam_search_adapter_inherited_witness :
  Forall (fun call =>
            Observe.call_lora call
            = repeat None (length (Observe.call_prompts call))
            /\ Observe.call_use_tqdm call = false)
    (fst (fst Reference.observed_run)).
Proof.
  apply (beam_search_adapter_inherited (Reference.env Reference.lm_plain)
           [Reference.tokens_prompt [5; 6]] (Reference.beam_params 2 3)
           LoraNone false tt tt (fst (fst Reference.observed_run))
           (snd Reference.observed_run)).
  vm_compute. reflexivity.
Defined.

Lemma range_nonpositive n : n <= 0 -> range n = [].
Proof. intros H. unfold range. now replace (Z.to_nat n) with 0%nat by lia. Qed.

Lemma make_instances_untouched (tokenizer : Tokenizer) key beam_width h
    prompts idss :
  1 <= beam_width ->
  map_result (LLM.prompt_tokens_of tokenizer) prompts = Ok idss ->
  exists insts,
    map_result (LLM.make_instance tokenizer)
      (combine (repeat h (length prompts)) prompts) = Ok insts
    /\ map (LLM.best_of_instance beam_width tokenizer key) insts
       = map (fun pi : PromptDict.t * list token =>
                {| sequences :=
                     [Expect.untouched tokenizer h (fst pi) (snd pi)] |})
           (combine prompts idss).
Proof.
  intros Hbw. revert idss.
  induction prompts as [|p prompts IH]; intros idss H; simpl in H.
  - inversion H. exists []. split; reflexivity.
  - apply PyFacts.rbind_ok in H as (ids & Hids & H).
    apply PyFacts.rbind_ok in H as (idss' & Hrest & H). inversion H; subst.
    destruct (IH idss' Hrest) as (insts & Hinsts & Hbest).
    eexists. split.
    + simpl. rewrite Hids. simpl. rewrite Hinsts. simpl. reflexivity.
    + simpl. rewrite Hbest. f_equal.
      unfold LLM.best_of_instance. simpl.
      rewrite PyFacts.slice_to_nonneg by lia.
      destruct (Z.to_nat beam_width) as [|n] eqn:E; [lia|].
      simpl. rewrite firstn_nil. reflexivity.
Qed.

(** Property X4.
    Without a step budget ([max_tokens] at most zero) [beam_search]
    submits nothing and returns, for every prompt, the prompt itself as
    its single sequence, at cumulative log-probability zero, with the
    decoding of its tokens as text (for a beam width of at least
    one). *)
Theorem beam_search_without_steps {World} (env : Env World)
    (prompts : list PromptDict.t) (params : BeamSearchParams.t)
    (lora_request : LoraArg) (use_tqdm : bool) (w : World)
    (loras : list (option LoRARequest)) (bsp : SamplingParams.t)
    (idss : list (list token)) (log : list Observe.generate_call) :
  BeamSearchParams.max_tokens params <= 0 ->
  1 <= BeamSearchParams.beam_width params ->
  LLM._get_beam_search_lora_requests lora_request prompts = Ok loras ->
  LLM.new_SamplingParams env (2 * BeamSearchParams.beam_width params) 1
    (BeamSearchParams.temperature params) = Ok bsp ->
  map_result (LLM.prompt_tokens_of (get_tokenizer env)) prompts = Ok idss ->
  LLM.beam_search (Observe.logging env) prompts params lora_request use_tqdm
    (log, w)
  = ((log, w),
     Ok (map (fun pi : PromptDict.t * list token =>
                {| sequences :=
                     [Expect.untouched (get_tokenizer env)
                        (Expect.handle_of lora_request) (fst pi) (snd pi)] |})
           (combine prompts idss))).
Proof.
  intros Hmax Hbw Hl Hsp Hids.
  pose proof (lora_requests_value _ _ _ Hl) as ->.
  destruct (make_instances_untouched (get_tokenizer env)
              (create_sort_beams_key_function env
                 (eos_token_id (get_tokenizer env))
                 (BeamSearchParams.length_penalty params))
              (BeamSearchParams.beam_width params)
              (Expect.handle_of lora_request) prompts idss Hbw Hids)
    as (insts & Hinsts & Hbest).
  unfold LLM.beam_search, bind, lift.
  cbn [verify_args get_tokenizer create_sort_beams_key_function
       Observe.logging].
  rewrite Hl.
  unfold LLM.new_SamplingParams in *. cbn [verify_args Observe.logging].
  destruct (verify_args env _); [|discriminate].
  rewrite Hinsts, (range_nonpositive _ Hmax). simpl. unfold ret.
  now rewrite Hbest.
Qed.

Lemma beam_search_without_steps_witness :
  LLM.beam_search (Observe.logging (Reference.env Reference.lm_eos))
    [Reference.tokens_prompt [5; 6]] (Reference.beam_params 2 0)
    (LoraOne {| lora_name := "a" |}) true ([], tt)
  = (([], tt),
     Ok [ {| sequences :=
               [Expect.untouched Reference.tokenizer
                  (Some {| lora_name := "a" |})
                  (Reference.tokens_prompt [5; 6]) [5; 6]] |} ]).
Proof.
  apply (beam_search_without_steps (Reference.env Reference.lm_eos)
           [Reference.tokens_prompt [5; 6]] (Reference.beam_params 2 0)
           (LoraOne {| lora_name := "a" |}) true tt
           [Some {| lora_name := "a" |}] Reference.bsp2 [[5; 6]] []).
  - simpl. lia.
  - simpl. lia.
  - reflexivity.
  - reflexivity.
  - reflexivity.
Defined.

Lemma no_logprobs_not_offered output lp :
  Expect.no_logprobs output = true -> ~ Spec.offered output lp.
Proof.
  unfold Expect.no_logprobs.
  intros H (res & first & steps & Hres & Hfirst & Hsteps & _).
  rewrite forallb_forall in H. specialize (H res Hres).
  rewrite forallb_forall in H.
  specialize (H first (nth_error_In _ _ Hfirst)).
  rewrite Hsteps in H. discriminate.
Qed.

(** Property X5.
    When the engine returns no log-probabilities for any beam of a
    batch (the sequences ended on the model length or were aborted),
    the step drops all active beams: every active list is empty, the
    completed lists are what they were, and the loop stops at its next
    pass without a submission. *)
Theorem step_without_logprobs_drops_beams {World} (env : Env World)
    (beam_width : Z) (eos : token) (ignore_eos : bool)
    (key : BeamSearchSequence.t -> Q) (bsp : SamplingParams.t)
    (w w' : World) (instances instances' : list BeamSearchInstance.t)
    (output : list RequestOutput.t) (token_iter : list Z) :
  LLM.token_step env beam_width eos ignore_eos key bsp instances w
  = (w', Ok (Some instances')) ->
  generate env
    (map LLM.create_tokens_prompt_from_beam (LLM.flatten_beams instances))
    bsp false
    (map BeamSearchSequence.lora_request (LLM.flatten_beams instances)) w
  = (w', Ok output) ->
  Expect.no_logprobs output = true ->
  Forall2 (fun instance instance' =>
             BeamSearchInstance.beams instance' = []
             /\ BeamSearchInstance.completed instance'
                = BeamSearchInstance.completed instance)
    instances instances'
  /\ LLM.token_loop env beam_width eos ignore_eos key bsp token_iter
       instances' w' = (w', Ok instances').
Proof.
  intros Hstep Hgen Hnone.
  apply BeamFacts.token_step_some in Hstep as (output' & Hgen' & _ & HF).
  rewrite Hgen in Hgen'. inversion Hgen'; subst output'. clear Hgen'.
  assert (H2 : Forall2 (fun instance instance' =>
                          BeamSearchInstance.beams instance' = []
                          /\ BeamSearchInstance.completed instance'
                             = BeamSearchInstance.completed instance)
                 instances instances').
  { eapply Forall2_impl; [|exact HF].
    intros inst inst' (cands & Hc & _ & _ & Hcomp & Hbeams).
    assert (cands = []) as ->.
    { destruct cands as [|c cands]; [reflexivity|].
      inversion Hc as [|? ? (parent & lp & _ & Hoff & _) _]; subst.
      now apply no_logprobs_not_offered in Hoff. }
    simpl in Hcomp, Hbeams. rewrite app_nil_r in Hcomp.
    split; [|exact Hcomp]. rewrite Hbeams. unfold slice_to.
    destruct (0 <=? beam_width); apply firstn_nil. }
  split; [exact H2|].
  apply token_loop_empty. unfold LLM.flatten_beams.
  clear - H2. induction H2 as [|inst inst' l l' [Hb _] _ IH]; simpl;
    [reflexivity|]. now rewrite Hb, IH.
Qed.

(** Property X6.
    During a beam search the completed list of an instance only grows:
    what was completed stays completed, in place, whatever the steps. *)
Theorem completed_only_grows {World} (env : Env World)
    (beam_width : Z) (eos : token) (ignore_eos : bool)
    (key : BeamSearchSequence.t -> Q) (bsp : SamplingParams.t)
    (k : nat) (w w' : World)
    (instances instances' : list BeamSearchInstance.t) :
  Spec.steps env beam_width eos ignore_eos key bsp k w instances w' instances' ->
  Forall2 (fun instance instance' => exists more,
             BeamSearchInstance.completed instance'
             = BeamSearchInstance.completed instance ++ more)
    instances instances'.
Proof.
  induction 1 as [w0 insts0|k w0 insts0 w1 insts1 w2 insts2 Hstep _ IH].
  - induction insts0 as [|inst insts0 IH]; constructor; [|exact IH].
    exists []. now rewrite app_nil_r.
  - apply BeamFacts.token_step_some in Hstep as (output & _ & _ & HF).
    revert insts2 IH.
    induction HF as [|inst inst1 l l1 (cands & Hi) _ IHF]; intros insts2 IH;
      inversion IH as [|? inst2 ? l2 (more & H12) Hl2]; subst; constructor;
      [|now apply IHF].
    destruct Hi as (_ & _ & _ & Hcomp & _).
    eexists. rewrite H12, Hcomp, <- app_assoc. reflexivity.
Qed.

Lemma step_without_logprobs_drops_beams_witness :
  Forall2 (fun instance instance' =>
             BeamSearchInstance.beams instance' = []
             /\ BeamSearchInstance.completed instance'
                = BeamSearchInstance.completed instance)
    Reference.instances1 Samples.instances_aborted
  /\ LLM.token_loop Samples.env_aborted 2 2 false Reference.key2
       Reference.bsp2 (range 5) Samples.instances_aborted tt
     = (tt, Ok Samples.instances_aborted).
Proof.
  apply (step_without_logprobs_drops_beams Samples.env_aborted 2 2 false
           Reference.key2 Reference.bsp2 tt tt Reference.instances1
           Samples.instances_aborted Samples.output_aborted (range 5)).
  - reflexivity.
  - reflexivity.
  - reflexivity.
Defined.

Lemma completed_only_grows_witness :
  Forall2 (fun instance instance' => exists more,
             BeamSearchInstance.completed instance'
             = BeamSearchInstance.completed instance ++ more)
    Reference.instances0 Reference.instances2.
Proof.
  apply (completed_only_grows (Reference.env Reference.lm_eos) 2 2 false
           Reference.key2 Reference.bsp2 2 tt tt).
  apply (Spec.steps_S _ _ _ _ _ _ _ tt Reference.instances0
           tt Reference.instances1); [reflexivity|].
  apply (Spec.steps_S _ _ _ _ _ _ _ tt Reference.instances1
           tt Reference.instances2); [reflexivity|].
  apply Spec.steps_O.
Defined.

(** ** Further properties of the submission pipeline *)

(** One pass of the loop over the prompts, under observation: either
    nothing reached the engine, or the expected request did. *)
Lemma add_request_at_recorded {E} (engine : Engine E) params lora par svr
    tk priority ip
    (s s' : World (list (gmap ref Params * Request.t) * E)) r :
  add_request_at (Observe.recording engine) params lora par svr tk priority
    ip s = (s', r) ->
  heap s' = heap s
  /\ ((fst (llm_engine s') = fst (llm_engine s)
       /\ request_counter s' = request_counter s
       /\ r <> Ok tt)
      \/ exists req,
           fst (llm_engine s') = fst (llm_engine s) ++ [(heap s, req)]
           /\ request_counter s' = S (request_counter s)
           /\ Expect.request_for params lora par svr tk priority
                (request_counter s) ip = Ok req).
Proof.
  destruct ip as [i prompt].
  unfold add_request_at, Expect.request_for, bind, lift.
  destruct (match params with
            | ParamsSeq rs => index rs i
            | OneParams r0 => Ok r0
            end) as [r0|e|];
    try (intros [= <- <-]; split; [reflexivity|left]; now repeat split).
  destruct (match lora with
            | LoraSeq ls => index ls i
            | LoraOne l => Ok (Some l)
            | LoraNone => Ok None
            end) as [l|e|];
    try (intros [= <- <-]; split; [reflexivity|left]; now repeat split).
  destruct (match priority with
            | Some (p :: ps) => index (p :: ps) i
            | _ => Ok 0
            end) as [pr|e|];
    try (intros [= <- <-]; split; [reflexivity|left]; now repeat split).
  unfold _add_request, on_engine. simpl.
  destruct (llm_engine s) as [log e0] eqn:He.
  destruct (add_request engine (heap s) _ e0) as [e1 res].
  intros [= <- <-]. simpl. split; [reflexivity|]. right.
  eexists. split; [reflexivity|]. split; reflexivity.
Qed.

(** The loop over the prompts, all submissions accepted: the engine saw
    the expected requests, in order. *)
Lemma recorded_requests {E} (engine : Engine E) params lora par svr tk
    priority items
    (s s' : World (list (gmap ref Params * Request.t) * E)) :
  for_each items
    (add_request_at (Observe.recording engine) params lora par svr tk
       priority) s = (s', Ok tt) ->
  exists calls,
    fst (llm_engine s') = fst (llm_engine s) ++ calls
    /\ map_result
         (fun nip : nat * (nat * PromptType) =>
            Expect.request_for params lora par svr tk priority
              (fst nip) (snd nip))
         (combine (seq (request_counter s) (length items)) items)
       = Ok (map snd calls).
Proof.
  revert s. induction items as [|ip items IH]; intros s H.
  - inversion H; subst. exists []. now rewrite app_nil_r.
  - simpl in H. apply PyFacts.bind_ok in H as (s1 & [] & Hone & H).
    apply add_request_at_recorded in Hone
      as (_ & [(_ & _ & Hne)|(req & Hlog & Hc & Hreq)]); [congruence|].
    apply IH in H as (calls & Hlog' & Hmap).
    exists ((heap s, req) :: calls). split.
    + rewrite Hlog', Hlog, <- app_assoc. reflexivity.
    + simpl. rewrite Hreq. simpl. rewrite Hc in Hmap. rewrite Hmap.
      reflexivity.
Qed.

Lemma finalize_loop_log {E} gpi go rs
    (w w1 : World (list (gmap ref Params * Request.t) * E)) r :
  for_each rs (finalize_sampling_params gpi go) w = (w1, r) ->
  llm_engine w1 = llm_engine w /\ request_counter w1 = request_counter w.
Proof. apply finalize_loop_frame. Qed.

(** Property X7.
    The prompts and the per-request arguments are paired by position:
    when the call succeeds, the engine has received one request per
    prompt, in the order of the prompts; the [i]-th carries the [i]-th
    prompt, the [i]-th parameter object, adapter handle and priority
    (or the single object, the single handle, priority zero), the
    adapter and tokenization options unchanged, and the [i]-th
    identifier that the counter issues. *)
Theorem submitted_requests_paired {E} (engine : Engine E)
    (gpi : GuidedDecodingParams.t -> bool)
    (prompts : PromptsArg) (params : ParamsArg) (use_tqdm : bool)
    (lora : LoraArg) (par : option PromptAdapterRequest)
    (svr : option SteerVectorRequest) (tk : option TokenizationKwargs)
    (go : option GuidedDecodingRequest.t) (priority : option (list Z))
    (w w' : World (list (gmap ref Params * Request.t) * E)) :
  _validate_and_add_requests (Observe.recording engine) gpi prompts params
    use_tqdm lora par svr tk go priority w = (w', Ok tt) ->
  exists calls,
    fst (llm_engine w') = fst (llm_engine w) ++ calls
    /\ length calls = length (Spec.prompts_of prompts)
    /\ map_result
         (fun nip : nat * (nat * PromptType) =>
            Expect.request_for params lora par svr tk priority
              (fst nip) (snd nip))
         (combine (seq (request_counter w)
                     (length (Spec.prompts_of prompts)))
            (enumerate (Spec.prompts_of prompts)))
       = Ok (map snd calls).
Proof.
  intros H.
  assert (Hshape : Spec.shapes_agree prompts params lora).
  { eapply validate_ok_shapes; [exact H|]. left. discriminate. }
  rewrite (PipelineFacts.validate_and_add_unfold _ _ _ _ _ _ _ _ _ _ _ Hshape)
    in H.
  apply PyFacts.bind_ok in H as (w0 & [] & Hfin & Hadd).
  apply finalize_loop_log in Hfin as [He Hc].
  apply recorded_requests in Hadd as (calls & Hlog & Hmap).
  destruct (enumerate_spec (Spec.prompts_of prompts)) as [Hlen _].
  rewrite Hlen, Hc in Hmap. rewrite He in Hlog.
  exists calls. split; [exact Hlog|]. split; [|exact Hmap].
  apply PyFacts.map_result_length in Hmap.
  rewrite length_map in Hmap. rewrite Hmap, length_combine, length_seq, Hlen.
  lia.
Qed.

Lemma submitted_requests_paired_witness :
  exists calls,
    fst (llm_engine Reference.observed_world1)
    = fst (llm_engine Reference.observed_world) ++ calls
    /\ length calls = length Reference.three_prompts
    /\ map_result
         (fun nip : nat * (nat * PromptType) =>
            Expect.request_for (OneParams 0%nat) LoraNone None None None None
              (fst nip) (snd nip))
         (combine (seq 0 (length Reference.three_prompts))
            (enumerate Reference.three_prompts))
       = Ok (map snd calls).
Proof.
  apply (submitted_requests_paired Reference.lifo Reference.accept_guided
           (PromptSeq Reference.three_prompts) (OneParams 0%nat) true LoraNone
           None None None None None
           Reference.observed_world Reference.observed_world1).
  vm_compute. reflexivity.
Defined.

(** Property X8.
    A single parameter object, a single adapter handle (or none) and no
    priorities are broadcast: whatever the outcome of the call, every
    request that reached the engine refers to that one object, carries
    that handle and priority zero, and the prompt-adapter,
    steering-vector and tokenization arguments of the call. *)
Theorem single_arguments_broadcast {E} (engine : Engine E)
    (gpi : GuidedDecodingParams.t -> bool)
    (prompts : PromptsArg) (r : ref) (use_tqdm : bool)
    (lora : LoraArg) (par : option PromptAdapterRequest)
    (svr : option SteerVectorRequest) (tk : option TokenizationKwargs)
    (go : option GuidedDecodingRequest.t) (priority : option (list Z))
    (w w' : World (list (gmap ref Params * Request.t) * E))
    (res : result unit) :
  lora_is_sequence lora = false ->
  priority = None \/ priority = Some [] ->
  _validate_and_add_requests (Observe.recording engine) gpi prompts
    (OneParams r) use_tqdm lora par svr tk go priority w = (w', res) ->
  exists calls,
    fst (llm_engine w') = fst (llm_engine w) ++ calls
    /\ Forall (fun call : gmap ref Params * Request.t =>
                 Request.params (snd call) = r
                 /\ Request.lora_request (snd call) = Expect.handle_of lora
                 /\ Request.priority (snd call) = 0
                 /\ Request.prompt_adapter_request (snd call) = par
                 /\ Request.steer_vector_request (snd call) = svr
                 /\ Request.tokenization_kwargs (snd call) = tk) calls.
Proof.
  intros Hlora Hprio H.
  assert (Hshape : Spec.shapes_agree prompts (OneParams r) lora).
  { split; simpl; intros; congruence. }
  rewrite (PipelineFacts.validate_and_add_unfold _ _ _ _ _ _ _ _ _ _ _ Hshape)
    in H.
  unfold bind in H.
  destruct (for_each (Spec.refs_of (OneParams r))
              (finalize_sampling_params gpi go) w) as [w0 r0] eqn:Hfin.
  apply finalize_loop_log in Hfin as [He _].
  destruct r0 as [[]|e|].
  2,3: inversion H; subst; exists []; rewrite He, app_nil_r; split; auto.
  revert H. rewrite <- He.
  apply (PipelineFacts.for_each_inv
           (fun s : World (list (gmap ref Params * Request.t) * E) =>
              exists calls,
                fst (llm_engine s) = fst (llm_engine w0) ++ calls
                /\ Forall (fun call : gmap ref Params * Request.t =>
                             Request.params (snd call) = r
                             /\ Request.lora_request (snd call)
                                = Expect.handle_of lora
                             /\ Request.priority (snd call) = 0
                             /\ Request.prompt_adapter_request (snd call) = par
                             /\ Request.steer_vector_request (snd call) = svr
                             /\ Request.tokenization_kwargs (snd call) = tk)
                     calls)).
  - intros [i prompt] s s' r' _ (calls & Hlog & Hcalls) Hbody.
    apply add_request_at_recorded in Hbody
      as (_ & [(Hsame & _)|(req & Hlog' & _ & Hreq)]).
    + exists calls. split; [congruence|exact Hcalls].
    + exists (calls ++ [(heap s, req)]). split.
      * rewrite Hlog', Hlog, <- app_assoc. reflexivity.
      * apply Forall_app. split; [exact Hcalls|].
        constructor; [|constructor]. simpl.
        unfold Expect.request_for in Hreq. simpl in Hreq.
        destruct lora as [|l|ls]; [| |discriminate];
          destruct Hprio as [-> | ->]; simpl in Hreq;
          inversion Hreq; subst; simpl; repeat split; reflexivity.
  - exists []. rewrite app_nil_r. split; auto.
Qed.

Lemma single_arguments_broadcast_witness :
  exists calls,
    fst (llm_engine Reference.observed_world1)
    = fst (llm_engine Reference.observed_world) ++ calls
    /\ Forall (fun call : gmap ref Params * Request.t =>
                 Request.params (snd call) = 0%nat
                 /\ Request.lora_request (snd call) = None
                 /\ Request.priority (snd call) = 0
                 /\ Request.prompt_adapter_request (snd call) = None
                 /\ Request.steer_vector_request (snd call) = None
                 /\ Request.tokenization_kwargs (snd call) = None) calls.
Proof.
  apply (single_arguments_broadcast Reference.lifo Reference.accept_guided
           (PromptSeq Reference.three_prompts) 0%nat true LoraNone
           None None None None None
           Reference.observed_world Reference.observed_world1 (Ok tt)).
  - reflexivity.
  - now left.
  - vm_compute. reflexivity.
Defined.

Lemma add_guided_params_some gpi sp g :
  (_add_guided_params gpi sp (Some g) = Raise ValueError)
  \/ (SamplingParams.guided_decoding sp = None
      /\ exists gd,
           _add_guided_params gpi sp (Some g)
           = Ok (SamplingParams.set_guided_decoding (Some gd) sp)).
Proof.
  unfold _add_guided_params.
  destruct (SamplingParams.guided_decoding sp); [now left|].
  match goal with |- context [gpi ?gd] => destruct (gpi gd) end;
    [right|now left].
  split; [reflexivity|]. eexists. reflexivity.
Qed.

(** The update of one parameter object with guided options: it raises
    nothing but [ValueError], and keeps a [SamplingParams] object a
    [SamplingParams] object. *)
Lemma finalize_guided_step {E} gpi g r0 (s s1 : World E) res :
  finalize_sampling_params gpi (Some g) r0 s = (s1, res) ->
  (res = Ok tt \/ res = Raise ValueError)
  /\ llm_engine s1 = llm_engine s
  /\ request_counter s1 = request_counter s
  /\ (forall r, r <> r0 -> heap s1 !! r = heap s !! r)
  /\ (forall sp, heap s !! r0 = Some (Sampling sp) ->
        (SamplingParams.guided_decoding sp <> None -> res = Raise ValueError)
        /\ (res = Ok tt ->
            exists sp', heap s1 !! r0 = Some (Sampling sp')
                        /\ SamplingParams.guided_decoding sp' <> None)
        /\ (res <> Ok tt -> heap s1 = heap s)).
Proof.
  unfold finalize_sampling_params.
  destruct (heap s !! r0) as [[sp|pp]|] eqn:Hr.
  - destruct (add_guided_params_some gpi sp g) as [Hraise|(Hnone & gd & Hok)].
    + rewrite Hraise. intros [= <- <-].
      split; [now right|]. split; [reflexivity|]. split; [reflexivity|].
      split; [reflexivity|]. intros sp0 _.
      split; [reflexivity|]. split; [discriminate|reflexivity].
    + rewrite Hok. intros [= <- <-]. simpl.
      split; [now left|]. split; [reflexivity|]. split; [reflexivity|].
      split.
      * intros r Hne. now rewrite lookup_insert_ne by congruence.
      * intros sp0 [= <-]. split; [congruence|]. split; [|congruence].
        intros _. eexists. rewrite lookup_insert_eq. split; [reflexivity|].
        simpl. discriminate.
  - intros [= <- <-]. split; [now left|]. repeat split; try reflexivity.
    all: intros; congruence.
  - intros [= <- <-]. split; [now left|]. repeat split; try reflexivity.
    all: intros; congruence.
Qed.

Lemma finalize_guided_conflict {E} gpi g rs r (s s1 : World E) res sp :
  In r rs ->
  heap s !! r = Some (Sampling sp) ->
  SamplingParams.guided_decoding sp <> None ->
  for_each rs (finalize_sampling_params gpi (Some g)) s = (s1, res) ->
  res = Raise ValueError.
Proof.
  revert s sp. induction rs as [|r0 rs IH]; intros s sp Hin Hr Hg H;
    [contradiction|].
  simpl in H. unfold bind in H.
  destruct (finalize_sampling_params gpi (Some g) r0 s) as [s0 res0] eqn:Hone.
  apply finalize_guided_step in Hone as (Hres & _ & _ & Hother & Hsame).
  destruct (Nat.eq_dec r r0) as [->|Hne].
  - destruct (Hsame sp Hr) as (Hraise & _). rewrite (Hraise Hg) in H.
    now inversion H.
  - destruct Hres as [-> | ->]; [|now inversion H].
    destruct Hin as [->|Hin]; [congruence|].
    eapply (IH s0 sp); eauto. now rewrite Hother.
Qed.

Lemma shapes_decide prompts params lora :
  Spec.shapes_agree prompts params lora
  \/ ((params_is_sequence params = true
       /\ params_len params <> length (Spec.prompts_of prompts))
      \/ (lora_is_sequence lora = true
          /\ lora_len lora <> length (Spec.prompts_of prompts))).
Proof.
  unfold Spec.shapes_agree.
  destruct (params_is_sequence params) eqn:Hp,
    (Nat.eq_dec (params_len params) (length (Spec.prompts_of prompts)))
      as [E1|E1],
    (lora_is_sequence lora) eqn:Hl,
    (Nat.eq_dec (lora_len lora) (length (Spec.prompts_of prompts)))
      as [E2|E2];
    first [ left; split; intros; congruence
          | right; left; split; [reflexivity|assumption]
          | right; right; split; [reflexivity|assumption] ].
Qed.

(** Property X9.
    Guided options in the call and guided decoding already set in a
    parameter object exclude each other: the call raises [ValueError]
    and submits nothing (the engine and the counter are what they
    were). *)
Theorem guided_options_conflict {E} (engine : Engine E)
    (gpi : GuidedDecodingParams.t -> bool)
    (prompts : PromptsArg) (params : ParamsArg) (use_tqdm : bool)
    (lora : LoraArg) (par : option PromptAdapterRequest)
    (svr : option SteerVectorRequest) (tk : option TokenizationKwargs)
    (g : GuidedDecodingRequest.t) (priority : option (list Z))
    (w : World E) (r : ref) (sp : SamplingParams.t) :
  In r (Spec.refs_of params) ->
  heap w !! r = Some (Sampling sp) ->
  SamplingParams.guided_decoding sp <> None ->
  exists w',
    _validate_and_add_requests engine gpi prompts params use_tqdm lora par
      svr tk (Some g) priority w = (w', Raise ValueError)
    /\ llm_engine w' = llm_engine w
    /\ request_counter w' = request_counter w.
Proof.
  intros Hin Hr Hg.
  destruct (_validate_and_add_requests engine gpi prompts params use_tqdm
              lora par svr tk (Some g) priority w) as [w' res] eqn:H.
  destruct (shapes_decide prompts params lora) as [Hshape|Hbad].
  - rewrite (PipelineFacts.validate_and_add_unfold _ _ _ _ _ _ _ _ _ _ _
               Hshape) in H.
    unfold bind in H.
    destruct (for_each (Spec.refs_of params)
                (finalize_sampling_params gpi (Some g)) w) as [w0 r0] eqn:Hfin.
    pose proof (finalize_guided_conflict _ _ _ _ _ _ _ _ Hin Hr Hg Hfin)
      as ->.
    apply finalize_loop_frame in Hfin as [He Hc].
    inversion H; subst. exists w'. now repeat split.
  - rewrite (shape_error_no_side_effect _ _ _ _ _ _ _ _ _ _ _ _ Hbad) in H.
    inversion H; subst. exists w'. now repeat split.
Qed.

Lemma guided_options_conflict_witness :
  exists w',
    _validate_and_add_requests Reference.lifo Reference.accept_guided
      (PromptSeq Reference.three_prompts)
      (ParamsSeq [0%nat; 1%nat; 0%nat]) true LoraNone None None None
      (Some Samples.guided_request) None Samples.world_two
    = (w', Raise ValueError)
    /\ llm_engine w' = llm_engine Samples.world_two
    /\ request_counter w' = request_counter Samples.world_two.
Proof.
  apply (guided_options_conflict Reference.lifo Reference.accept_guided
           (PromptSeq Reference.three_prompts)
           (ParamsSeq [0%nat; 1%nat; 0%nat]) true LoraNone None None None
           Samples.guided_request None Samples.world_two 1%nat
           (SamplingParams.set_guided_decoding (Some Samples.guided_params)
              Reference.sampling_params)).
  - simpl. tauto.
  - reflexivity.
  - discriminate.
Defined.

Lemma finalize_guided_alias {E} gpi g l1 rest r (s s1 : World E) res sp :
  In r rest ->
  heap s !! r = Some (Sampling sp) ->
  for_each (l1 ++ r :: rest) (finalize_sampling_params gpi (Some g)) s
  = (s1, res) ->
  res = Raise ValueError.
Proof.
  revert s sp. induction l1 as [|r0 l1 IH]; intros s sp Hin Hr H.
  - simpl in H. unfold bind in H.
    destruct (finalize_sampling_params gpi (Some g) r s) as [s0 res0] eqn:Hone.
    apply finalize_guided_step in Hone as (Hres & _ & _ & _ & Hsame).
    destruct (Hsame sp Hr) as (_ & Hok & _).
    destruct Hres as [-> | ->]; [|now inversion H].
    destruct (Hok eq_refl) as (sp' & Hr' & Hg').
    eapply finalize_guided_conflict; eauto.
  - simpl in H. unfold bind in H.
    destruct (finalize_sampling_params gpi (Some g) r0 s) as [s0 res0] eqn:Hone.
    apply finalize_guided_step in Hone as (Hres & _ & _ & Hother & Hsame).
    destruct Hres as [-> | ->]; [|now inversion H].
    destruct (Nat.eq_dec r r0) as [->|Hne].
    + destruct (Hsame sp Hr) as (_ & Hok & _).
      destruct (Hok eq_refl) as (sp' & Hr' & _). eapply IH; eauto.
    + eapply (IH s0 sp); eauto. now rewrite Hother.
Qed.

(** Property X10.
    A [SamplingParams] object that occurs twice in [params] cannot be
    combined with guided options: the first visit sets its guided
    decoding and the second finds it set.  The call raises [ValueError]
    and submits nothing. *)
Theorem guided_options_shared_object {E} (engine : Engine E)
    (gpi : GuidedDecodingParams.t -> bool)
    (prompts : PromptsArg) (l1 l2 l3 : list ref) (r : ref)
    (use_tqdm : bool)
    (lora : LoraArg) (par : option PromptAdapterRequest)
    (svr : option SteerVectorRequest) (tk : option TokenizationKwargs)
    (g : GuidedDecodingRequest.t) (priority : option (list Z))
    (w : World E) (sp : SamplingParams.t) :
  heap w !! r = Some (Sampling sp) ->
  exists w',
    _validate_and_add_requests engine gpi prompts
      (ParamsSeq (l1 ++ r :: l2 ++ r :: l3)) use_tqdm lora par svr tk
      (Some g) priority w = (w', Raise ValueError)
    /\ llm_engine w' = llm_engine w
    /\ request_counter w' = request_counter w.
Proof.
  intros Hr.
  set (params := ParamsSeq (l1 ++ r :: l2 ++ r :: l3)).
  destruct (_validate_and_add_requests engine gpi prompts params use_tqdm
              lora par svr tk (Some g) priority w) as [w' res] eqn:H.
  destruct (shapes_decide prompts params lora) as [Hshape|Hbad].
  - rewrite (PipelineFacts.validate_and_add_unfold _ _ _ _ _ _ _ _ _ _ _
               Hshape) in H.
    unfold bind in H.
    destruct (for_each (Spec.refs_of params)
                (finalize_sampling_params gpi (Some g)) w) as [w0 r0] eqn:Hfin.
    assert (r0 = Raise ValueError) as ->.
    { eapply (finalize_guided_alias gpi g l1 (l2 ++ r :: l3) r);
        [|exact Hr|exact Hfin].
      apply in_or_app. right. now left. }
    apply finalize_loop_frame in Hfin as [He Hc].
    inversion H; subst. exists w'. now repeat split.
  - rewrite (shape_error_no_side_effect _ _ _ _ _ _ _ _ _ _ _ _ Hbad) in H.
    inversion H; subst. exists w'. now repeat split.
Qed.

Lemma guided_options_shared_object_witness :
  exists w',
    _validate_and_add_requests Reference.lifo Reference.accept_guided
      (PromptSeq Reference.three_prompts)
      (ParamsSeq ([] ++ 0%nat :: [] ++ 0%nat :: [0%nat])) true LoraNone
      None None None (Some Samples.guided_request) None Reference.world
    = (w', Raise ValueError)
    /\ llm_engine w' = llm_engine Reference.world
    /\ request_counter w' = request_counter Reference.world.
Proof.
  apply (guided_options_shared_object Reference.lifo Reference.accept_guided
           (PromptSeq Reference.three_prompts) [] [] [0%nat] 0%nat true
           LoraNone None None None Samples.guided_request None
           Reference.world Reference.sampling_params).
  reflexivity.
Defined.

(** ** Further properties of the drain loop *)

Lemma collect_finished use_tqdm step_outputs outputs outputs' :
  collect use_tqdm step_outputs outputs = Ok outputs' ->
  Forall (fun o => RequestOutput.finished o = true) outputs ->
  Forall (fun o => RequestOutput.finished o = true) outputs'.
Proof.
  revert outputs. induction step_outputs as [|o so IH]; simpl; intros outputs H Hall.
  - now inversion H; subst.
  - destruct (RequestOutput.finished o) eqn:Hf; [|eapply IH; eauto].
    destruct (use_tqdm && negb (RequestOutput.pooling o)
              && negb (bool_decide (is_Some (RequestOutput.prompt_token_ids o))));
      [discriminate|].
    eapply IH; [exact H|]. apply Forall_app. split; [exact Hall|].
    constructor; [exact Hf|constructor].
Qed.

Lemma collect_without_bar step_outputs outputs :
  collect false step_outputs outputs
  = Ok (outputs ++ filter RequestOutput.finished step_outputs).
Proof.
  revert outputs. induction step_outputs as [|o so IH]; simpl; intros outputs.
  - now rewrite app_nil_r.
  - destruct (RequestOutput.finished o); [|apply IH].
    rewrite IH, <- app_assoc. reflexivity.
Qed.

Lemma collect_assertion step_outputs outputs o :
  In o step_outputs ->
  RequestOutput.finished o = true ->
  RequestOutput.pooling o = false ->
  RequestOutput.prompt_token_ids o = None ->
  collect true step_outputs outputs = Raise AssertionError.
Proof.
  revert outputs. induction step_outputs as [|o' so IH]; simpl;
    intros outputs Hin Hf Hp Ht; [contradiction|].
  destruct Hin as [->|Hin].
  - rewrite Hf, Hp, Ht. reflexivity.
  - destruct (RequestOutput.finished o'); [|now apply IH].
    destruct (negb (RequestOutput.pooling o')
              && negb (bool_decide
                         (is_Some (RequestOutput.prompt_token_ids o'))));
      simpl; [reflexivity|now apply IH].
Qed.

Lemma drain_inv {E} (engine : Engine E) use_tqdm fuel :
  forall outputs e e' outputs',
    drain engine use_tqdm fuel outputs e = (e', Ok outputs') ->
    has_unfinished_requests engine e' = false
    /\ (Forall (fun o => RequestOutput.finished o = true) outputs ->
        Forall (fun o => RequestOutput.finished o = true) outputs').
Proof.
  induction fuel as [|fuel IH]; intros outputs e e' outputs' H; simpl in H.
  - destruct (has_unfinished_requests engine e) eqn:Hu; [discriminate|].
    inversion H; subst. auto.
  - destruct (has_unfinished_requests engine e) eqn:Hu.
    + apply PyFacts.bind_ok in H as (e1 & so & Hstep & H).
      apply PyFacts.bind_ok in H as (e2 & o1 & Hcol & H).
      apply PyFacts.lift_ok in Hcol as [-> Hcol].
      apply IH in H as [Hdone Hfin]. split; [exact Hdone|].
      intros Hall. apply Hfin. eapply collect_finished; eauto.
    + inversion H; subst. auto.
Qed.

Lemma drain_idle {E} (engine : Engine E) use_tqdm fuel outputs e :
  has_unfinished_requests engine e = false ->
  drain engine use_tqdm fuel outputs e = (e, Ok outputs).
Proof. intros H. destruct fuel; simpl; now rewrite H. Qed.

Lemma sorted_raising_inv {A} (key : A -> result Z) xs l :
  sorted_raising Z.ltb key xs = Ok l ->
  Permutation l xs
  /\ exists ids,
       map_result key l = Ok ids /\ StronglySorted Z.le ids.
Proof.
  intros H.
  set (k := fun x => match key x with Ok z => z | _ => 0 end).
  assert (Hk : Forall (fun x => key x = Ok (k x)) xs).
  { unfold sorted_raising, keyed in H.
    destruct (map_result (fun x => rbind (key x) (fun k0 => Ok (k0, x))) xs)
      as [kxs| |] eqn:Hm; try discriminate.
    apply PyFacts.map_result_Forall2 in Hm.
    clear H. induction Hm as [|x p xs kxs Hx _ IH]; constructor; [|exact IH].
    unfold k. destruct (key x); simpl in Hx; try discriminate. reflexivity. }
  destruct (PyFacts.sorted_raising_ok key k xs Hk) as (l' & Hl' & Hperm & Hs).
  rewrite H in Hl'. inversion Hl'; subst l'.
  split; [exact Hperm|]. exists (map k l). split; [|exact Hs].
  apply PyFacts.map_result_ok.
  eapply Permutation_Forall; [|exact Hk]. now symmetry.
Qed.

Lemma run_engine_ok {E} (engine : Engine E) fuel use_tqdm (w w' : World E)
    outputs :
  _run_engine engine fuel use_tqdm w = (w', Ok outputs) ->
  exists e' collected,
    drain engine use_tqdm fuel [] (llm_engine w) = (e', Ok collected)
    /\ w' = set_llm_engine e' w
    /\ sorted_raising Z.ltb (fun x => int (RequestOutput.request_id x))
         collected = Ok outputs.
Proof.
  unfold _run_engine. intros H.
  apply PyFacts.bind_ok in H as (w1 & collected & Hd & Hs).
  apply PyFacts.lift_ok in Hs as [-> Hs].
  unfold on_engine in Hd.
  destruct (drain engine use_tqdm fuel [] (llm_engine w)) as [e' r] eqn:Hdr.
  inversion Hd; subst. eauto.
Qed.

(** Property X11.
    Whatever the engine does, a result of [_run_engine] holds finished
    outputs only, in ascending order of their identifiers read as
    integers, and the engine has no unfinished request left; the
    parameter objects and the request counter are as before. *)
Theorem run_engine_result {E} (engine : Engine E) (fuel : nat)
    (use_tqdm : bool) (w w' : World E) (outputs : list RequestOutput.t) :
  _run_engine engine fuel use_tqdm w = (w', Ok outputs) ->
  Forall (fun o => RequestOutput.finished o = true) outputs
  /\ (exists ids,
        map_result (fun o => int (RequestOutput.request_id o)) outputs
        = Ok ids
        /\ StronglySorted Z.le ids)
  /\ has_unfinished_requests engine (llm_engine w') = false
  /\ heap w' = heap w
  /\ request_counter w' = request_counter w.
Proof.
  intros H. apply run_engine_ok in H as (e' & collected & Hd & -> & Hs).
  apply drain_inv in Hd as [Hdone Hfin].
  apply sorted_raising_inv in Hs as (Hperm & ids & Hids & Hsorted).
  split.
  - eapply Permutation_Forall; [symmetry; exact Hperm|]. apply Hfin.
    constructor.
  - split; [exists ids; auto|]. simpl. auto.
Qed.

Lemma run_engine_result_witness :
  Forall (fun o => RequestOutput.finished o = true) Samples.outputs2
  /\ (exists ids,
        map_result (fun o => int (RequestOutput.request_id o))
          Samples.outputs2 = Ok ids
        /\ StronglySorted Z.le ids)
  /\ has_unfinished_requests Reference.lifo (llm_engine Samples.world2)
     = false
  /\ heap Samples.world2 = heap Reference.world1
  /\ request_counter Samples.world2 = request_counter Reference.world1.
Proof.
  apply (run_engine_result Reference.lifo 3 true Reference.world1
           Samples.world2 Samples.outputs2).
  vm_compute. reflexivity.
Defined.

(** Property X12.
    Outputs are delivered once: after a call of [_run_engine] that
    returned, a further call returns the empty list and changes nothing,
    with or without a progress bar and without a single tick. *)
Theorem run_engine_delivers_once {E} (engine : Engine E) (fuel : nat)
    (use_tqdm : bool) (w w' : World E) (outputs : list RequestOutput.t) :
  _run_engine engine fuel use_tqdm w = (w', Ok outputs) ->
  forall fuel' use_tqdm',
    _run_engine engine fuel' use_tqdm' w' = (w', Ok []).
Proof.
  intros H fuel' use_tqdm'.
  apply run_engine_ok in H as (e' & collected & Hd & -> & _).
  apply drain_inv in Hd as [Hdone _].
  unfold _run_engine, bind, on_engine. simpl.
  rewrite (drain_idle engine use_tqdm' fuel' [] e' Hdone).
  destruct w; reflexivity.
Qed.

Lemma run_engine_delivers_once_witness :
  _run_engine Reference.lifo 0 false Samples.world2
  = (Samples.world2, Ok []).
Proof.
  apply (run_engine_delivers_once Reference.lifo 3 true Reference.world1
           Samples.world2 Samples.outputs2).
  vm_compute. reflexivity.
Defined.

(** Property X13.
    The progress bar changes the outcome: when a tick reports a finished
    generation output without prompt tokens, [_run_engine] with a
    progress bar stops with [AssertionError] after that tick, and the
    outputs of the tick are lost; without a bar the same outputs are
    collected and the loop goes on. *)
Theorem progress_bar_requires_prompt_tokens {E} (engine : Engine E)
    (fuel : nat) (w : World E) (e1 : E)
    (step_outputs : list RequestOutput.t) (o : RequestOutput.t) :
  has_unfinished_requests engine (llm_engine w) = true ->
  step engine (llm_engine w) = (e1, Ok step_outputs) ->
  In o step_outputs ->
  RequestOutput.finished o = true ->
  RequestOutput.pooling o = false ->
  RequestOutput.prompt_token_ids o = None ->
  _run_engine engine (S fuel) true w
  = (set_llm_engine e1 w, Raise AssertionError)
  /\ drain engine false (S fuel) [] (llm_engine w)
     = drain engine false fuel
         (filter RequestOutput.finished step_outputs) e1.
Proof.
  intros Hu Hstep Hin Hf Hp Ht. split.
  - unfold _run_engine, bind, on_engine. simpl. rewrite Hu.
    unfold bind. rewrite Hstep. unfold lift.
    rewrite (collect_assertion _ _ o Hin Hf Hp Ht). reflexivity.
  - simpl. rewrite Hu. unfold bind. rewrite Hstep. unfold lift.
    rewrite collect_without_bar. reflexivity.
Qed.

Lemma progress_bar_requires_prompt_tokens_witness :
  _run_engine Samples.bare 3 true Reference.world1
  = (set_llm_engine (tl (llm_engine Reference.world1)) Reference.world1,
     Raise AssertionError)
  /\ drain Samples.bare false 3 [] (llm_engine Reference.world1)
     = drain Samples.bare false 2
         (filter RequestOutput.finished
            [ {| RequestOutput.request_id := "2";
                 RequestOutput.finished := true;
                 RequestOutput.pooling := false;
                 RequestOutput.prompt_token_ids := None;
                 RequestOutput.outputs := [] |} ])
         (tl (llm_engine Reference.world1)).
Proof.
  apply (progress_bar_requires_prompt_tokens Samples.bare 2 Reference.world1
           (tl (llm_engine Reference.world1))
           [ {| RequestOutput.request_id := "2";
                RequestOutput.finished := true;
                RequestOutput.pooling := false;
                RequestOutput.prompt_token_ids := None;
                RequestOutput.outputs := [] |} ]
           {| RequestOutput.request_id := "2";
              RequestOutput.finished := true;
              RequestOutput.pooling := false;
              RequestOutput.prompt_token_ids := None;
              RequestOutput.outputs := [] |}).
  - reflexivity.
  - reflexivity.
  - now left.
  - reflexivity.
  - reflexivity.
  - reflexivity.
Defined.

(** ** Identifiers *)

Lemma identifiers_snoc c k :
  Spec.identifiers c (S k)
  = Spec.identifiers c k ++ [str (Z.of_nat (c + k))].
Proof.
  unfold Spec.identifiers. rewrite seq_S, map_app. reflexivity.
Qed.

Lemma identifiers_NoDup c k : NoDup (Spec.identifiers c k).
Proof.
  unfold Spec.identifiers. apply Finite.Injective_map_NoDup.
  - intros i j Hij. apply PyFacts.str_inj in Hij. lia.
  - apply seq_NoDup.
Qed.

Lemma request_for_identifier params lora par svr tk priority n ip req :
  Expect.request_for params lora par svr tk priority n ip = Ok req ->
  Request.request_id req = str (Z.of_nat n).
Proof.
  unfold Expect.request_for. destruct ip as [i prompt].
  destruct (match params with
            | ParamsSeq rs => index rs i
            | OneParams r => Ok r
            end); simpl; try discriminate.
  destruct (match lora with
            | LoraSeq ls => index ls i
            | LoraOne l => Ok (Some l)
            | LoraNone => Ok None
            end); simpl; try discriminate.
  destruct (match priority with
            | Some (p :: ps) => index (p :: ps) i
            | _ => Ok 0
            end); simpl; try discriminate.
  intros [= <-]. reflexivity.
Qed.

Lemma add_loop_identifiers {E} (engine : Engine E) params lora par svr tk
    priority items
    (s s' : World (list (gmap ref Params * Request.t) * E)) r :
  for_each items
    (add_request_at (Observe.recording engine) params lora par svr tk
       priority) s = (s', r) ->
  exists calls,
    fst (llm_engine s') = fst (llm_engine s) ++ calls
    /\ request_counter s' = (request_counter s + length calls)%nat
    /\ map (fun call : gmap ref Params * Request.t =>
              Request.request_id (snd call)) calls
       = Spec.identifiers (request_counter s) (length calls).
Proof.
  apply (PipelineFacts.for_each_inv
           (fun s1 : World (list (gmap ref Params * Request.t) * E) =>
              exists calls,
                fst (llm_engine s1) = fst (llm_engine s) ++ calls
                /\ request_counter s1
                   = (request_counter s + length calls)%nat
                /\ map (fun call : gmap ref Params * Request.t =>
                          Request.request_id (snd call)) calls
                   = Spec.identifiers (request_counter s) (length calls))).
  - intros ip s1 s2 r' _ (calls & Hlog & Hc & Hids) Hbody.
    apply add_request_at_recorded in Hbody
      as (_ & [(Hsame & Hc' & _)|(req & Hlog' & Hc' & Hreq)]).
    + exists calls. repeat split; congruence.
    + exists (calls ++ [(heap s1, req)]). rewrite length_app. simpl.
      split; [rewrite Hlog', Hlog, <- app_assoc; reflexivity|].
      split; [lia|].
      rewrite map_app, Hids, Nat.add_1_r, identifiers_snoc. simpl.
      apply request_for_identifier in Hreq. now rewrite Hreq, Hc.
  - exists []. simpl. rewrite app_nil_r, Nat.add_0_r. auto.
Qed.

(** Property X14.
    No identifier is issued twice.  When the requests that the engine
    has received so far carry the identifiers [0 .. counter - 1] in this
    order, as they do for a new [LLM], they still do after a call of
    [_validate_and_add_requests], whatever its arguments and its
    outcome; so the identifiers that the engine has seen are pairwise
    distinct, and the earlier requests are still the first ones. *)
Theorem identifiers_never_reused {E} (engine : Engine E)
    (gpi : GuidedDecodingParams.t -> bool)
    (prompts : PromptsArg) (params : ParamsArg) (use_tqdm : bool)
    (lora : LoraArg) (par : option PromptAdapterRequest)
    (svr : option SteerVectorRequest) (tk : option TokenizationKwargs)
    (go : option GuidedDecodingRequest.t) (priority : option (list Z))
    (w w' : World (list (gmap ref Params * Request.t) * E))
    (res : result unit) :
  map (fun call : gmap ref Params * Request.t =>
         Request.request_id (snd call)) (fst (llm_engine w))
  = Spec.identifiers 0%nat (request_counter w) ->
  _validate_and_add_requests (Observe.recording engine) gpi prompts params
    use_tqdm lora par svr tk go priority w = (w', res) ->
  map (fun call : gmap ref Params * Request.t =>
         Request.request_id (snd call)) (fst (llm_engine w'))
  = Spec.identifiers 0%nat (request_counter w')
  /\ NoDup (map (fun call : gmap ref Params * Request.t =>
                   Request.request_id (snd call)) (fst (llm_engine w')))
  /\ (request_counter w <= request_counter w')%nat
  /\ firstn (length (fst (llm_engine w))) (fst (llm_engine w'))
     = fst (llm_engine w).
Proof.
  intros Hinv H.
  assert (Hcalls : exists calls,
             fst (llm_engine w') = fst (llm_engine w) ++ calls
             /\ request_counter w'
                = (request_counter w + length calls)%nat
             /\ map (fun call : gmap ref Params * Request.t =>
                       Request.request_id (snd call)) calls
                = Spec.identifiers (request_counter w) (length calls)).
  { destruct (shapes_decide prompts params lora) as [Hshape|Hbad].
    - rewrite (PipelineFacts.validate_and_add_unfold _ _ _ _ _ _ _ _ _ _ _
                 Hshape) in H.
      unfold bind in H.
      destruct (for_each (Spec.refs_of params)
                  (finalize_sampling_params gpi go) w) as [w0 r0] eqn:Hfin.
      apply finalize_loop_log in Hfin as [He Hc].
      destruct r0 as [[]|e|].
      2,3: inversion H; subst; exists []; simpl;
           rewrite He, Hc, app_nil_r, Nat.add_0_r; auto.
      apply add_loop_identifiers in H as (calls & Hlog & Hc' & Hids).
      exists calls. rewrite <- He, <- Hc. auto.
    - rewrite (shape_error_no_side_effect _ _ _ _ _ _ _ _ _ _ _ _ Hbad) in H.
      inversion H; subst. exists []. simpl.
      rewrite app_nil_r, Nat.add_0_r. auto. }
  destruct Hcalls as (calls & Hlog & Hc & Hids).
  assert (Hall : map (fun call : gmap ref Params * Request.t =>
                        Request.request_id (snd call)) (fst (llm_engine w'))
                 = Spec.identifiers 0%nat (request_counter w')).
  { rewrite Hlog, map_app, Hinv, Hids, Hc. unfold Spec.identifiers.
    rewrite seq_app, map_app. reflexivity. }
  split; [exact Hall|]. split; [rewrite Hall; apply identifiers_NoDup|].
  split; [lia|].
  rewrite Hlog, firstn_app, Nat.sub_diag, firstn_all. simpl.
  now rewrite app_nil_r.
Qed.

Lemma identifiers_never_reused_witness :
  map (fun call : gmap ref Params * Request.t =>
         Request.request_id (snd call))
    (fst (llm_engine Samples.observed_world2))
  = Spec.identifiers 0%nat (request_counter Samples.observed_world2)
  /\ NoDup (map (fun call : gmap ref Params * Request.t =>
                   Request.request_id (snd call))
              (fst (llm_engine Samples.observed_world2)))
  /\ (request_counter Reference.observed_world1
      <= request_counter Samples.observed_world2)%nat
  /\ firstn (length (fst (llm_engine Reference.observed_world1)))
       (fst (llm_engine Samples.observed_world2))
     = fst (llm_engine Reference.observed_world1).
Proof.
  apply (identifiers_never_reused Reference.lifo Reference.accept_guided
           (PromptSeq (firstn 2 Reference.three_prompts)) (OneParams 0%nat)
           false LoraNone None None None None (Some [7; 8])
           Reference.observed_world1 Samples.observed_world2 (Ok tt)).
  - vm_compute. reflexivity.
  - vm_compute. reflexivity.
Defined.

(** * Request logging *)

Lemma slice_to_firstn {A} (xs : list A) (k : Z) :
  exists n, slice_to xs k = firstn n xs.
Proof. unfold slice_to. destruct (0 <=? k); eexists; reflexivity. Qed.

Lemma string_of_list_ascii_app l1 l2 :
  string_of_list_ascii (l1 ++ l2)
  = (string_of_list_ascii l1 ++ string_of_list_ascii l2)%string.
Proof. induction l1 as [|c l1 IH]; simpl; [reflexivity|now rewrite IH]. Qed.

Lemma string_length_list s :
  String.length s = length (list_ascii_of_string s).
Proof. induction s as [|c s IH]; simpl; [reflexivity|now rewrite IH]. Qed.

Lemma str_slice_to_prefix s k :
  exists rest, s = (RequestLogger.str_slice_to s k ++ rest)%string.
Proof.
  unfold RequestLogger.str_slice_to.
  destruct (slice_to_firstn (list_ascii_of_string s) k) as [n ->].
  exists (string_of_list_ascii (skipn n (list_ascii_of_string s))).
  now rewrite <- string_of_list_ascii_app, firstn_skipn,
    string_of_list_ascii_of_string.
Qed.

Lemma str_slice_to_length s k :
  String.length (RequestLogger.str_slice_to s k)
  = length (slice_to (list_ascii_of_string s) k).
Proof.
  unfold RequestLogger.str_slice_to.
  now rewrite string_length_list, list_ascii_of_string_of_list_ascii.
Qed.

Lemma slice_to_prefix {A} (xs : list A) k :
  exists rest, xs = slice_to xs k ++ rest.
Proof.
  destruct (slice_to_firstn xs k) as [n ->]. exists (skipn n xs).
  now rewrite firstn_skipn.
Qed.

(** Property X15.
    Whatever the limit, [log_inputs] makes one call of [logger.info] and
    does not fail; what it logs of the prompt and of the prompt tokens
    is a prefix of each (the whole of it without a limit), the shape of
    the embeddings stands for them, and the other arguments are logged
    as they are. *)
Theorem log_inputs_logs_prefixes (max_log_len : option Z)
    (request_id : string) (prompt : option string)
    (prompt_token_ids : option (list token))
    (prompt_embeds : option Tensor.t)
    (params : option RequestLogger.AnyParams)
    (lora_request : option LoRARequest)
    (prompt_adapter_request : option PromptAdapterRequest)
    (steer_vector_request : option SteerVectorRequest)
    (log : list RequestLogger.info) :
  exists e,
    RequestLogger.log_inputs max_log_len request_id prompt prompt_token_ids
      prompt_embeds params lora_request prompt_adapter_request
      steer_vector_request log = (log ++ [e], Ok tt)
    /\ match prompt, RequestLogger.prompt e with
       | Some p, Some p' =>
           (exists rest, p = (p' ++ rest)%string)
           /\ (max_log_len = None -> p' = p)
       | None, None => True
       | _, _ => False
       end
    /\ match prompt_token_ids, RequestLogger.prompt_token_ids e with
       | Some l, Some l' =>
           (exists rest, l = l' ++ rest) /\ (max_log_len = None -> l' = l)
       | None, None => True
       | _, _ => False
       end
    /\ RequestLogger.prompt_embeds_shape e
       = option_map Tensor.shape prompt_embeds
    /\ RequestLogger.request_id e = request_id
    /\ RequestLogger.params e = params
    /\ RequestLogger.lora_request e = lora_request
    /\ RequestLogger.prompt_adapter_request e = prompt_adapter_request
    /\ RequestLogger.steer_vector_request e = steer_vector_request.
Proof.
  unfold RequestLogger.log_inputs. eexists. split; [reflexivity|]. simpl.
  split; [|split; [|split]].
  - destruct max_log_len as [m|], prompt as [p|]; try exact I.
    + split; [apply str_slice_to_prefix|discriminate].
    + split; [exists ""%string|reflexivity].
      clear. induction p as [|c p IH]; [reflexivity|].
      change (String c p = String c (p ++ "")%string). now f_equal.
  - destruct max_log_len as [m|], prompt_token_ids as [l|]; try exact I.
    + split; [apply slice_to_prefix|discriminate].
    + split; [exists []; now rewrite app_nil_r|reflexivity].
  - destruct prompt_embeds; reflexivity.
  - repeat split; reflexivity.
Qed.

(** Property X16.
    With a limit [m >= 0], at most [m] characters of the prompt and at
    most [m] prompt tokens are logged: [min(len, m)] of each. *)
Theorem log_inputs_bounded (m : Z)
    (request_id : string) (p : string) (l : list token)
    (prompt_embeds : option Tensor.t)
    (params : option RequestLogger.AnyParams)
    (lora_request : option LoRARequest)
    (prompt_adapter_request : option PromptAdapterRequest)
    (steer_vector_request : option SteerVectorRequest)
    (log : list RequestLogger.info) :
  0 <= m ->
  exists e p' l',
    RequestLogger.log_inputs (Some m) request_id (Some p) (Some l)
      prompt_embeds params lora_request prompt_adapter_request
      steer_vector_request log = (log ++ [e], Ok tt)
    /\ RequestLogger.prompt e = Some p'
    /\ RequestLogger.prompt_token_ids e = Some l'
    /\ String.length p' = Nat.min (String.length p) (Z.to_nat m)
    /\ length l' = Nat.min (length l) (Z.to_nat m).
Proof.
  intros Hm. unfold RequestLogger.log_inputs. do 3 eexists.
  split; [reflexivity|]. simpl. split; [reflexivity|].
  split; [reflexivity|].
  rewrite str_slice_to_length. unfold slice_to.
  destruct (0 <=? m) eqn:H0; [|apply Z.leb_gt in H0; lia].
  rewrite !length_firstn, <- string_length_list. lia.
Qed.

Lemma log_inputs_bounded_witness :
  exists e p' l',
    RequestLogger.log_inputs (Some 3) "7" (Some "hello"%string)
      (Some [10; 11]) None None None None None []
    = ([] ++ [e], Ok tt)
    /\ RequestLogger.prompt e = Some p'
    /\ RequestLogger.prompt_token_ids e = Some l'
    /\ String.length p' = Nat.min (String.length "hello") (Z.to_nat 3)
    /\ length l' = Nat.min (length [10; 11]) (Z.to_nat 3).
Proof.
  apply (log_inputs_bounded 3 "7" "hello" [10; 11] None None None None
           None []).
  lia.
Defined.

(** Property X17.
    A negative limit is no way to ask for no limit: with
    [max_log_len = m < 0] the last [-m] characters of the prompt and the
    last [-m] prompt tokens are left out of the log. *)
Theorem log_inputs_negative_limit (m : Z)
    (request_id : string) (p : string) (l : list token)
    (prompt_embeds : option Tensor.t)
    (params : option RequestLogger.AnyParams)
    (lora_request : option LoRARequest)
    (prompt_adapter_request : option PromptAdapterRequest)
    (steer_vector_request : option SteerVectorRequest)
    (log : list RequestLogger.info) :
  m < 0 ->
  exists e p' l',
    RequestLogger.log_inputs (Some m) request_id (Some p) (Some l)
      prompt_embeds params lora_request prompt_adapter_request
      steer_vector_request log = (log ++ [e], Ok tt)
    /\ RequestLogger.prompt e = Some p'
    /\ RequestLogger.prompt_token_ids e = Some l'
    /\ String.length p' = (String.length p - Z.to_nat (- m))%nat
    /\ length l' = (length l - Z.to_nat (- m))%nat.
Proof.
  intros Hm. unfold RequestLogger.log_inputs. do 3 eexists.
  split; [reflexivity|]. simpl. split; [reflexivity|].
  split; [reflexivity|].
  rewrite str_slice_to_length. unfold slice_to.
  destruct (0 <=? m) eqn:H0; [apply Z.leb_le in H0; lia|].
  rewrite !length_firstn, <- string_length_list. lia.
Qed.

Lemma log_inputs_negative_limit_witness :
  exists e p' l',
    RequestLogger.log_inputs (Some (-1)) "7" (Some "hello"%string)
      (Some [10; 11]) None None None None None []
    = ([] ++ [e], Ok tt)
    /\ RequestLogger.prompt e = Some p'
    /\ RequestLogger.prompt_token_ids e = Some l'
    /\ String.length p' = (String.length "hello" - Z.to_nat (- (-1)))%nat
    /\ length l' = (length [10; 11] - Z.to_nat (- (-1)))%nat.
Proof.
  apply (log_inputs_negative_limit (-1) "7" "hello" [10; 11] None None None
           None None []).
  lia.
Defined.

(** * Direct steering vectors *)

(** Property X18.
    Resetting a steering vector does not switch it off.  After a vector
    has been set, made active and reset, the entry of the table is a
    zero tensor of the shape of the payload, but the active vector is
    still the scaled payload; it takes another [set_active_tensor] to
    make the zero tensor active, and that one counts as valid exactly
    when the payload has elements. *)
Theorem active_vector_survives_reset (self : DirectAlgorithm.t)
    (index : Z) (x : Tensor.t) (scale_factor : option Q) :
  exists s3 s4,
    (let! _ := DirectAlgorithm.set_steer_vector index
                 (DirectAlgorithm.IsTensor x) scale_factor in
     let! _ := DirectAlgorithm.set_active_tensor (Some index) in
     DirectAlgorithm.reset_steer_vector index) self = (s3, Ok tt)
    /\ DirectAlgorithm._get_params s3
       = Some (Tensor.scale x
                 (match scale_factor with Some c => c | None => 1%Q end))
    /\ DirectAlgorithm.steer_vectors s3 !! index
       = Some (DirectAlgorithm.IsTensor
                 (Tensor.zeros (Tensor.shape x) (Tensor.device x)
                    (Tensor.dtype x)))
    /\ DirectAlgorithm.set_active_tensor (Some index) s3 = (s4, Ok tt)
    /\ DirectAlgorithm._get_params s4
       = Some (Tensor.zeros (Tensor.shape x) (Tensor.device x)
                 (Tensor.dtype x))
    /\ DirectAlgorithm.active_is_valid s4 = (0 <? Tensor.numel x)%nat.
Proof.
  unfold bind, DirectAlgorithm.set_steer_vector,
    DirectAlgorithm.set_active_tensor, DirectAlgorithm.reset_steer_vector.
  simpl. rewrite lookup_insert_eq. simpl. rewrite lookup_insert_eq. simpl.
  do 2 eexists. split; [reflexivity|]. simpl.
  split; [reflexivity|]. rewrite lookup_insert_eq.
  split; [reflexivity|]. split; [reflexivity|]. split; reflexivity.
Qed.

(** Property X19.
    [reset_steer_vector] changes the entry of [index] at most: the other
    entries, the set of indices and the active vector are as before, an
    absent index stays absent, and a second reset changes nothing. *)
Theorem reset_steer_vector_local (self : DirectAlgorithm.t) (index : Z) :
  exists s1,
    DirectAlgorithm.reset_steer_vector index self = (s1, Ok tt)
    /\ DirectAlgorithm.active_vector s1 = DirectAlgorithm.active_vector self
    /\ (forall j, j <> index ->
          DirectAlgorithm.steer_vectors s1 !! j
          = DirectAlgorithm.steer_vectors self !! j)
    /\ (DirectAlgorithm.steer_vectors self !! index = None ->
        DirectAlgorithm.steer_vectors s1 !! index = None)
    /\ DirectAlgorithm.reset_steer_vector index s1 = (s1, Ok tt).
Proof.
  unfold DirectAlgorithm.reset_steer_vector.
  destruct (DirectAlgorithm.steer_vectors self !! index) as [[x|n|]|] eqn:Hi.
  - eexists. split; [reflexivity|]. simpl. rewrite lookup_insert_eq.
    split; [reflexivity|].
    split; [intros j Hj; now rewrite lookup_insert_ne by congruence|].
    split; [discriminate|].
    unfold DirectAlgorithm.set_steer_vectors. simpl.
    now rewrite insert_insert_eq.
  - eexists. split; [reflexivity|]. simpl. rewrite lookup_insert_eq.
    split; [reflexivity|].
    split; [intros j Hj; now rewrite lookup_insert_ne by congruence|].
    split; [discriminate|].
    unfold DirectAlgorithm.set_steer_vectors. simpl.
    now rewrite insert_insert_eq.
  - eexists. split; [reflexivity|]. simpl. rewrite lookup_insert_eq.
    split; [reflexivity|].
    split; [intros j Hj; now rewrite lookup_insert_ne by congruence|].
    split; [discriminate|].
    unfold DirectAlgorithm.set_steer_vectors. simpl.
    now rewrite insert_insert_eq.
  - exists self. split; [reflexivity|]. rewrite Hi.
    split; [reflexivity|]. split; [reflexivity|]. split; reflexivity.
Qed.

(** * The switch of the legacy interface *)

(** Property X20.
    The flag is not restored.  When the body of
    [with LLM.deprecate_legacy_api()] returns, what follows the block
    runs with [DEPRECATE_LEGACY] false, whatever the flag was before the
    block, true by default, and whatever the body did to it. *)
Theorem deprecate_legacy_api_leaves_flag_off {S A B}
    (body : M (bool * S) A) (rest : A -> M (bool * S) B)
    (flag f1 : bool) (s s1 : S) (a : A) :
  body (true, s) = ((f1, s1), Ok a) ->
  (let! x := Legacy.deprecate_legacy_api body in rest x) (flag, s)
  = rest a (false, s1).
Proof.
  intros H. unfold bind, Legacy.deprecate_legacy_api. simpl.
  rewrite H. reflexivity.
Qed.

Lemma deprecate_legacy_api_leaves_flag_off_witness :
  (let! x := Legacy.deprecate_legacy_api (ret 5) in
   fun fs : bool * unit => (fs, Ok (x, fst fs))) (true, tt)
  = ((false, tt), Ok (5, false)).
Proof.
  apply (deprecate_legacy_api_leaves_flag_off (ret 5)
           (fun x (fs : bool * unit) => (fs, Ok (x, fst fs)))
           true true tt tt 5).
  reflexivity.
Defined.

(** An exception of the body leaves the flag as the body left it, on if
    the body did not touch it: the statement after [yield] is not
    run. *)
Theorem deprecate_legacy_api_exception {S A}
    (body : M (bool * S) A) (flag f1 : bool) (s s1 : S) (e : exn) :
  body (true, s) = ((f1, s1), Raise e) ->
  Legacy.deprecate_legacy_api body (flag, s) = ((f1, s1), Raise e).
Proof.
  intros H. unfold Legacy.deprecate_legacy_api. simpl. rewrite H.
  reflexivity.
Qed.

Lemma deprecate_legacy_api_exception_witness :
  Legacy.deprecate_legacy_api (raise ValueError : M (bool * unit) unit)
    (false, tt)
  = ((true, tt), Raise ValueError).
Proof.
  apply (deprecate_legacy_api_exception
           (raise ValueError : M (bool * unit) unit) false true tt tt
           ValueError).
  reflexivity.
Defined.

(** * Entry points *)

Lemma map_result_index_seq {A B} (f : A -> B) (l1 l2 : list A) :
  map_result (fun i => let? x := index (l1 ++ l2) i in Ok (f x))
    (seq (length l1) (length l2))
  = Ok (map f l2).
Proof.
  revert l1. induction l2 as [|x l2 IH]; intros l1; [reflexivity|].
  simpl. unfold index at 1.
  rewrite nth_error_app2, Nat.sub_diag by lia. simpl.
  specialize (IH (l1 ++ [x])).
  rewrite <- app_assoc, length_app, Nat.add_1_r in IH. simpl in IH.
  now rewrite IH.
Qed.

(** Property X21.
    In the legacy form the text wins.  When [prompts] is given and
    [_convert_v1_inputs] returns, the result is one text prompt per
    parsed prompt, in order, and no item carries token ids: those of
    [prompt_token_ids] are dropped, after they have been counted against
    [len(prompts)] (the number of characters of a single string) and
    parsed. *)
Theorem convert_v1_inputs_text_wins (lib : Entry.Library)
    (p : Entry.TextArg) (t : option Entry.TokensArg)
    (items : list PromptType) :
  Entry._convert_v1_inputs lib (Some p) t = Ok items ->
  exists texts,
    Entry.parse_text lib p = Ok texts
    /\ items = map Entry.TextPrompt texts
    /\ Entry._convert_v1_inputs lib (Some p) None = Ok items
    /\ forall ids, t = Some ids ->
         Entry.text_len p = Entry.tokens_len ids
         /\ exists l, Entry.parse_tokens lib ids = Ok l.
Proof.
  unfold Entry._convert_v1_inputs. intros H.
  assert (Hlen : forall ids, t = Some ids ->
                   Entry.text_len p = Entry.tokens_len ids).
  { intros ids ->.
    destruct (Entry.text_len p =? Entry.tokens_len ids)%nat eqn:Hl;
      [now apply Nat.eqb_eq in Hl|].
    discriminate. }
  assert (H' : (let? prompts := (let? l := Entry.parse_text lib p in
                                 Ok (Some l)) in
                let? prompt_token_ids :=
                  match t with
                  | Some t0 => let? l := Entry.parse_tokens lib t0 in
                               Ok (Some l)
                  | None => Ok None
                  end in
                map_result
                  (fun i =>
                     match prompts, prompt_token_ids with
                     | Some l, _ => let? s := index l i in
                                    Ok (Entry.TextPrompt s)
                     | None, Some l => let? ids := index l i in
                                       Ok (Entry.TokensPrompt ids)
                     | None, None => Raise AssertionError
                     end)
                  (seq 0 match prompts, prompt_token_ids with
                         | Some l, _ => length l
                         | None, Some l => length l
                         | None, None => 0%nat
                         end)) = Ok items).
  { destruct t as [ids|]; [|exact H].
    rewrite (Hlen ids eq_refl), Nat.eqb_refl in H. exact H. }
  clear H. destruct (Entry.parse_text lib p) as [texts| |] eqn:Hp;
    simpl in H'; try discriminate.
  exists texts. split; [reflexivity|].
  pose proof (map_result_index_seq Entry.TextPrompt [] texts) as Hm.
  simpl in Hm.
  assert (Hitems : items = map Entry.TextPrompt texts).
  { destruct t as [ids|].
    - destruct (Entry.parse_tokens lib ids); simpl in H'; try discriminate.
      rewrite Hm in H'. now inversion H'.
    - simpl in H'. rewrite Hm in H'. now inversion H'. }
  split; [exact Hitems|]. split.
  - simpl. rewrite Hm, Hitems. reflexivity.
  - intros ids ->. split; [now apply Hlen|].
    destruct (Entry.parse_tokens lib ids) as [l| |]; simpl in H';
      try discriminate. now exists l.
Qed.

Lemma convert_v1_inputs_text_wins_witness :
  exists texts,
    Entry.parse_text EntrySamples.library
      (Entry.TextList ["ab"%string; "c"%string]) = Ok texts
    /\ [Entry.TextPrompt "ab"; Entry.TextPrompt "c"]
       = map Entry.TextPrompt texts
    /\ Entry._convert_v1_inputs EntrySamples.library
         (Some (Entry.TextList ["ab"%string; "c"%string])) None
       = Ok [Entry.TextPrompt "ab"; Entry.TextPrompt "c"]
    /\ forall ids, Some (Entry.TokensList [[1; 2]; [3]]) = Some ids ->
         Entry.text_len (Entry.TextList ["ab"%string; "c"%string])
         = Entry.tokens_len ids
         /\ exists l, Entry.parse_tokens EntrySamples.library ids = Ok l.
Proof.
  apply (convert_v1_inputs_text_wins EntrySamples.library
           (Entry.TextList ["ab"%string; "c"%string])
           (Some (Entry.TokensList [[1; 2]; [3]]))
           [Entry.TextPrompt "ab"; Entry.TextPrompt "c"]).
  reflexivity.
Defined.

Lemma bind_assoc {S A B C} (c : M S A) (k : A -> M S B) (k' : B -> M S C)
    (s : S) :
  bind (bind c k) k' s = bind c (fun x => bind (k x) k') s.
Proof. unfold bind. destruct (c s) as [s1 [a|e|]]; reflexivity. Qed.

Lemma bind_ext {S A B} (c : M S A) (k k' : A -> M S B) (s : S) :
  (forall a s1, k a s1 = k' a s1) -> bind c k s = bind c k' s.
Proof.
  intros H. unfold bind. destruct (c s) as [s1 [a|e|]]; auto.
Qed.

Lemma generate_arguments {E} (engine : Engine E) cfg lib gpi fuel prompts
    sampling_params use_tqdm lora par svr guided priority
    (s : Entry.Self E) :
  Entry.generate engine cfg lib gpi fuel prompts sampling_params use_tqdm
    lora par svr guided priority s
  = (let! args := EntryExpect.arguments cfg lib prompts sampling_params
                    guided in
     let! _ :=
       match fst (fst (fst args)) with
       | Some parsed =>
           Entry.on_world
             (_validate_and_add_requests engine gpi parsed
                (snd (fst (fst args))) use_tqdm lora par svr
                (Some (snd args)) (snd (fst args)) priority)
       | None => raise TypeError
       end in
     let! outputs := Entry.on_world (_run_engine engine fuel use_tqdm) in
     lift (Entry.validate_outputs lib false outputs)) s.
Proof.
  unfold Entry.generate, EntryExpect.arguments.
  destruct (negb (existsb (String.eqb (Entry.runner_type cfg))
                    ["generate"%string; "transcription"%string]));
    [reflexivity|].
  symmetry.
  rewrite bind_assoc. apply bind_ext. intros parsed s1.
  rewrite bind_assoc. apply bind_ext. intros g s2.
  rewrite bind_assoc. apply bind_ext. intros params s3.
  rewrite bind_assoc. apply bind_ext. intros trunc s4.
  rewrite bind_assoc. apply bind_ext. intros kw s5.
  reflexivity.
Qed.

Lemma bind_inv {S A B} (c : M S A) (k : A -> M S B) (s s' : S) r :
  bind c k s = (s', r) ->
  exists s1 r1,
    c s = (s1, r1)
    /\ match r1 with
       | Ok a => k a s1 = (s', r)
       | Raise e => s' = s1 /\ r = Raise e
       | OutOfFuel => s' = s1 /\ r = OutOfFuel
       end.
Proof.
  unfold bind. destruct (c s) as [s1 [a|e|]]; intros H; exists s1.
  - exists (Ok a). auto.
  - exists (Raise e). inversion H. auto.
  - exists OutOfFuel. inversion H. auto.
Qed.

Lemma lift_inv {S A} (x : result A) (s s1 : S) r1 :
  lift x s = (s1, r1) -> s1 = s /\ r1 = x.
Proof. unfold lift. intros [= <- <-]. auto. Qed.

Ltac stopped :=
  repeat (split; [solve [auto]|]); intros ? ? ? ? ?; discriminate.

(** The new object of [get_default_sampling_params] gets a reference
    that designated nothing; the engine and the counter are not
    touched. *)
Lemma get_default_sampling_params_spec {E} cfg lib (s s1 : Entry.Self E) r1 :
  Entry.get_default_sampling_params cfg lib s = (s1, r1) ->
  llm_engine (Entry.world s1) = llm_engine (Entry.world s)
  /\ request_counter (Entry.world s1) = request_counter (Entry.world s)
  /\ (forall x o, heap (Entry.world s) !! x = Some o ->
        heap (Entry.world s1) !! x = Some o)
  /\ forall r, r1 = Ok r -> heap (Entry.world s) !! r = None.
Proof.
  assert (Hfresh : forall h : gmap ref Params, h !! fresh (dom h) = None).
  { intros h. apply not_elem_of_dom. apply is_fresh. }
  assert (Halloc : forall (o : Params) (t t1 : Entry.Self E) q,
             Entry.on_world (Entry.alloc o) t = (t1, q) ->
             llm_engine (Entry.world t1) = llm_engine (Entry.world t)
             /\ request_counter (Entry.world t1)
                = request_counter (Entry.world t)
             /\ (forall x o', heap (Entry.world t) !! x = Some o' ->
                   heap (Entry.world t1) !! x = Some o')
             /\ forall r, q = Ok r -> heap (Entry.world t) !! r = None).
  { intros o t t1 q. unfold Entry.on_world, Entry.alloc. simpl.
    intros [= <- <-]. simpl. split; [reflexivity|]. split; [reflexivity|].
    split.
    - intros x o' Hx. rewrite lookup_insert_ne; [exact Hx|].
      intros <-. rewrite Hfresh in Hx. discriminate.
    - intros r [= <-]. apply Hfresh. }
  unfold Entry.get_default_sampling_params.
  destruct (match Entry.default_sampling_params s with
            | Some d => d
            | None => Entry.get_diff_sampling_param cfg
            end) as [|kv d] eqn:Hd.
  - intros H. apply Halloc in H. exact H.
  - intros H. apply bind_inv in H as (s2 & r2 & H2 & H).
    apply lift_inv in H2 as [-> ->].
    destruct (Entry.from_optional lib (kv :: d)) as [sp|e|].
    + apply Halloc in H. exact H.
    + destruct H as [-> ->]. simpl. repeat split; auto. discriminate.
    + destruct H as [-> ->]. simpl. repeat split; auto. discriminate.
Qed.

(** What [generate] has done when it comes to the submission: nothing to
    the engine, the counter and the objects of the caller. *)
Lemma arguments_spec {E} cfg lib prompts sampling_params guided
    (s s0 : Entry.Self E) r0 :
  EntryExpect.arguments cfg lib prompts sampling_params guided s = (s0, r0) ->
  llm_engine (Entry.world s0) = llm_engine (Entry.world s)
  /\ request_counter (Entry.world s0) = request_counter (Entry.world s)
  /\ (forall x o, heap (Entry.world s) !! x = Some o ->
        heap (Entry.world s0) !! x = Some o)
  /\ (forall p, sampling_params = Some p ->
        heap (Entry.world s0) = heap (Entry.world s))
  /\ forall parsed params g kw, r0 = Ok (parsed, params, g, kw) ->
       (forall p, prompts = Entry.Unified p -> parsed = p)
       /\ (forall p, sampling_params = Some p -> params = p)
       /\ (sampling_params = None ->
           exists r, params = OneParams r
                     /\ heap (Entry.world s) !! r = None)
       /\ (forall rs, params = ParamsSeq rs ->
             Entry._validate_truncation_size lib (Entry.max_model_len cfg)
               None [] = Ok kw).
Proof.
  unfold EntryExpect.arguments.
  destruct (negb (existsb (String.eqb (Entry.runner_type cfg))
                    ["generate"%string; "transcription"%string])).
  { intros [= <- <-]. stopped. }
  intros H.
  (* the prompts *)
  apply bind_inv in H as (s1 & r1 & HA & H).
  assert (HA' : s1 = s /\ forall parsed, r1 = Ok parsed ->
                           forall p, prompts = Entry.Unified p -> parsed = p).
  { destruct prompts as [p|t ids].
    - inversion HA; subst. split; [reflexivity|].
      intros parsed [= <-] p0 [= <-]. reflexivity.
    - apply bind_inv in HA as (s' & r' & Hl & HA).
      apply lift_inv in Hl as [-> ->].
      destruct (Entry._convert_v1_inputs lib t (Some ids)).
      + inversion HA; subst. split; [reflexivity|]. discriminate.
      + destruct HA as [-> ->]. split; [reflexivity|]. discriminate.
      + destruct HA as [-> ->]. split; [reflexivity|]. discriminate. }
  destruct HA' as [-> HA'].
  destruct r1 as [parsed|e|];
    [|destruct H as [-> ->]; stopped|destruct H as [-> ->]; stopped].
  specialize (HA' parsed eq_refl).
  (* the guided options *)
  apply bind_inv in H as (s2 & r2 & HB & H).
  assert (HB' : s2 = s).
  { destruct guided as [|d|g0].
    - now inversion HB.
    - destruct (1 <? length d)%nat; [now inversion HB|].
      apply bind_inv in HB as (s' & r' & Hl & HB).
      apply lift_inv in Hl as [-> ->].
      destruct (Entry.new_guided_request lib d).
      + now inversion HB.
      + now destruct HB.
      + now destruct HB.
    - now inversion HB. }
  subst s2.
  destruct r2 as [g|e|];
    [|destruct H as [-> ->]; stopped|destruct H as [-> ->]; stopped].
  (* the parameters *)
  apply bind_inv in H as (s3 & r3 & HC & H).
  assert (HC' : llm_engine (Entry.world s3) = llm_engine (Entry.world s)
                /\ request_counter (Entry.world s3)
                   = request_counter (Entry.world s)
                /\ (forall x o, heap (Entry.world s) !! x = Some o ->
                      heap (Entry.world s3) !! x = Some o)
                /\ (forall p, sampling_params = Some p ->
                      heap (Entry.world s3) = heap (Entry.world s))
                /\ forall params, r3 = Ok params ->
                     (forall p, sampling_params = Some p -> params = p)
                     /\ (sampling_params = None ->
                         exists r, params = OneParams r
                                   /\ heap (Entry.world s) !! r = None)).
  { destruct sampling_params as [p|].
    - inversion HC; subst. repeat split; auto.
      + intros p0 [= <-]. now inversion H0.
      + discriminate.
    - apply bind_inv in HC as (s' & r' & Hd & HC).
      apply get_default_sampling_params_spec in Hd
        as (He & Hc & Hh & Hnew).
      destruct r' as [r|e|].
      + inversion HC; subst. split; [exact He|]. split; [exact Hc|].
        split; [exact Hh|]. split; [discriminate|].
        intros params [= <-]. split; [discriminate|].
        intros _. exists r. split; [reflexivity|]. now apply Hnew.
      + destruct HC as [-> ->]. repeat split; auto; discriminate.
      + destruct HC as [-> ->]. repeat split; auto; discriminate. }
  destruct HC' as (He & Hc & Hh & Hsame & HC').
  destruct r3 as [params|e|];
    [|destruct H as [-> ->]; stopped|destruct H as [-> ->]; stopped].
  destruct (HC' params eq_refl) as [Hgiven Hdefault].
  (* the truncation *)
  apply bind_inv in H as (s4 & r4 & HD & H).
  inversion HD; subst s4 r4. clear HD.
  apply bind_inv in H as (s5 & r5 & HE & H).
  apply lift_inv in HE as [-> ->].
  match type of H with
  | match ?x with _ => _ end => destruct x as [kw|e|] eqn:Hkw
  end;
    [|destruct H as [-> ->]; stopped|destruct H as [-> ->]; stopped].
  inversion H; subst. split; [exact He|]. split; [exact Hc|].
  split; [exact Hh|]. split; [exact Hsame|].
  intros parsed0 params0 g0 kw0 [= <- <- <- <-].
  split; [exact HA'|]. split; [exact Hgiven|]. split; [exact Hdefault|].
  intros rs ->. exact Hkw.
Qed.

Lemma finalize_step_heap_frame {E} gpi go r0 (s s1 : World E) res :
  finalize_sampling_params gpi go r0 s = (s1, res) ->
  forall x, x <> r0 -> heap s1 !! x = heap s !! x.
Proof.
  unfold finalize_sampling_params.
  destruct (heap s !! r0) as [[sp|pp]|]; try (intros [= <- <-]; reflexivity).
  destruct (_add_guided_params gpi sp go); intros [= <- <-] x Hx;
    try reflexivity.
  simpl. now rewrite lookup_insert_ne by congruence.
Qed.

Lemma finalize_loop_heap_frame {E} gpi go rs (w w1 : World E) res :
  for_each rs (finalize_sampling_params gpi go) w = (w1, res) ->
  forall x, ~ In x rs -> heap w1 !! x = heap w !! x.
Proof.
  intros H x Hx. revert H.
  apply (PipelineFacts.for_each_inv
           (fun s : World E => heap s !! x = heap w !! x)); [|reflexivity].
  intros r0 s s' r Hin Hs Hbody.
  rewrite <- Hs. eapply finalize_step_heap_frame; [exact Hbody|].
  intros ->. contradiction.
Qed.

(** What has reached the observed engine when
    [_validate_and_add_requests] ends, whatever its outcome: the
    requests that the code makes of the prompts, seen with the parameter
    objects in their final state; no other object has changed. *)
Lemma recorded_calls_any {E} (engine : Engine E) gpi prompts params use_tqdm
    lora par svr tk go priority
    (w w' : World (list (gmap ref Params * Request.t) * E)) res :
  _validate_and_add_requests (Observe.recording engine) gpi prompts params
    use_tqdm lora par svr tk go priority w = (w', res) ->
  (forall x, ~ In x (Spec.refs_of params) -> heap w' !! x = heap w !! x)
  /\ exists calls,
       fst (llm_engine w') = fst (llm_engine w) ++ calls
       /\ Forall (fun call : gmap ref Params * Request.t =>
                    fst call = heap w'
                    /\ exists n ip,
                         Expect.request_for params lora par svr tk priority
                           n ip = Ok (snd call)) calls.
Proof.
  intros H.
  destruct (shapes_decide prompts params lora) as [Hshape|Hbad].
  2:{ rewrite (shape_error_no_side_effect _ _ _ _ _ _ _ _ _ _ _ _ Hbad) in H.
      inversion H; subst. split; [reflexivity|].
      exists []. now rewrite app_nil_r. }
  rewrite (PipelineFacts.validate_and_add_unfold _ _ _ _ _ _ _ _ _ _ _ Hshape)
    in H.
  apply bind_inv in H as (w0 & r0 & Hfin & H).
  pose proof (finalize_loop_heap_frame _ _ _ _ _ _ Hfin) as Hframe.
  apply finalize_loop_log in Hfin as [He _].
  destruct r0 as [[]|e|].
  2,3: destruct H as [-> ->]; split; [exact Hframe|]; exists [];
       now rewrite He, app_nil_r.
  assert (Hloop : heap w' = heap w0
                  /\ exists calls,
                       fst (llm_engine w') = fst (llm_engine w0) ++ calls
                       /\ Forall (fun call : gmap ref Params * Request.t =>
                                    fst call = heap w0
                                    /\ exists n ip,
                                         Expect.request_for params lora par
                                           svr tk priority n ip
                                         = Ok (snd call)) calls).
  { revert H.
    apply (PipelineFacts.for_each_inv
             (fun s : World (list (gmap ref Params * Request.t) * E) =>
                heap s = heap w0
                /\ exists calls,
                     fst (llm_engine s) = fst (llm_engine w0) ++ calls
                     /\ Forall (fun call : gmap ref Params * Request.t =>
                                  fst call = heap w0
                                  /\ exists n ip,
                                       Expect.request_for params lora par
                                         svr tk priority n ip
                                       = Ok (snd call)) calls)).
    - intros ip s s' r _ (Hh & calls & Hlog & Hcalls) Hbody.
      apply add_request_at_recorded in Hbody
        as (Hh' & [(Hsame & _)|(req & Hlog' & _ & Hreq)]).
      + split; [congruence|]. exists calls. split; [congruence|exact Hcalls].
      + split; [congruence|]. exists (calls ++ [(heap s, req)]). split.
        * rewrite Hlog', Hlog, <- app_assoc. reflexivity.
        * apply Forall_app. split; [exact Hcalls|].
          constructor; [|constructor]. simpl. split; [exact Hh|].
          eauto.
    - split; [reflexivity|]. exists []. now rewrite app_nil_r. }
  destruct Hloop as (Hh & calls & Hlog & Hcalls).
  split; [intros x Hx; rewrite Hh; now apply Hframe|].
  exists calls. split; [now rewrite Hlog, He|].
  eapply Forall_impl; [|exact Hcalls]. intros call [Hc Hr].
  split; [congruence|exact Hr].
Qed.

Lemma request_for_fields params lora par svr tk priority n ip req :
  Expect.request_for params lora par svr tk priority n ip = Ok req ->
  Request.tokenization_kwargs req = tk
  /\ Request.prompt req = snd ip
  /\ forall r, params = OneParams r -> Request.params req = r.
Proof.
  unfold Expect.request_for. destruct ip as [i prompt].
  destruct params as [r0|rs]; simpl.
  - destruct (match lora with
              | LoraSeq ls => index ls i
              | LoraOne l => Ok (Some l)
              | LoraNone => Ok None
              end); simpl; try discriminate.
    destruct (match priority with
              | Some (p :: ps) => index (p :: ps) i
              | _ => Ok 0
              end); simpl; try discriminate.
    intros [= <-]. simpl. repeat split. now intros r [= <-].
  - destruct (index rs i); simpl; try discriminate.
    destruct (match lora with
              | LoraSeq ls => index ls i
              | LoraOne l => Ok (Some l)
              | LoraNone => Ok None
              end); simpl; try discriminate.
    destruct (match priority with
              | Some (p :: ps) => index (p :: ps) i
              | _ => Ok 0
              end); simpl; try discriminate.
    intros [= <-]. simpl. repeat split. discriminate.
Qed.

Lemma drain_recording_log {E} (engine : Engine E) use_tqdm fuel :
  forall outputs (le le' : list (gmap ref Params * Request.t) * E) r,
    drain (Observe.recording engine) use_tqdm fuel outputs le = (le', r) ->
    fst le' = fst le.
Proof.
  induction fuel as [|fuel IH]; intros outputs le le' r H; simpl in H.
  - destruct (has_unfinished_requests engine (snd le)); now inversion H.
  - destruct (has_unfinished_requests engine (snd le)); [|now inversion H].
    apply bind_inv in H as (le1 & r1 & Hstep & H).
    assert (Hlog : fst le1 = fst le).
    { destruct le as [log e]. simpl in Hstep.
      destruct (step engine e) as [e1 res]. now inversion Hstep. }
    destruct r1 as [so|e|]; [|destruct H as [-> _]; exact Hlog
                            |destruct H as [-> _]; exact Hlog].
    apply bind_inv in H as (le2 & r2 & Hcol & H).
    apply lift_inv in Hcol as [-> ->].
    destruct (collect use_tqdm so outputs) as [o1|e|].
    + apply IH in H. congruence.
    + destruct H as [-> _]. exact Hlog.
    + destruct H as [-> _]. exact Hlog.
Qed.

Lemma run_engine_frame {E} (engine : Engine E) fuel use_tqdm (w w' : World E)
    r :
  _run_engine engine fuel use_tqdm w = (w', r) ->
  heap w' = heap w /\ request_counter w' = request_counter w.
Proof.
  unfold _run_engine. intros H.
  apply bind_inv in H as (w1 & r1 & Hd & H).
  assert (Hw : heap w1 = heap w /\ request_counter w1 = request_counter w).
  { unfold on_engine in Hd.
    destruct (drain engine use_tqdm fuel [] (llm_engine w)).
    inversion Hd; subst. auto. }
  destruct r1 as [outs|e|]; [|destruct H as [-> _]; exact Hw
                            |destruct H as [-> _]; exact Hw].
  apply lift_inv in H as [-> _]. exact Hw.
Qed.

Lemma run_engine_recording_log {E} (engine : Engine E) fuel use_tqdm
    (w w' : World (list (gmap ref Params * Request.t) * E)) r :
  _run_engine (Observe.recording engine) fuel use_tqdm w = (w', r) ->
  fst (llm_engine w') = fst (llm_engine w).
Proof.
  unfold _run_engine. intros H.
  apply bind_inv in H as (w1 & r1 & Hd & H).
  assert (Hw : fst (llm_engine w1) = fst (llm_engine w)).
  { unfold on_engine in Hd.
    destruct (drain (Observe.recording engine) use_tqdm fuel []
                (llm_engine w)) as [le r'] eqn:Hdr.
    apply drain_recording_log in Hdr. inversion Hd; subst. exact Hdr. }
  destruct r1 as [outs|e|]; [|destruct H as [-> _]; exact Hw
                            |destruct H as [-> _]; exact Hw].
  apply lift_inv in H as [-> _]. exact Hw.
Qed.

(** The three steps of [generate] after its arguments are ready. *)
Lemma generate_inv {E} (engine : Engine E) cfg lib gpi fuel prompts
    sampling_params use_tqdm lora par svr guided priority
    (s s' : Entry.Self E) r :
  Entry.generate engine cfg lib gpi fuel prompts sampling_params use_tqdm
    lora par svr guided priority s = (s', r) ->
  exists s0 r0,
    EntryExpect.arguments cfg lib prompts sampling_params guided s = (s0, r0)
    /\ ((Entry.world s' = Entry.world s0 /\ forall outputs, r <> Ok outputs)
        \/ exists parsed params g kw w1 res,
             r0 = Ok (Some parsed, params, g, kw)
             /\ _validate_and_add_requests engine gpi parsed params use_tqdm
                  lora par svr (Some kw) g priority (Entry.world s0)
                = (w1, res)
             /\ ((res <> Ok tt /\ Entry.world s' = w1
                  /\ forall outputs, r <> Ok outputs)
                 \/ exists r2,
                      res = Ok tt
                      /\ _run_engine engine fuel use_tqdm w1
                         = (Entry.world s', r2)
                      /\ r = match r2 with
                             | Ok collected =>
                                 Entry.validate_outputs lib false collected
                             | Raise e => Raise e
                             | OutOfFuel => OutOfFuel
                             end)).
Proof.
  rewrite generate_arguments. intros H.
  apply bind_inv in H as (s0 & r0 & Hargs & H).
  exists s0, r0. split; [exact Hargs|].
  destruct r0 as [[[[parsed params] g] kw]|e|];
    [|destruct H as [-> ->]; left; split; [reflexivity|discriminate]
     |destruct H as [-> ->]; left; split; [reflexivity|discriminate]].
  simpl in H. apply bind_inv in H as (s1 & r1 & Hsub & H).
  destruct parsed as [parsed|].
  2:{ inversion Hsub; subst. destruct H as [-> ->]. left.
      split; [reflexivity|discriminate]. }
  right. exists parsed, params, g, kw.
  unfold Entry.on_world in Hsub.
  destruct (_validate_and_add_requests engine gpi parsed params use_tqdm
              lora par svr (Some kw) g priority (Entry.world s0))
    as [w1 res] eqn:Hval.
  inversion Hsub; subst s1 r1. clear Hsub.
  exists w1, res. split; [reflexivity|]. split; [reflexivity|].
  destruct res as [[]|e|].
  2,3: left; destruct H as [-> ->]; simpl;
       (split; [discriminate|]); split; [reflexivity|discriminate].
  right. apply bind_inv in H as (s2 & r2 & Hrun & H).
  unfold Entry.on_world in Hrun. simpl in Hrun.
  destruct (_run_engine engine fuel use_tqdm w1) as [w2 r2'] eqn:Hr.
  inversion Hrun; subst s2 r2. clear Hrun.
  exists r2'. split; [reflexivity|].
  destruct r2' as [collected|e|].
  - apply lift_inv in H as [-> ->]. simpl. auto.
  - destruct H as [-> ->]. simpl. auto.
  - destruct H as [-> ->]. simpl. auto.
Qed.

(** Property X22.
    With a sequence of parameter objects [generate] asks for no
    truncation: whatever [truncate_prompt_tokens] the objects carry and
    whatever the outcome of the call, every request that reaches the
    engine carries the tokenization options that
    [_validate_truncation_size] makes of no truncation at all. *)
Theorem generate_sequence_ignores_truncation {E} (engine : Engine E)
    (cfg : Entry.ModelConfig) (lib : Entry.Library)
    (gpi : GuidedDecodingParams.t -> bool) (fuel : nat)
    (prompts : Entry.PromptInput) (rs : list ref) (use_tqdm : bool)
    (lora : LoraArg) (par : option PromptAdapterRequest)
    (svr : option SteerVectorRequest) (guided : Entry.GuidedArg)
    (priority : option (list Z))
    (s s' : Entry.Self (list (gmap ref Params * Request.t) * E))
    (r : result (list RequestOutput.t)) :
  Entry.generate (Observe.recording engine) cfg lib gpi fuel prompts
    (Some (ParamsSeq rs)) use_tqdm lora par svr guided priority s = (s', r) ->
  exists calls,
    fst (llm_engine (Entry.world s')) = fst (llm_engine (Entry.world s)) ++ calls
    /\ Forall (fun call : gmap ref Params * Request.t =>
                 exists kw,
                   Entry._validate_truncation_size lib
                     (Entry.max_model_len cfg) None [] = Ok kw
                   /\ Request.tokenization_kwargs (snd call) = Some kw)
         calls.
Proof.
  intros H. apply generate_inv in H as (s0 & r0 & Hargs & H).
  apply arguments_spec in Hargs as (He & _ & _ & _ & Hok).
  destruct H as [[Hw _]|(parsed & params & g & kw & w1 & res & -> & Hval & H)].
  { exists []. rewrite Hw, He, app_nil_r. auto. }
  destruct (Hok _ _ _ _ eq_refl) as (_ & Hgiven & _ & Hkw).
  rewrite (Hgiven _ eq_refl) in *. specialize (Hkw rs eq_refl).
  apply recorded_calls_any in Hval as (_ & calls & Hlog & Hcalls).
  assert (Hlog' : fst (llm_engine (Entry.world s'))
                  = fst (llm_engine w1)).
  { destruct H as [(_ & -> & _)|(r2 & _ & Hrun & _)]; [reflexivity|].
    now apply run_engine_recording_log in Hrun. }
  exists calls. split; [now rewrite Hlog', Hlog, He|].
  eapply Forall_impl; [|exact Hcalls].
  intros call (_ & n & ip & Hreq). exists kw. split; [exact Hkw|].
  now apply request_for_fields in Hreq as (-> & _).
Qed.

Lemma generate_sequence_ignores_truncation_witness :
  exists calls,
    fst (llm_engine (Entry.world EntrySamples.self_sequence))
    = fst (llm_engine (Entry.world EntrySamples.self0)) ++ calls
    /\ Forall (fun call : gmap ref Params * Request.t =>
                 exists kw,
                   Entry._validate_truncation_size EntrySamples.library
                     (Entry.max_model_len EntrySamples.config) None []
                   = Ok kw
                   /\ Request.tokenization_kwargs (snd call) = Some kw)
         calls.
Proof.
  apply (generate_sequence_ignores_truncation Reference.lifo
           EntrySamples.config EntrySamples.library Reference.accept_guided
           3 (Entry.Unified (Some (PromptSeq Reference.three_prompts)))
           [0%nat; 0%nat; 0%nat] true LoraNone None None Entry.GuidedNone
           None EntrySamples.self0 EntrySamples.self_sequence
           (Ok Samples.outputs2)).
  vm_compute. reflexivity.
Defined.

(** Property X23.
    Without sampling parameters [generate] works on an object of its
    own.  Whatever the outcome, the objects of the caller are what they
    were, and every request that reaches the engine refers to one and
    the same reference, which designated no object before the call. *)
Theorem generate_default_params_fresh {E} (engine : Engine E)
    (cfg : Entry.ModelConfig) (lib : Entry.Library)
    (gpi : GuidedDecodingParams.t -> bool) (fuel : nat)
    (prompts : Entry.PromptInput) (use_tqdm : bool)
    (lora : LoraArg) (par : option PromptAdapterRequest)
    (svr : option SteerVectorRequest) (guided : Entry.GuidedArg)
    (priority : option (list Z))
    (s s' : Entry.Self (list (gmap ref Params * Request.t) * E))
    (r : result (list RequestOutput.t)) :
  Entry.generate (Observe.recording engine) cfg lib gpi fuel prompts
    None use_tqdm lora par svr guided priority s = (s', r) ->
  (forall x o, heap (Entry.world s) !! x = Some o ->
     heap (Entry.world s') !! x = Some o)
  /\ exists new calls,
       heap (Entry.world s) !! new = None
       /\ fst (llm_engine (Entry.world s'))
          = fst (llm_engine (Entry.world s)) ++ calls
       /\ Forall (fun call : gmap ref Params * Request.t =>
                    Request.params (snd call) = new) calls.
Proof.
  intros H. apply generate_inv in H as (s0 & r0 & Hargs & H).
  apply arguments_spec in Hargs as (He & _ & Hh & _ & Hok).
  assert (Hfresh : heap (Entry.world s) !! fresh (dom (heap (Entry.world s)))
                   = None).
  { apply not_elem_of_dom. apply is_fresh. }
  destruct H as [[Hw _]|(parsed & params & g & kw & w1 & res & -> & Hval & H)].
  { split; [intros x o Hx; rewrite Hw; now apply Hh|].
    exists (fresh (dom (heap (Entry.world s)))), [].
    rewrite Hw, He, app_nil_r. auto. }
  destruct (Hok _ _ _ _ eq_refl) as (_ & _ & Hdefault & _).
  destruct (Hdefault eq_refl) as (new & -> & Hnew).
  apply recorded_calls_any in Hval as (Hframe & calls & Hlog & Hcalls).
  assert (Hend : fst (llm_engine (Entry.world s')) = fst (llm_engine w1)
                 /\ heap (Entry.world s') = heap w1).
  { destruct H as [(_ & -> & _)|(r2 & _ & Hrun & _)]; [auto|].
    split; [now apply run_engine_recording_log in Hrun|].
    now apply run_engine_frame in Hrun as [-> _]. }
  destruct Hend as [Hlog' Hheap]. split.
  - intros x o Hx. rewrite Hheap, Hframe; [now apply Hh|].
    simpl. intros [<-|[]]. congruence.
  - exists new, calls. split; [exact Hnew|].
    split; [now rewrite Hlog', Hlog, He|].
    eapply Forall_impl; [|exact Hcalls].
    intros call (_ & n & ip & Hreq).
    apply request_for_fields in Hreq as (_ & _ & Hp). now apply Hp.
Qed.

Lemma generate_default_params_fresh_witness :
  (forall x o, heap (Entry.world EntrySamples.self0) !! x = Some o ->
     heap (Entry.world EntrySamples.self_default) !! x = Some o)
  /\ exists new calls,
       heap (Entry.world EntrySamples.self0) !! new = None
       /\ fst (llm_engine (Entry.world EntrySamples.self_default))
          = fst (llm_engine (Entry.world EntrySamples.self0)) ++ calls
       /\ Forall (fun call : gmap ref Params * Request.t =>
                    Request.params (snd call) = new) calls.
Proof.
  apply (generate_default_params_fresh Reference.lifo
           EntrySamples.config EntrySamples.library Reference.accept_guided
           3 (Entry.Unified (Some (PromptSeq Reference.three_prompts)))
           true LoraNone None None Entry.GuidedNone None
           EntrySamples.self0 EntrySamples.self_default
           EntrySamples.result_default).
  vm_compute. reflexivity.
Defined.

Lemma recording_contract {E} (engine : Engine E) unfinished ticks :
  EngineContract engine unfinished ticks ->
  EngineContract (Observe.recording engine)
    (fun le => unfinished (snd le)) (fun le => ticks (snd le)).
Proof.
  intros C. split.
  - intros le. apply (has_unfinished_spec engine unfinished ticks C).
  - intros h r [log e] le' H. simpl in H.
    destruct (add_request engine h r e) as [e1 res] eqn:Hadd.
    inversion H; subst. simpl.
    eapply (add_request_spec engine unfinished ticks C). exact Hadd.
  - intros [log e] Hu. simpl in Hu.
    destruct (step_spec engine unfinished ticks C e Hu)
      as (e1 & outs & Hstep & Hperm & Hids & Hlt).
    exists (log, e1), outs. simpl. rewrite Hstep. auto.
Qed.

Lemma drain_ok_spec {E} (engine : Engine E) unfinished ticks use_tqdm :
  EngineContract engine unfinished ticks ->
  forall fuel e outputs e' outputs',
    drain engine use_tqdm fuel outputs e = (e', Ok outputs') ->
    unfinished e' = []
    /\ Permutation (map RequestOutput.request_id outputs')
         (map RequestOutput.request_id outputs
          ++ map Request.request_id (unfinished e))
    /\ (Forall (fun o => RequestOutput.finished o = true) outputs ->
        Forall (fun o => RequestOutput.finished o = true) outputs').
Proof.
  intros C.
  assert (Hidle : forall e, has_unfinished_requests engine e = false ->
                    unfinished e = []).
  { intros e Hu. destruct (unfinished e) eqn:Hx; [reflexivity|].
    assert (has_unfinished_requests engine e = true)
      by (apply (has_unfinished_spec engine unfinished ticks C);
          now rewrite Hx).
    congruence. }
  induction fuel as [|fuel IH]; intros e outputs e' outputs' H; simpl in H.
  - destruct (has_unfinished_requests engine e) eqn:Hu; [discriminate|].
    inversion H; subst. rewrite (Hidle _ Hu). simpl. rewrite app_nil_r. auto.
  - destruct (has_unfinished_requests engine e) eqn:Hu.
    + destruct (step_spec engine unfinished ticks C e Hu)
        as (e1 & outs & Hstep & Hperm & Hids & _).
      unfold bind in H. rewrite Hstep in H. unfold lift in H.
      rewrite (PipelineFacts.collect_spec _ _ _ Hids) in H.
      apply IH in H as (Hdone & Hp & Hfin).
      split; [exact Hdone|]. split.
      * rewrite Hp, map_app, <- app_assoc.
        apply Permutation_app_head. exact Hperm.
      * intros Hall. apply Hfin, Forall_app. split; [exact Hall|].
        apply Forall_forall. intros o Ho. now apply filter_In in Ho.
    + inversion H; subst. rewrite (Hidle _ Hu). simpl. rewrite app_nil_r.
      auto.
Qed.

Lemma drain_more_fuel {E} (engine : Engine E) use_tqdm fuel :
  forall fuel' outputs e e' outputs',
    drain engine use_tqdm fuel outputs e = (e', Ok outputs') ->
    (fuel <= fuel')%nat ->
    drain engine use_tqdm fuel' outputs e = (e', Ok outputs').
Proof.
  induction fuel as [|fuel IH]; intros fuel' outputs e e' outputs' H Hle;
    simpl in H.
  - destruct (has_unfinished_requests engine e) eqn:Hu; [discriminate|].
    inversion H; subst. now apply drain_idle.
  - destruct fuel' as [|fuel']; [lia|]. simpl.
    destruct (has_unfinished_requests engine e) eqn:Hu; [|exact H].
    unfold bind in *. destruct (step engine e) as [e1 [so|x|]];
      try discriminate.
    unfold lift in *. destruct (collect use_tqdm so outputs) as [o1|x|];
      try discriminate.
    apply IH; [exact H|lia].
Qed.

Lemma run_engine_more_fuel {E} (engine : Engine E) fuel fuel' use_tqdm
    (w w' : World E) outputs :
  _run_engine engine fuel use_tqdm w = (w', Ok outputs) ->
  (fuel <= fuel')%nat ->
  _run_engine engine fuel' use_tqdm w = (w', Ok outputs).
Proof.
  intros H Hle. apply run_engine_ok in H as (e' & collected & Hd & -> & Hs).
  unfold _run_engine, bind, on_engine.
  rewrite (drain_more_fuel engine use_tqdm fuel fuel' _ _ _ _ Hd Hle).
  unfold lift. now rewrite Hs.
Qed.

Lemma recorded_prompts params lora par svr tk priority c :
  forall (items : list (nat * PromptType)) (reqs : list Request.t),
    map_result
      (fun nip : nat * (nat * PromptType) =>
         Expect.request_for params lora par svr tk priority
           (fst nip) (snd nip))
      (combine (seq c (length items)) items) = Ok reqs ->
    map Request.prompt reqs = map snd items
    /\ map Request.request_id reqs = Spec.identifiers c (length items).
Proof.
  intros items. revert c. induction items as [|ip items IH]; intros c reqs H.
  - inversion H. auto.
  - simpl in H.
    destruct (Expect.request_for params lora par svr tk priority c ip)
      as [req| |] eqn:Hreq; simpl in H; try discriminate.
    destruct (map_result _ (combine (seq (S c) (length items)) items))
      as [reqs'| |] eqn:Hrest; simpl in H; try discriminate.
    inversion H; subst. apply IH in Hrest as [Hp Hi].
    pose proof (request_for_identifier _ _ _ _ _ _ _ _ _ Hreq) as Hid.
    apply request_for_fields in Hreq as (_ & Hprompt & _).
    simpl. rewrite Hp, Hi, Hprompt, Hid. auto.
Qed.

(** Property X24.
    The outputs of [generate] answer the prompts in their order.  On an
    engine that meets the contract and is idle, when [generate] returns,
    the engine has received one request per prompt, in the order of the
    prompts; the outputs that were checked and returned are finished
    and the [i]-th carries the identifier of the [i]-th request; the
    engine is idle again, and more fuel gives the same result. *)
Theorem generate_in_prompt_order {E} (engine : Engine E)
    (unfinished : E -> list Request.t) (ticks : E -> nat)
    (cfg : Entry.ModelConfig) (lib : Entry.Library)
    (gpi : GuidedDecodingParams.t -> bool) (fuel : nat)
    (prompts : PromptsArg) (sampling_params : option ParamsArg)
    (use_tqdm : bool)
    (lora : LoraArg) (par : option PromptAdapterRequest)
    (svr : option SteerVectorRequest) (guided : Entry.GuidedArg)
    (priority : option (list Z))
    (s s' : Entry.Self (list (gmap ref Params * Request.t) * E))
    (outputs : list RequestOutput.t) :
  EngineContract engine unfinished ticks ->
  unfinished (snd (llm_engine (Entry.world s))) = [] ->
  Entry.generate (Observe.recording engine) cfg lib gpi fuel
    (Entry.Unified (Some prompts)) sampling_params use_tqdm lora par svr
    guided priority s = (s', Ok outputs) ->
  (exists calls collected,
     fst (llm_engine (Entry.world s'))
     = fst (llm_engine (Entry.world s)) ++ calls
     /\ map (fun call : gmap ref Params * Request.t =>
               Request.prompt (snd call)) calls
        = Spec.prompts_of prompts
     /\ map RequestOutput.request_id collected
        = map (fun call : gmap ref Params * Request.t =>
                 Request.request_id (snd call)) calls
     /\ Forall (fun o => RequestOutput.finished o = true) collected
     /\ Entry.validate_outputs lib false collected = Ok outputs
     /\ unfinished (snd (llm_engine (Entry.world s'))) = [])
  /\ forall fuel', (fuel <= fuel')%nat ->
       Entry.generate (Observe.recording engine) cfg lib gpi fuel'
         (Entry.Unified (Some prompts)) sampling_params use_tqdm lora par
         svr guided priority s = (s', Ok outputs).
Proof.
  intros C Hidle H. split.
  - apply generate_inv in H as (s0 & r0 & Hargs & H).
    apply arguments_spec in Hargs as (He & Hc & _ & _ & Hok).
    destruct H as [[_ Hne]|(parsed & params & g & kw & w1 & res & -> & Hval
                            & H)]; [now destruct (Hne outputs)|].
    destruct (Hok _ _ _ _ eq_refl) as (Hparsed & _).
    specialize (Hparsed _ eq_refl). inversion Hparsed; subst parsed.
    clear Hparsed.
    destruct H as [(_ & _ & Hne)|(r2 & -> & Hrun & Hr)];
      [now destruct (Hne outputs)|].
    destruct r2 as [collected|e|]; try discriminate.
    pose proof (recording_contract engine unfinished ticks C) as C'.
    assert (Hshape : Spec.shapes_agree prompts params lora).
    { eapply validate_ok_shapes; [exact Hval|]. left. discriminate. }
    rewrite (PipelineFacts.validate_and_add_unfold _ _ _ _ _ _ _ _ _ _ _
               Hshape) in Hval.
    apply PyFacts.bind_ok in Hval as (w0 & [] & Hfin & Hadd).
    apply finalize_loop_log in Hfin as [He0 Hc0].
    pose proof Hadd as Hrec.
    apply recorded_requests in Hrec as (calls & Hlog & Hmap).
    apply (PipelineFacts.add_loop_spec (Observe.recording engine)
             (fun le => unfinished (snd le)) (fun le => ticks (snd le)))
      in Hadd as (_ & _ & reqs & Hperm & Hids & _); [|exact C'].
    rewrite He0, He, Hidle, app_nil_r in Hperm.
    apply recorded_prompts in Hmap as [Hprompts Hcallids].
    destruct (enumerate_spec (Spec.prompts_of prompts)) as [Hlen Hsnd].
    rewrite Hsnd in Hprompts. rewrite map_map in Hprompts, Hcallids.
    apply run_engine_ok in Hrun as (e2 & outs & Hdrain & Hs' & Hsort).
    pose proof (drain_recording_log _ _ _ _ _ _ _ Hdrain) as Hsame.
    apply (drain_ok_spec (Observe.recording engine)
             (fun le => unfinished (snd le)) (fun le => ticks (snd le))
             use_tqdm C') in Hdrain as (Hdone & Hpout & Hfinished).
    simpl in Hpout. rewrite Hperm, Hids in Hpout.
    destruct (PyFacts.collate RequestOutput.request_id outs _ _ Hpout)
      as (l & Hsort' & Hpl & Hl).
    rewrite Hsort in Hsort'. inversion Hsort'; subst l.
    exists calls, collected.
    split; [rewrite Hs'; simpl; now rewrite Hsame, Hlog, He0, He|].
    split; [exact Hprompts|].
    split; [rewrite Hl, Hcallids; reflexivity|].
    split; [|split; [now symmetry|rewrite Hs'; exact Hdone]].
    eapply Permutation_Forall; [symmetry; exact Hpl|].
    apply Hfinished. constructor.
  - intros fuel' Hle. rewrite generate_arguments in H |- *.
    unfold bind in H |- *.
    destruct (EntryExpect.arguments cfg lib (Entry.Unified (Some prompts))
                sampling_params guided s) as [s0 [args|e|]];
      try discriminate.
    destruct (match fst (fst (fst args)) with
              | Some parsed =>
                  Entry.on_world
                    (_validate_and_add_requests (Observe.recording engine)
                       gpi parsed (snd (fst (fst args))) use_tqdm lora par
                       svr (Some (snd args)) (snd (fst args)) priority)
              | None => raise TypeError
              end s0) as [s1 [[]|e|]]; try discriminate.
    unfold Entry.on_world in H |- *.
    destruct (_run_engine (Observe.recording engine) fuel use_tqdm
                (Entry.world s1)) as [w2 [collected|e|]] eqn:Hrun;
      try discriminate.
    now rewrite (run_engine_more_fuel _ _ _ _ _ _ _ Hrun Hle).
Qed.

Lemma generate_in_prompt_order_witness :
  (exists calls collected,
     fst (llm_engine (Entry.world EntrySamples.self_default))
     = fst (llm_engine (Entry.world EntrySamples.self0)) ++ calls
     /\ map (fun call : gmap ref Params * Request.t =>
               Request.prompt (snd call)) calls
        = Spec.prompts_of (PromptSeq Reference.three_prompts)
     /\ map RequestOutput.request_id collected
        = map (fun call : gmap ref Params * Request.t =>
                 Request.request_id (snd call)) calls
     /\ Forall (fun o => RequestOutput.finished o = true) collected
     /\ Entry.validate_outputs EntrySamples.library false collected
        = Ok Samples.outputs2
     /\ (fun e : list Request.t => e)
          (snd (llm_engine (Entry.world EntrySamples.self_default))) = [])
  /\ forall fuel', (3 <= fuel')%nat ->
       Entry.generate (Observe.recording Reference.lifo) EntrySamples.config
         EntrySamples.library Reference.accept_guided fuel'
         (Entry.Unified (Some (PromptSeq Reference.three_prompts))) None
         true LoraNone None None Entry.GuidedNone None EntrySamples.self0
       = (EntrySamples.self_default, Ok Samples.outputs2).
Proof.
  apply (generate_in_prompt_order Reference.lifo (fun e => e)
           (fun e => length e) EntrySamples.config EntrySamples.library
           Reference.accept_guided 3 (PromptSeq Reference.three_prompts)
           None true LoraNone None None Entry.GuidedNone None
           EntrySamples.self0 EntrySamples.self_default Samples.outputs2).
  - exact lifo_contract.
  - reflexivity.
  - vm_compute. reflexivity.
Defined.
